(** * Soorj: the scanner and the tree-walking evaluator, embedded in Rocq

    The development follows the Python sources of the interpreter:
    - [lexer.py]: [Lexer] and its token stream;
    - [parser.py]: the AST node classes (the data the evaluator walks);
    - [interpreter.py]: [SoorjValue], [Environment], [SoorjFunction],
      the three built-ins and [Interpreter];
    - [soorj.py]: the handler that [run_source] wraps around
      [Interpreter.interpret].

    Python values are modelled as they are at run time: a [str] is its
    sequence of code points, an [int] is a [Z], a [float] is an IEEE-754
    binary64 number ([spec_float] with precision 53 and maximal exponent
    1024), exceptions are an error monad over an explicit interpreter
    state. *)

From Stdlib Require Import ZArith NArith List Bool String Ascii Lia.
From Stdlib Require Import Floats.SpecFloat DecimalN.
From stdpp Require Import gmap list.

Set Warnings "-register-all".
Local Open Scope N_scope.

(* ===================================================================== *)
(** * Python strings *)
(* ===================================================================== *)

Module PyStr.

(** A Python [str] is a sequence of Unicode code points. *)
Abbreviation pystr := (list N) (only parsing).

(** Literals are written in UTF-8 in this file and decoded here. *)
Fixpoint utf8_decode (bs : list N) (acc : N) (need : nat) : list N :=
  match bs with
  | [] => []
  | b :: rest =>
    match need with
    | O =>
      if b <? 128 then b :: utf8_decode rest 0 0%nat
      else if b <? 224 then utf8_decode rest (b mod 32) 1%nat
      else if b <? 240 then utf8_decode rest (b mod 16) 2%nat
      else utf8_decode rest (b mod 8) 3%nat
    | S O => (acc * 64 + b mod 64) :: utf8_decode rest 0 0%nat
    | S k => utf8_decode rest (acc * 64 + b mod 64) k
    end
  end.

Definition u (s : string) : list N :=
  utf8_decode (List.map N_of_ascii (list_ascii_of_string s)) 0 0%nat.

Fixpoint str_eqb (a b : list N) : bool :=
  match a, b with
  | [], [] => true
  | x :: a', y :: b' => (x =? y) && str_eqb a' b'
  | _, _ => false
  end.

(** [c in "..."] for a one-character [c]. *)
Definition char_in (c : N) (s : list N) : bool := existsb (N.eqb c) s.

(** Membership in a table of inclusive code-point ranges. *)
Definition in_ranges (c : N) (table : list (N * N)) : bool :=
  existsb (fun r => (fst r <=? c) && (c <=? snd r)) table.

(** [str(n)] for a non-negative [int]. *)
Fixpoint digits_of_uint (d : Decimal.uint) : list N :=
  match d with
  | Decimal.Nil => []
  | Decimal.D0 d => 48 :: digits_of_uint d
  | Decimal.D1 d => 49 :: digits_of_uint d
  | Decimal.D2 d => 50 :: digits_of_uint d
  | Decimal.D3 d => 51 :: digits_of_uint d
  | Decimal.D4 d => 52 :: digits_of_uint d
  | Decimal.D5 d => 53 :: digits_of_uint d
  | Decimal.D6 d => 54 :: digits_of_uint d
  | Decimal.D7 d => 55 :: digits_of_uint d
  | Decimal.D8 d => 56 :: digits_of_uint d
  | Decimal.D9 d => 57 :: digits_of_uint d
  end.

Definition str_of_N (n : N) : list N := digits_of_uint (N.to_uint n).

(** [str(z)] for an [int]. *)
Definition str_of_Z (z : Z) : list N :=
  match z with
  | Zneg p => 45 :: str_of_N (Npos p)
  | _ => str_of_N (Z.to_N z)
  end.

(** [sep.join(parts)]. *)
Fixpoint join (sep : list N) (parts : list (list N)) : list N :=
  match parts with
  | [] => []
  | [p] => p
  | p :: rest => p ++ sep ++ join sep rest
  end.

End PyStr.
Import PyStr.

(* ===================================================================== *)
(** * Unicode character classes of the host (CPython 3.11, Unicode 14) *)
(* ===================================================================== *)

Module Unicode.

(** Code points above ASCII of general category Nd; every range is a
    whole number of runs 0..9, so the digit value is the offset in the
    range modulo ten. *)
Definition decimal_ranges : list (N * N) :=
[ (1632, 1641); (1776, 1785); (1984, 1993); (2406, 2415);
  (2534, 2543); (2662, 2671); (2790, 2799); (2918, 2927);
  (3046, 3055); (3174, 3183); (3302, 3311); (3430, 3439);
  (3558, 3567); (3664, 3673); (3792, 3801); (3872, 3881);
  (4160, 4169); (4240, 4249); (6112, 6121); (6160, 6169);
  (6470, 6479); (6608, 6617); (6784, 6793); (6800, 6809);
  (6992, 7001); (7088, 7097); (7232, 7241); (7248, 7257);
  (42528, 42537); (43216, 43225); (43264, 43273); (43472, 43481);
  (43504, 43513); (43600, 43609); (44016, 44025); (65296, 65305);
  (66720, 66729); (68912, 68921); (69734, 69743); (69872, 69881);
  (69942, 69951); (70096, 70105); (70384, 70393); (70736, 70745);
  (70864, 70873); (71248, 71257); (71360, 71369); (71472, 71481);
  (71904, 71913); (72016, 72025); (72784, 72793); (73040, 73049);
  (73120, 73129); (92768, 92777); (92864, 92873); (93008, 93017);
  (120782, 120831); (123200, 123209); (123632, 123641); (125264, 125273);
  (130032, 130041) ].

(** Code points with Numeric_Type=Digit that are not decimal:
    superscripts, circled digits and the like. *)
Definition other_digit_ranges : list (N * N) :=
[ (178, 179); (185, 185); (4969, 4977); (6618, 6618);
  (8304, 8304); (8308, 8313); (8320, 8329); (9312, 9320);
  (9332, 9340); (9352, 9360); (9450, 9450); (9461, 9469);
  (9471, 9471); (10102, 10110); (10112, 10120); (10122, 10130);
  (68160, 68163); (69216, 69224); (69714, 69722); (127232, 127242) ].

(** White space above ASCII. *)
Definition space_ranges : list (N * N) :=
[ (133, 133); (160, 160); (5760, 5760); (8192, 8202);
  (8232, 8233); (8239, 8239); (8287, 8287); (12288, 12288) ].

Definition is_ascii_digit (c : N) : bool := (48 <=? c) && (c <=? 57).

(** [Py_UNICODE_TODECIMAL]. *)
Definition decimal_value (c : N) : option N :=
  if is_ascii_digit c then Some (c - 48)
  else
    match List.find (fun r => (fst r <=? c) && (c <=? snd r)) decimal_ranges with
    | Some r => Some ((c - fst r) mod 10)
    | None => None
    end.

(** [str.isdigit] on one character. *)
Definition isdigit (c : N) : bool :=
  is_ascii_digit c || in_ranges c decimal_ranges || in_ranges c other_digit_ranges.

End Unicode.
Import Unicode.

(* ===================================================================== *)
(** * Python numbers: [int] and [float] *)
(* ===================================================================== *)

Module PyNum.

Abbreviation float := spec_float (only parsing).

Definition prec : Z := 53.
Definition emax : Z := 1024.

(** The exception classes the host's numeric operators and its [str]
    raise. *)
Inductive builtin_exception := ZeroDivisionError | OverflowError | ValueError.

Definition host_result (A : Type) : Type := (builtin_exception * list N) + A.

(** A value tagged [number] holds a Python [float] (every literal, every
    result that involved a float) or a Python [int] (the [0] and [1]
    written in [builtin_tiv], and arithmetic between such). *)
Inductive pynum := PyInt (z : Z) | PyFloat (f : float).

Definition fzero : float := S754_zero false.

(** [D * 10^p], rounded to the nearest double, ties to even. *)
Definition of_decimal (neg : bool) (D : N) (p : Z) : float :=
  match D with
  | N0 => S754_zero neg
  | Npos d =>
    if (0 <=? p)%Z
    then binary_normalize prec emax (cond_Zopp neg (Zpos d * 10 ^ p)) 0 false
    else SFdiv prec emax (S754_finite neg d 0)
                         (S754_finite false (Z.to_pos (10 ^ (- p))) 0)
  end.

(** [float(z)] for an [int]: [PyLong_AsDouble]. *)
Definition float_of_int (z : Z) : host_result float :=
  match binary_normalize prec emax z 0 false with
  | S754_infinity _ => inl (OverflowError, u "int too large to convert to float")
  | f => inr f
  end.

Definition to_double (a : pynum) : host_result float :=
  match a with
  | PyInt z => float_of_int z
  | PyFloat f => inr f
  end.

(** ** [float(s)] for a [str] *)

Definition is_py_space (c : N) : bool := ((9 <=? c) && (c <=? 13)) || (c =? 32).

(** [_PyUnicode_TransformDecimalAndSpaceToASCII], one character.  ASCII
    is kept; other white space becomes a space, other decimal digits
    their ASCII digit, anything else ['?'] (which no float contains). *)
Definition to_ascii (c : N) : N :=
  if c <? 127 then c
  else if in_ranges c space_ranges then 32
  else match decimal_value c with
       | Some d => 48 + d
       | None => 63
       end.

Definition transform (s : list N) : list N :=
  if forallb (fun c => c <? 128) s then s else List.map to_ascii s.

Fixpoint lstrip (s : list N) : list N :=
  match s with
  | c :: rest => if is_py_space c then lstrip rest else s
  | [] => []
  end.

Definition strip (s : list N) : list N := rev (lstrip (rev (lstrip s))).

(** [_Py_string_to_number_with_underscores]: an underscore is allowed
    only between two digits; the underscores are then removed. *)
Fixpoint remove_underscores (s : list N) (prev : N) : option (list N) :=
  match s with
  | [] => if prev =? 95 then None else Some []
  | c :: rest =>
    if c =? 95 then
      if is_ascii_digit prev then remove_underscores rest c else None
    else if (prev =? 95) && negb (is_ascii_digit c) then None
    else match remove_underscores rest c with
         | Some r => Some (c :: r)
         | None => None
         end
  end.

Fixpoint take_digits (s : list N) (acc count : N) : N * N * list N :=
  match s with
  | c :: rest =>
    if is_ascii_digit c then take_digits rest (acc * 10 + (c - 48)) (count + 1)
    else (acc, count, s)
  | [] => (acc, count, [])
  end.

Definition take_sign (s : list N) : bool * list N :=
  match s with
  | 45 :: rest => (true, rest)
  | 43 :: rest => (false, rest)
  | _ => (false, s)
  end.

Definition lower (c : N) : N := if (65 <=? c) && (c <=? 90) then c + 32 else c.

(** [_Py_parse_inf_or_nan] on a whole string. *)
Definition parse_inf_or_nan (s : list N) : option float :=
  let '(neg, body) := take_sign s in
  let body := List.map lower body in
  if str_eqb body (u "inf") || str_eqb body (u "infinity") then Some (S754_infinity neg)
  else if str_eqb body (u "nan") then Some S754_nan
  else None.

(** [_Py_dg_strtod] on a whole string: sign, digits with an optional
    point, an optional exponent; nothing may follow. *)
Definition parse_decimal (s : list N) : option float :=
  let '(neg, s1) := take_sign s in
  let '(ip, n1, s2) := take_digits s1 0 0 in
  let '(mant, n2, s3) :=
    match s2 with
    | 46 :: s2' => take_digits s2' ip 0
    | _ => (ip, 0, s2)
    end in
  if n1 + n2 =? 0 then None
  else
    let '(ex, s4) :=
      match s3 with
      | c :: s3' =>
        if (c =? 101) || (c =? 69) then
          let '(eneg, s3'') := take_sign s3' in
          let '(ev, n3, rest) := take_digits s3'' 0 0 in
          if n3 =? 0 then (0%Z, s3)
          else (cond_Zopp eneg (Z.of_N ev), rest)
        else (0%Z, s3)
      | [] => (0%Z, [])
      end in
    match s4 with
    | [] => Some (of_decimal neg mant (ex - Z.of_N n2))
    | _ => None
    end.

(** [float(s)]; [None] stands for [ValueError]. *)
Definition float_of_str (s : list N) : option float :=
  let s := strip (transform s) in
  match (if char_in 95 s then remove_underscores s 0 else Some s) with
  | None => None
  | Some s =>
    match parse_decimal s with
    | Some f => Some f
    | None => parse_inf_or_nan s
    end
  end.

(** ** [repr(x)] for a [float]

    The shortest decimal string that [float] reads back as [x] and, among
    the shortest, the one nearest to [x] (David Gay's mode 0, which
    [float_repr] uses), laid out by the rules of format code ['r']. *)

(** The value [m * 2^e] as a fraction. *)
Definition numer (m : positive) (e : Z) : Z := if (0 <=? e)%Z then Zpos m * 2 ^ e else Zpos m.
Definition denom (e : Z) : Z := if (0 <=? e)%Z then 1 else 2 ^ (- e).

(** [m * 2^e < 10^k]. *)
Definition lt_pow10 (m : positive) (e k : Z) : bool :=
  if (0 <=? k)%Z then (numer m e <? 10 ^ k * denom e)%Z
  else (numer m e * 10 ^ (- k) <? denom e)%Z.

Fixpoint find_decpt (m : positive) (e k : Z) (fuel : nat) : Z :=
  match fuel with
  | O => k
  | S fuel' => if lt_pow10 m e k then k else find_decpt m e (k + 1) fuel'
  end.

(** The least [k] with [m * 2^e < 10^k]. *)
Definition decpt_of (m : positive) (e : Z) : Z :=
  let b := (Zpos (digits2_pos m) + e)%Z in
  find_decpt m e ((b - 1) * 30103 / 100000 - 1) 6.

(** The [n]-digit candidates around [m * 2^e], scaled by [10^(k-n)]. *)
Definition candidate (m : positive) (e k : Z) (n : Z) : option Z :=
  let s := (n - k)%Z in
  let num := if (0 <=? s)%Z then (numer m e * 10 ^ s)%Z else numer m e in
  let den := if (0 <=? s)%Z then denom e else (denom e * 10 ^ (- s))%Z in
  let lo := (num / den)%Z in
  let r := (num mod den)%Z in
  let back c := SFeqb (of_decimal false (Z.to_N c) (k - n)) (S754_finite false m e) in
  if (r =? 0)%Z then Some lo
  else
    let hi := (lo + 1)%Z in
    match back lo, back hi with
    | true, true =>
      match (2 * r ?= den)%Z with
      | Lt => Some lo
      | Gt => Some hi
      | Eq => Some (if Z.even lo then lo else hi)
      end
    | true, false => Some lo
    | false, true => Some hi
    | false, false => None
    end.

Fixpoint shortest (m : positive) (e k : Z) (n : Z) (fuel : nat) : Z * Z :=
  match fuel with
  | O => ((numer m e * 10 ^ (17 - k) / denom e)%Z, 17%Z)
  | S fuel' =>
    match candidate m e k n with
    | Some c => (c, n)
    | None => shortest m e k (n + 1) fuel'
    end
  end.

Fixpoint strip_zeros (rev_digits : list N) : list N :=
  match rev_digits with
  | 48 :: rest => strip_zeros rest
  | _ => rev_digits
  end.

(** The digits and the position of the decimal point: the value is
    [0.d1d2...dn * 10^decpt]. *)
Definition digits_and_decpt (m : positive) (e : Z) : list N * Z :=
  let k := decpt_of m e in
  let '(c, n) := shortest m e k 1 17 in
  let ds := str_of_N (Z.to_N c) in
  (rev (strip_zeros (rev ds)), (k + (Z.of_nat (length ds) - n))%Z).

Definition zeros (n : Z) : list N := repeat 48 (Z.to_nat n).

Definition two_digits (n : Z) : list N :=
  if (n <? 10)%Z then 48 :: str_of_Z n else str_of_Z n.

Definition format_r (ds : list N) (decpt : Z) : list N :=
  if ((decpt <=? -4) || (16 <? decpt))%Z then
    let ex := (decpt - 1)%Z in
    match ds with
    | [] => []
    | d :: rest =>
      (d :: match rest with [] => [] | _ => 46 :: rest end)
      ++ 101 :: (if (ex <? 0)%Z then 45 else 43) :: two_digits (Z.abs ex)
    end
  else if (decpt <=? 0)%Z then u "0." ++ zeros (- decpt) ++ ds
  else if (Z.of_nat (length ds) <=? decpt)%Z
       then ds ++ zeros (decpt - Z.of_nat (length ds)) ++ u ".0"
       else take (Z.to_nat decpt) ds ++ 46 :: drop (Z.to_nat decpt) ds.

Definition float_repr (x : float) : list N :=
  match x with
  | S754_nan => u "nan"
  | S754_infinity s => if s then u "-inf" else u "inf"
  | S754_zero s => if s then u "-0.0" else u "0.0"
  | S754_finite s m e =>
    let '(ds, decpt) := digits_and_decpt m e in
    (if s then [45] else []) ++ format_r ds decpt
  end.

(** ** Arithmetic and comparison *)

Definition raise_host {A} (cls : builtin_exception) (msg : string) : host_result A :=
  inl (cls, u msg).

Definition host_bind {A B} (r : host_result A) (k : A -> host_result B) : host_result B :=
  match r with
  | inl e => inl e
  | inr a => k a
  end.

(** Both operands as C doubles, the left one first ([CONVERT_TO_DOUBLE]). *)
Definition with_doubles {B} (a b : pynum) (k : float -> float -> host_result B) : host_result B :=
  host_bind (to_double a) (fun v => host_bind (to_double b) (fun w => k v w)).

(** An [int] as an exact, not normalised, binary fraction. *)
Definition exact_of_int (z : Z) : float :=
  match z with
  | Z0 => S754_zero false
  | Zpos p => S754_finite false p 0
  | Zneg p => S754_finite true p 0
  end.

Definition py_add (a b : pynum) : host_result pynum :=
  match a, b with
  | PyInt x, PyInt y => inr (PyInt (x + y))
  | _, _ => with_doubles a b (fun v w => inr (PyFloat (SFadd prec emax v w)))
  end.

Definition py_sub (a b : pynum) : host_result pynum :=
  match a, b with
  | PyInt x, PyInt y => inr (PyInt (x - y))
  | _, _ => with_doubles a b (fun v w => inr (PyFloat (SFsub prec emax v w)))
  end.

Definition py_mul (a b : pynum) : host_result pynum :=
  match a, b with
  | PyInt x, PyInt y => inr (PyInt (x * y))
  | _, _ => with_doubles a b (fun v w => inr (PyFloat (SFmul prec emax v w)))
  end.

(** [a / b]: true division. *)
Definition py_truediv (a b : pynum) : host_result pynum :=
  match a, b with
  | PyInt x, PyInt y =>
    if (y =? 0)%Z then raise_host ZeroDivisionError "division by zero"
    else match SFdiv prec emax (exact_of_int x) (exact_of_int y) with
         | S754_infinity _ =>
           raise_host OverflowError "integer division result too large for a float"
         | q => inr (PyFloat q)
         end
  | _, _ =>
    with_doubles a b (fun v w =>
      if SFeqb w fzero then raise_host ZeroDivisionError "float division by zero"
      else inr (PyFloat (SFdiv prec emax v w)))
  end.

(** C's [fmod]: exact, with the sign of the dividend. *)
Definition fmod (x y : float) : float :=
  match x, y with
  | S754_nan, _ | _, S754_nan => S754_nan
  | S754_infinity _, _ => S754_nan
  | _, S754_zero _ => S754_nan
  | _, S754_infinity _ => x
  | S754_zero _, _ => x
  | S754_finite sx mx ex, S754_finite _ my ey =>
    let e := Z.min ex ey in
    binary_normalize prec emax
      (cond_Zopp sx ((Zpos mx * 2 ^ (ex - e)) mod (Zpos my * 2 ^ (ey - e)))) e sx
  end.

Definition sign_bit (x : float) : bool :=
  match x with
  | S754_zero s | S754_infinity s | S754_finite s _ _ => s
  | S754_nan => false
  end.

(** [float_rem] of floatobject.c: the zero divisor is checked after both
    operands have been converted. *)
Definition float_rem (vx wx : float) : host_result pynum :=
  if SFeqb wx fzero then raise_host ZeroDivisionError "float modulo"
  else
    let md := fmod vx wx in
    if negb (SFeqb md fzero) then
      if xorb (SFltb wx fzero) (SFltb md fzero)
      then inr (PyFloat (SFadd prec emax md wx))
      else inr (PyFloat md)
    else inr (PyFloat (S754_zero (sign_bit wx))).

(** [a % b]. *)
Definition py_mod (a b : pynum) : host_result pynum :=
  match a, b with
  | PyInt x, PyInt y =>
    if (y =? 0)%Z then raise_host ZeroDivisionError "integer modulo by zero"
    else inr (PyInt (x mod y))
  | _, _ => with_doubles a b float_rem
  end.

(** [-a]. *)
Definition py_neg (a : pynum) : pynum :=
  match a with
  | PyInt x => PyInt (- x)
  | PyFloat f => PyFloat (SFopp f)
  end.

(** A float against an int, compared exactly as Python does. *)
Definition compare_float_int (f : float) (z : Z) : option comparison :=
  match f with
  | S754_nan => None
  | S754_infinity s => Some (if s then Lt else Gt)
  | S754_zero _ => Some (0 ?= z)%Z
  | S754_finite s m e =>
    let v := cond_Zopp s (Zpos m) in
    Some (if (0 <=? e)%Z then (v * 2 ^ e ?= z)%Z else (v ?= z * 2 ^ (- e))%Z)
  end.

(** [None] when a NaN is involved: every ordering and [==] is then false. *)
Definition py_compare (a b : pynum) : option comparison :=
  match a, b with
  | PyInt x, PyInt y => Some (x ?= y)%Z
  | PyFloat f, PyFloat g => SFcompare f g
  | PyFloat f, PyInt y => compare_float_int f y
  | PyInt x, PyFloat g => option_map CompOpp (compare_float_int g x)
  end.

Definition num_eq (a b : pynum) : bool :=
  match py_compare a b with Some Eq => true | _ => false end.
Definition num_lt (a b : pynum) : bool :=
  match py_compare a b with Some Lt => true | _ => false end.
Definition num_le (a b : pynum) : bool :=
  match py_compare a b with Some (Lt | Eq) => true | _ => false end.
Definition num_gt (a b : pynum) : bool :=
  match py_compare a b with Some Gt => true | _ => false end.
Definition num_ge (a b : pynum) : bool :=
  match py_compare a b with Some (Gt | Eq) => true | _ => false end.

(** [sys.int_info.default_max_str_digits]. *)
Definition max_str_digits : N := 4300.

(** [str(z)] for an [int] as CPython 3.11 has it: the decimal text, or
    [ValueError] when it would have more than [max_str_digits] digits
    (the sign is not counted). *)
Definition int_str (z : Z) : host_result (list N) :=
  if max_str_digits <? N.of_nat (length (str_of_N (Z.abs_N z)))
  then raise_host ValueError
         "Exceeds the limit (4300 digits) for integer string conversion; use sys.set_int_max_str_digits() to increase the limit"
  else inr (str_of_Z z).

(** [str(n)] for a number. *)
Definition num_str (a : pynum) : host_result (list N) :=
  match a with
  | PyInt z => int_str z
  | PyFloat f => inr (float_repr f)
  end.

End PyNum.
Import PyNum.

(* ===================================================================== *)
(** * parser.py: the AST node classes *)
(* ===================================================================== *)

Inductive ASTNode :=
| NumberLiteral (value : float)
| StringLiteral (value : pystr)
| BooleanLiteral (value : bool)
| NullLiteral
| Identifier (name : pystr)
| BinaryOp (left : ASTNode) (operator : pystr) (right : ASTNode)
| UnaryOp (operator : pystr) (operand : ASTNode)
| Assignment (target : pystr) (value : ASTNode)
| FunctionCall (name : pystr) (arguments : list ASTNode)
| ExpressionStatement (expression : ASTNode)
| IfStatement (condition : ASTNode) (then_branch : list ASTNode)
              (else_branch : option (list ASTNode))
| WhileStatement (condition : ASTNode) (body : list ASTNode)
| ReturnStatement (value : option ASTNode)
| FunctionDeclaration (name : pystr) (parameters : list pystr) (body : list ASTNode)
| Program (statements : list ASTNode).

(** [type(node)] as an f-string prints it. *)
Definition type_repr (node : ASTNode) : pystr :=
  u "<class 'parser." ++
  match node with
  | NumberLiteral _ => u "NumberLiteral"
  | StringLiteral _ => u "StringLiteral"
  | BooleanLiteral _ => u "BooleanLiteral"
  | NullLiteral => u "NullLiteral"
  | Identifier _ => u "Identifier"
  | BinaryOp _ _ _ => u "BinaryOp"
  | UnaryOp _ _ => u "UnaryOp"
  | Assignment _ _ => u "Assignment"
  | FunctionCall _ _ => u "FunctionCall"
  | ExpressionStatement _ => u "ExpressionStatement"
  | IfStatement _ _ _ => u "IfStatement"
  | WhileStatement _ _ => u "WhileStatement"
  | ReturnStatement _ => u "ReturnStatement"
  | FunctionDeclaration _ _ _ => u "FunctionDeclaration"
  | Program _ => u "Program"
  end ++ u "'>".

(* ===================================================================== *)
(** * interpreter.py: values *)
(* ===================================================================== *)

(** The three closures [setup_builtins] wraps in [BuiltinFunction]. *)
Inductive builtin := fn_gre | fn_tiv | fn_bar.

(** The payload of a value tagged [function].  Both classes are plain
    Python objects: they are equal only to themselves and print with their
    address; [addr] stands for the object's identity. *)
Inductive Callable :=
| SoorjFunction (addr : N) (name : pystr) (parameters : list pystr) (body : list ASTNode)
| BuiltinFunction (addr : N) (name : pystr) (func : builtin).

Definition addr_of (f : Callable) : N :=
  match f with
  | SoorjFunction a _ _ _ => a
  | BuiltinFunction a _ _ => a
  end.

(** [SoorjValue(value, type_name)].  Every construction site pairs the tag
    with a payload of one fixed Python type, so a value is one of: *)
Inductive SoorjValue :=
| VNull                       (* SoorjValue(None, "null") *)
| VBoolean (b : bool)         (* SoorjValue(<bool>, "boolean") *)
| VNumber (n : pynum)         (* SoorjValue(<float or int>, "number") *)
| VString (s : pystr)         (* SoorjValue(<str>, "string") *)
| VFunction (f : Callable).   (* SoorjValue(<function object>, "function") *)

Definition type_name (v : SoorjValue) : pystr :=
  match v with
  | VNull => u "null"
  | VBoolean _ => u "boolean"
  | VNumber _ => u "number"
  | VString _ => u "string"
  | VFunction _ => u "function"
  end.

(** The Python object in the [value] field. *)
Inductive pyobject :=
| PyNone
| PyBool (b : bool)
| PyNumber (n : pynum)
| PyStr (s : pystr)
| PyObject (f : Callable).

Definition value_of (v : SoorjValue) : pyobject :=
  match v with
  | VNull => PyNone
  | VBoolean b => PyBool b
  | VNumber n => PyNumber n
  | VString s => PyStr s
  | VFunction f => PyObject f
  end.

Fixpoint hex_digits (d : Hexadecimal.uint) : pystr :=
  match d with
  | Hexadecimal.Nil => []
  | Hexadecimal.D0 d => 48 :: hex_digits d
  | Hexadecimal.D1 d => 49 :: hex_digits d
  | Hexadecimal.D2 d => 50 :: hex_digits d
  | Hexadecimal.D3 d => 51 :: hex_digits d
  | Hexadecimal.D4 d => 52 :: hex_digits d
  | Hexadecimal.D5 d => 53 :: hex_digits d
  | Hexadecimal.D6 d => 54 :: hex_digits d
  | Hexadecimal.D7 d => 55 :: hex_digits d
  | Hexadecimal.D8 d => 56 :: hex_digits d
  | Hexadecimal.D9 d => 57 :: hex_digits d
  | Hexadecimal.Da d => 97 :: hex_digits d
  | Hexadecimal.Db d => 98 :: hex_digits d
  | Hexadecimal.Dc d => 99 :: hex_digits d
  | Hexadecimal.Dd d => 100 :: hex_digits d
  | Hexadecimal.De d => 101 :: hex_digits d
  | Hexadecimal.Df d => 102 :: hex_digits d
  end.

(** [object.__repr__]. *)
Definition object_repr (f : Callable) : pystr :=
  u "<interpreter." ++
  match f with
  | SoorjFunction _ _ _ _ => u "SoorjFunction"
  | BuiltinFunction _ _ _ => u "BuiltinFunction"
  end ++ u " object at 0x" ++ hex_digits (N.to_hex_uint (addr_of f)) ++ u ">".

(** Python's [str(x)]; it raises for an [int] that is too long. *)
Definition py_str (x : pyobject) : host_result pystr :=
  match x with
  | PyNone => inr (u "None")
  | PyBool b => inr (if b then u "True" else u "False")
  | PyNumber n => num_str n
  | PyStr s => inr s
  | PyObject f => inr (object_repr f)
  end.

(** Python's [x == y]: [bool] is a subclass of [int], so [True] is [1];
    objects without [__eq__] compare by identity. *)
Definition py_eq (x y : pyobject) : bool :=
  match x, y with
  | PyNone, PyNone => true
  | PyBool a, PyBool b => Bool.eqb a b
  | PyBool a, PyNumber n => num_eq (PyInt (Z.b2z a)) n
  | PyNumber n, PyBool b => num_eq n (PyInt (Z.b2z b))
  | PyNumber m, PyNumber n => num_eq m n
  | PyStr s, PyStr t => str_eqb s t
  | PyObject f, PyObject g => addr_of f =? addr_of g
  | _, _ => false
  end.

(** [SoorjValue.__str__]: the display form.  The branches on [type_name]
    are the constructors. *)
Definition SoorjValue_str (self : SoorjValue) : host_result pystr :=
  match self with
  | VNull => inr (u "հեչ")
  | VBoolean b => inr (if b then u "այո" else u "ոչ")
  | VString s => inr s
  | _ => py_str (value_of self)
  end.

(** [SoorjValue.is_truthy]. *)
Definition is_truthy (self : SoorjValue) : bool :=
  match self with
  | VNull => false
  | VBoolean b => b
  | VNumber n => negb (num_eq n (PyInt 0))
  | VString s => (0 <? length s)%nat
  | VFunction _ => true
  end.

(* ===================================================================== *)
(** * interpreter.py: exceptions, environments, interpreter state *)
(* ===================================================================== *)

(** What can propagate out of the evaluator: the control exception
    [ReturnValue], the interpreter's own [RuntimeError], and the built-in
    exceptions of the host's arithmetic and of its [str]. *)
Inductive Exception :=
| ReturnValue (value : SoorjValue)
| RuntimeError (msg : pystr)
| Builtin (cls : builtin_exception) (msg : pystr).

(** [isinstance(e, RuntimeError)]: neither [ReturnValue] (a direct subclass
    of [Exception]) nor [ZeroDivisionError] or [OverflowError] (subclasses
    of [ArithmeticError]) nor [ValueError] is one. *)
Definition is_RuntimeError (e : Exception) : bool :=
  match e with
  | RuntimeError _ => true
  | _ => false
  end.

(** [str(e)]; [ReturnValue.__init__] does not call its base class, so the
    message is the [str] of the constructor argument, the carried value,
    and raises when that does. *)
Definition Exception_str (e : Exception) : host_result pystr :=
  match e with
  | ReturnValue v => SoorjValue_str v
  | RuntimeError msg => inr msg
  | Builtin _ msg => inr msg
  end.

(** [class Environment]: a dictionary and a parent link. *)
Inductive Environment :=
| Env (parent : option Environment) (variables : gmap (list N) SoorjValue).

Definition parent (self : Environment) : option Environment :=
  match self with Env p _ => p end.

Definition variables (self : Environment) : gmap (list N) SoorjValue :=
  match self with Env _ vs => vs end.

Definition define (name : pystr) (value : SoorjValue) (self : Environment) : Environment :=
  match self with
  | Env p vs => Env p (<[name := value]> vs)
  end.

Definition undefined_variable (name : pystr) : Exception :=
  RuntimeError (u "Undefined variable '" ++ name ++ u "'").

Fixpoint get (self : Environment) (name : pystr) : Exception + SoorjValue :=
  match self with
  | Env p vs =>
    match vs !! name with
    | Some v => inr v
    | None =>
      match p with
      | Some p' => get p' name
      | None => inl (undefined_variable name)
      end
    end
  end.

(** [assign] updates in place; the result is the environment object after
    the update, its ancestors included. *)
Fixpoint assign (self : Environment) (name : pystr) (value : SoorjValue)
  : Exception + Environment :=
  match self with
  | Env p vs =>
    match vs !! name with
    | Some _ => inr (Env p (<[name := value]> vs))
    | None =>
      match p with
      | Some p' =>
        match assign p' name value with
        | inr p'' => inr (Env (Some p'') vs)
        | inl e => inl e
        end
      | None => inl (undefined_variable name)
      end
    end
  end.

(** The interpreter object with the part of the host it acts on: the
    lines printed so far and the next free object address. *)
Record Interpreter := mkInterpreter {
  environment : Environment;
  stdout : list (list N);
  next_addr : N
}.

Definition set_environment (env : Environment) (st : Interpreter) : Interpreter :=
  mkInterpreter env (stdout st) (next_addr st).

(** [print(line)]. *)
Definition print (line : pystr) (st : Interpreter) : Interpreter :=
  mkInterpreter (environment st) (stdout st ++ [line]) (next_addr st).

(** How a call of an interpreter method ends. *)
Inductive outcome (A : Type) :=
| Returns (a : A)
| Raises (e : Exception)
| OutOfFuel.
Arguments Returns {A} a.
Arguments Raises {A} e.
Arguments OutOfFuel {A}.

Definition M (A : Type) : Type := Interpreter -> outcome A * Interpreter.

Definition ret {A} (a : A) : M A := fun st => (Returns a, st).
Definition raise {A} (e : Exception) : M A := fun st => (Raises e, st).
Definition bind {A B} (c : M A) (k : A -> M B) : M B :=
  fun st =>
    match c st with
    | (Returns a, st') => k a st'
    | (Raises e, st') => (Raises e, st')
    | (OutOfFuel, st') => (OutOfFuel, st')
    end.

Notation "'let*' x ':=' c 'in' k" := (bind c (fun x => k))
  (at level 10, x pattern, c at level 100, k at level 200).

Definition lift_host {A} (r : host_result A) : M A :=
  match r with
  | inl (cls, msg) => raise (Builtin cls msg)
  | inr a => ret a
  end.

Definition lift_env {A} (r : Exception + A) : M A :=
  match r with
  | inl e => raise e
  | inr a => ret a
  end.

(* ===================================================================== *)
(** * interpreter.py: built-in functions *)
(* ===================================================================== *)

(** [[str(arg) for arg in args]], as [" ".join] draws it from the
    generator: in order, and the first [str] that raises ends it. *)
Fixpoint str_each (args : list SoorjValue) : host_result (list pystr) :=
  match args with
  | [] => inr []
  | arg :: rest =>
    host_bind (SoorjValue_str arg) (fun s =>
    host_bind (str_each rest) (fun ss => inr (s :: ss)))
  end.

Definition builtin_gre (args : list SoorjValue) : M SoorjValue :=
  fun st =>
    if (length args =? 0)%nat then (Returns VNull, print [] st)
    else
      match str_each args with
      | inl (cls, msg) => (Raises (Builtin cls msg), st)
      | inr parts =>
        let output := join (u " ") parts in
        (Returns VNull, print output st)
      end.

Definition builtin_tiv (args : list SoorjValue) : M SoorjValue :=
  match args with
  | [arg] =>
    match arg with
    | VNumber _ => ret arg
    | VString s =>
      match float_of_str s with
      | Some f => ret (VNumber (PyFloat f))
      | None => ret (VNumber (PyInt 0))
      end
    | VBoolean b => ret (VNumber (PyInt (if b then 1 else 0)))
    | _ => ret (VNumber (PyInt 0))
    end
  | _ => raise (RuntimeError (u "թիվ expects exactly 1 argument"))
  end.

Definition builtin_bar (args : list SoorjValue) : M SoorjValue :=
  match args with
  | [arg] =>
    match arg with
    | VString _ => ret arg
    | VNull => ret (VString [])
    | _ => let* s := lift_host (py_str (value_of arg)) in ret (VString s)
    end
  | _ => raise (RuntimeError (u "բառ expects exactly 1 argument"))
  end.

(** [BuiltinFunction.call]. *)
Definition BuiltinFunction_call (func : builtin) (arguments : list SoorjValue) : M SoorjValue :=
  match func with
  | fn_gre => builtin_gre arguments
  | fn_tiv => builtin_tiv arguments
  | fn_bar => builtin_bar arguments
  end.

(** [setup_builtins]: three new function objects, defined in the root
    environment. *)
Definition setup_builtins (st : Interpreter) : Interpreter :=
  let a := next_addr st in
  let env := environment st in
  let env := define (u "գրէ") (VFunction (BuiltinFunction a (u "գրէ") fn_gre)) env in
  let env := define (u "թիվ") (VFunction (BuiltinFunction (a + 1) (u "թիվ") fn_tiv)) env in
  let env := define (u "բառ") (VFunction (BuiltinFunction (a + 2) (u "բառ") fn_bar)) env in
  mkInterpreter env (stdout st) (a + 3).

(** [Interpreter.__init__]. *)
Definition Interpreter_init : Interpreter :=
  setup_builtins (mkInterpreter (Env None ∅) [] 0).

(* ===================================================================== *)
(** * interpreter.py: the evaluator *)
(* ===================================================================== *)

(** The methods of [Interpreter] and [SoorjFunction.call] call each other
    through [self.evaluate] and [self.execute]; here these two are
    parameters, and [evaluate] and [execute] below close the recursion
    with a bound on its depth. *)
Section Methods.

Variable evaluate : ASTNode -> M SoorjValue.
Variable execute : ASTNode -> M (option SoorjValue).

(** [for stmt in stmts: self.execute(stmt)]. *)
Fixpoint execute_each (stmts : list ASTNode) : M unit :=
  match stmts with
  | [] => ret tt
  | stmt :: rest => let* _ := execute stmt in execute_each rest
  end.

(** [[self.evaluate(arg) for arg in node.arguments]]. *)
Fixpoint evaluate_each (args : list ASTNode) : M (list SoorjValue) :=
  match args with
  | [] => ret []
  | arg :: rest =>
    let* v := evaluate arg in
    let* vs := evaluate_each rest in
    ret (v :: vs)
  end.

(** The environment a call of a user function runs its body in: a new
    [Environment(prev_env)] with the parameters defined in order. *)
Definition call_environment (prev_env : Environment)
           (parameters : list pystr) (arguments : list SoorjValue) : Environment :=
  fold_left (fun env pa => define (fst pa) (snd pa) env)
            (zip parameters arguments) (Env (Some prev_env) ∅).

(** [interpreter.environment = prev_env] in the [finally] clause.  The
    call's environment holds [prev_env] itself as its parent, so what the
    body assigned in enclosing environments is in that parent. *)
Definition restore_environment (prev_env : Environment) (st : Interpreter) : Interpreter :=
  match parent (environment st) with
  | Some p => set_environment p st
  | None => set_environment prev_env st
  end.

(** [SoorjFunction.call]. *)
Definition SoorjFunction_call (name : pystr) (parameters : list pystr)
           (body : list ASTNode) (arguments : list SoorjValue) : M SoorjValue :=
  fun st =>
    if negb (length arguments =? length parameters)%nat then
      (Raises (RuntimeError
                 (u "Function " ++ name ++ u " expects "
                    ++ str_of_N (N.of_nat (length parameters))
                    ++ u " arguments, got "
                    ++ str_of_N (N.of_nat (length arguments)))), st)
    else
      let prev_env := environment st in
      let st1 := set_environment (call_environment prev_env parameters arguments) st in
      match execute_each body st1 with
      | (Returns _, st2) => (Returns VNull, restore_environment prev_env st2)
      | (Raises (ReturnValue v), st2) => (Returns v, restore_environment prev_env st2)
      | (Raises e, st2) => (Raises e, restore_environment prev_env st2)
      | (OutOfFuel, st2) => (OutOfFuel, restore_environment prev_env st2)
      end.

Definition call (func : Callable) (arguments : list SoorjValue) : M SoorjValue :=
  match func with
  | SoorjFunction _ name parameters body => SoorjFunction_call name parameters body arguments
  | BuiltinFunction _ _ f => BuiltinFunction_call f arguments
  end.

(** The dispatch of [evaluate_binary_op] on the evaluated operands. *)
Definition binary_op (operator : pystr) (lhs rhs : SoorjValue) : M SoorjValue :=
  let invalid := raise (RuntimeError (u "Invalid operands for " ++ operator)) in
  let arith (op : pynum -> pynum -> host_result pynum) :=
    match lhs, rhs with
    | VNumber a, VNumber b => let* r := lift_host (op a b) in ret (VNumber r)
    | _, _ => invalid
    end in
  let compare (op : pynum -> pynum -> bool) :=
    match lhs, rhs with
    | VNumber a, VNumber b => ret (VBoolean (op a b))
    | _, _ => invalid
    end in
  if str_eqb operator (u "+") then
    match lhs, rhs with
    | VNumber a, VNumber b => let* r := lift_host (py_add a b) in ret (VNumber r)
    | VString _, _ | _, VString _ =>
      let* l := lift_host (py_str (value_of lhs)) in
      let* r := lift_host (py_str (value_of rhs)) in
      ret (VString (l ++ r))
    | _, _ => invalid
    end
  else if str_eqb operator (u "-") then arith py_sub
  else if str_eqb operator (u "*") then arith py_mul
  else if str_eqb operator (u "/") then
    match lhs, rhs with
    | VNumber a, VNumber b =>
      if num_eq b (PyInt 0) then raise (RuntimeError (u "Division by zero"))
      else let* r := lift_host (py_truediv a b) in ret (VNumber r)
    | _, _ => invalid
    end
  else if str_eqb operator (u "%") then arith py_mod
  else if str_eqb operator (u "==") then
    ret (VBoolean (py_eq (value_of lhs) (value_of rhs)))
  else if str_eqb operator (u "!=") then
    ret (VBoolean (negb (py_eq (value_of lhs) (value_of rhs))))
  else if str_eqb operator (u "<") then compare num_lt
  else if str_eqb operator (u ">") then compare num_gt
  else if str_eqb operator (u "<=") then compare num_le
  else if str_eqb operator (u ">=") then compare num_ge
  else if str_eqb operator (u "և") then
    ret (VBoolean (is_truthy lhs && is_truthy rhs))
  else if str_eqb operator (u "կամ") then
    ret (VBoolean (is_truthy lhs || is_truthy rhs))
  else raise (RuntimeError (u "Unknown binary operator: " ++ operator)).

(** [Interpreter.evaluate_binary_op]. *)
Definition evaluate_binary_op (lhs : ASTNode) (operator : pystr) (rhs : ASTNode)
  : M SoorjValue :=
  let* l := evaluate lhs in
  let* r := evaluate rhs in
  binary_op operator l r.

(** [Interpreter.evaluate_unary_op]. *)
Definition evaluate_unary_op (operator : pystr) (operand : ASTNode) : M SoorjValue :=
  let* v := evaluate operand in
  if str_eqb operator (u "-") then
    match v with
    | VNumber a => ret (VNumber (py_neg a))
    | _ => raise (RuntimeError (u "Invalid operand for unary -"))
    end
  else if str_eqb operator (u "չի") || str_eqb operator (u "not") then
    ret (VBoolean (negb (is_truthy v)))
  else raise (RuntimeError (u "Unknown unary operator: " ++ operator)).

(** [Interpreter.evaluate_function_call]. *)
Definition evaluate_function_call (name : pystr) (arguments : list ASTNode) : M SoorjValue :=
  let* function_value := (fun st => lift_env (get (environment st) name) st) in
  match function_value with
  | VFunction func =>
    let* args := evaluate_each arguments in
    call func args
  | _ => raise (RuntimeError (u "'" ++ name ++ u "' is not a function"))
  end.

(** The body of [Interpreter.evaluate]. *)
Definition evaluate_node (node : ASTNode) : M SoorjValue :=
  match node with
  | NumberLiteral value => ret (VNumber (PyFloat value))
  | StringLiteral value => ret (VString value)
  | BooleanLiteral value => ret (VBoolean value)
  | NullLiteral => ret VNull
  | Identifier name => fun st => lift_env (get (environment st) name) st
  | Assignment target value =>
    let* v := evaluate value in
    fun st =>
      match assign (environment st) target v with
      | inr env => (Returns v, set_environment env st)
      | inl e =>
        if is_RuntimeError e
        then (Returns v, set_environment (define target v (environment st)) st)
        else (Raises e, st)
      end
  | BinaryOp lhs operator rhs => evaluate_binary_op lhs operator rhs
  | UnaryOp operator operand => evaluate_unary_op operator operand
  | FunctionCall name arguments => evaluate_function_call name arguments
  | _ => raise (RuntimeError (u "Unknown node type: " ++ type_repr node))
  end.

(** The body of [Interpreter.execute].  The [while True] loop is unrolled
    through [self.execute]: after one pass of the body the statement is
    executed again. *)
Definition execute_node (node : ASTNode) : M (option SoorjValue) :=
  match node with
  | Program statements =>
    let* _ := execute_each statements in ret None
  | ExpressionStatement expression =>
    let* v := evaluate expression in ret (Some v)
  | IfStatement condition then_branch else_branch =>
    let* c := evaluate condition in
    if is_truthy c then let* _ := execute_each then_branch in ret None
    else match else_branch with
         | Some (stmt :: rest) => let* _ := execute_each (stmt :: rest) in ret None
         | _ => ret None
         end
  | WhileStatement condition body =>
    let* c := evaluate condition in
    if negb (is_truthy c) then ret None
    else let* _ := execute_each body in execute node
  | ReturnStatement value =>
    match value with
    | Some e => let* v := evaluate e in raise (ReturnValue v)
    | None => raise (ReturnValue VNull)
    end
  | FunctionDeclaration name parameters body =>
    fun st =>
      let func := SoorjFunction (next_addr st) name parameters body in
      (Returns None,
       mkInterpreter (define name (VFunction func) (environment st))
                     (stdout st) (next_addr st + 1))
  | _ => let* v := evaluate node in ret (Some v)
  end.

End Methods.

(** [Interpreter.evaluate] and [Interpreter.execute]; [fuel] bounds the
    depth of the calls between them ([OutOfFuel] stands for a run that
    needs more, be it long or endless; the host's own recursion limit is
    not part of the model). *)
Fixpoint evaluate (fuel : nat) (node : ASTNode) (st : Interpreter) {struct fuel}
  : outcome SoorjValue * Interpreter :=
  match fuel with
  | O => (OutOfFuel, st)
  | S n => evaluate_node (evaluate n) (execute n) node st
  end
with execute (fuel : nat) (node : ASTNode) (st : Interpreter) {struct fuel}
  : outcome (option SoorjValue) * Interpreter :=
  match fuel with
  | O => (OutOfFuel, st)
  | S n => execute_node (evaluate n) (execute n) node st
  end.

(** [Interpreter.interpret]: only [RuntimeError] is caught; the handler
    prints [str] of it. *)
Definition interpret (fuel : nat) (statements : list ASTNode) : M unit :=
  fun st =>
    match execute_each (execute fuel) statements st with
    | (Raises e, st') =>
      if is_RuntimeError e
      then match Exception_str e with
           | inr message => (Returns tt, print (u "Runtime error: " ++ message) st')
           | inl (cls, msg) => (Raises (Builtin cls msg), st')
           end
      else (Raises e, st')
    | r => r
    end.

(** The last stage of [run_source] in soorj.py, from the parsed program
    on: a fresh interpreter, [interpret], and the handler
    [except Exception as e: print(f"Error: {e}")].  The result is what
    was printed; when the f-string of the handler raises itself ([str] of
    the exception), nothing more is printed and that exception leaves
    [run_source]. *)
Definition run_program (fuel : nat) (statements : list ASTNode) : option (list (list N)) :=
  match interpret fuel statements Interpreter_init with
  | (Returns _, st) => Some (stdout st)
  | (Raises e, st) =>
    match Exception_str e with
    | inr message => Some (stdout (print (u "Error: " ++ message) st))
    | inl _ => Some (stdout st)
    end
  | (OutOfFuel, _) => None
  end.

(* ===================================================================== *)
(** * lexer.py *)
(* ===================================================================== *)

Module Lexer.

Inductive TokenType :=
| NUMBER | STRING | IDENTIFIER
| IF | ELSE | WHILE | FUNCTION | RETURN | TRUE | FALSE | NULL | AND | OR | NOT
| PLUS | MINUS | MULTIPLY | DIVIDE | MODULO | ASSIGN
| EQUALS | NOT_EQUALS | LESS_THAN | GREATER_THAN | LESS_EQUAL | GREATER_EQUAL
| LEFT_PAREN | RIGHT_PAREN | LEFT_BRACE | RIGHT_BRACE | COMMA
| NEWLINE | EOF.

Record Token := mkToken {
  type : TokenType;
  value : list N;
  line : N;
  column : N
}.

(** The scanning state: [rest] is [source[position:]]. *)
Record Cursor := mkCursor {
  rest : list N;
  cur_line : N;
  cur_column : N
}.

Definition keywords : list (list N * TokenType) :=
  [ (u "եթե", IF); (u "հպ", ELSE); (u "մինչև", WHILE); (u "գործ", FUNCTION);
    (u "տուր", RETURN); (u "այո", TRUE); (u "ոչ", FALSE); (u "հեչ", NULL);
    (u "և", AND); (u "կամ", OR); (u "չի", NOT) ].

Definition single_chars : list (N * TokenType) :=
  [ (43, PLUS); (45, MINUS); (42, MULTIPLY); (47, DIVIDE); (37, MODULO);
    (40, LEFT_PAREN); (41, RIGHT_PAREN); (123, LEFT_BRACE); (125, RIGHT_BRACE);
    (44, COMMA) ].

Definition two_chars : list (list N * TokenType) :=
  [ (u "==", EQUALS); (u "!=", NOT_EQUALS); (u "<=", LESS_EQUAL); (u ">=", GREATER_EQUAL) ].

(** [d.get(key)] on the tables above. *)
Fixpoint lookup_str {A} (key : list N) (d : list (list N * A)) : option A :=
  match d with
  | [] => None
  | (k, v) :: d' => if str_eqb key k then Some v else lookup_str key d'
  end.

Fixpoint lookup_char {A} (key : N) (d : list (N * A)) : option A :=
  match d with
  | [] => None
  | (k, v) :: d' => if key =? k then Some v else lookup_char key d'
  end.

Definition current_char (c : Cursor) : option N := head (rest c).

Definition peek_char (c : Cursor) : option N := head (tail (rest c)).

(** The line and column after consuming the character [ch]. *)
Definition step (ch : N) (ln col : N) : N * N :=
  if ch =? 10 then (ln + 1, 1) else (ln, col + 1).

Definition advance (c : Cursor) : Cursor :=
  match rest c with
  | [] => c
  | ch :: r =>
    let '(ln, col) := step ch (cur_line c) (cur_column c) in
    mkCursor r ln col
  end.

Fixpoint skip_whitespace_from (s : list N) (ln col : N) : Cursor :=
  match s with
  | ch :: r =>
    if char_in ch [32; 9; 13]
    then let '(ln', col') := step ch ln col in skip_whitespace_from r ln' col'
    else mkCursor s ln col
  | [] => mkCursor [] ln col
  end.

Definition skip_whitespace (c : Cursor) : Cursor :=
  skip_whitespace_from (rest c) (cur_line c) (cur_column c).

Definition is_armenian_char (ch : N) : bool :=
  ((1328 <=? ch) && (ch <=? 1423)) || ((64275 <=? ch) && (ch <=? 64279)).

Definition is_identifier_char (ch : N) : bool := is_armenian_char ch.

Definition is_valid_string_char (ch : N) : bool :=
  is_armenian_char ch
  || isdigit ch
  || char_in ch [32; 9; 10; 13; 46; 44; 33; 63; 58; 59; 45; 40; 41; 91; 93;
                 123; 125; 34; 39; 47; 92]
  || char_in ch (u "՛՜՝՞՟։՚՛՜՝՞՟").

(** The loop of [read_number]. *)
Fixpoint read_number_from (s : list N) (ln col : N) (number_str : list N)
  : list N * Cursor :=
  match s with
  | ch :: r =>
    if isdigit ch || (ch =? 46)
    then let '(ln', col') := step ch ln col in
         read_number_from r ln' col' (number_str ++ [ch])
    else (number_str, mkCursor s ln col)
  | [] => (number_str, mkCursor [] ln col)
  end.

Definition read_number (c : Cursor) : Token * Cursor :=
  let start_column := cur_column c in
  let '(number_str, c') := read_number_from (rest c) (cur_line c) (cur_column c) [] in
  (mkToken NUMBER number_str (cur_line c') start_column, c').

Definition invalid_string_char (ch ln col : N) : list N :=
  u "Invalid character '" ++ [ch] ++ u "' in string at line " ++ str_of_N ln
    ++ u ", column " ++ str_of_N col
    ++ u ". Only Armenian characters, numbers, and punctuation allowed.".

(** The loop of [read_string]; [inl] is the message of the [ValueError]. *)
Fixpoint read_string_from (quote_char : N) (s : list N) (ln col : N)
         (string_value : list N) : list N + (list N * Cursor) :=
  match s with
  | [] => inr (string_value, mkCursor [] ln col)
  | ch :: r =>
    if ch =? quote_char then inr (string_value, mkCursor s ln col)
    else if ch =? 92 then
      let '(ln1, col1) := step ch ln col in
      match r with
      | [] => inr (string_value, mkCursor [] ln1 col1)
      | next_char :: r' =>
        let '(ln2, col2) := step next_char ln1 col1 in
        let piece :=
          if next_char =? 110 then 10
          else if next_char =? 116 then 9
          else if next_char =? 114 then 13
          else next_char in
        read_string_from quote_char r' ln2 col2 (string_value ++ [piece])
      end
    else if negb (is_valid_string_char ch) then inl (invalid_string_char ch ln col)
    else let '(ln', col') := step ch ln col in
         read_string_from quote_char r ln' col' (string_value ++ [ch])
  end.

Definition read_string (c : Cursor) : list N + (Token * Cursor) :=
  let start_column := cur_column c in
  match rest c with
  | [] => inr (mkToken STRING [] (cur_line c) start_column, c)
  | quote_char :: _ =>
    let c1 := advance c in
    match read_string_from quote_char (rest c1) (cur_line c1) (cur_column c1) [] with
    | inl msg => inl msg
    | inr (string_value, c2) =>
      let c3 := match current_char c2 with
                | Some ch => if ch =? quote_char then advance c2 else c2
                | None => c2
                end in
      inr (mkToken STRING string_value (cur_line c3) start_column, c3)
    end
  end.

Fixpoint read_identifier_from (s : list N) (ln col : N) (identifier : list N)
  : list N * Cursor :=
  match s with
  | ch :: r =>
    if is_identifier_char ch
    then let '(ln', col') := step ch ln col in
         read_identifier_from r ln' col' (identifier ++ [ch])
    else (identifier, mkCursor s ln col)
  | [] => (identifier, mkCursor [] ln col)
  end.

Definition read_identifier (c : Cursor) : Token * Cursor :=
  let start_column := cur_column c in
  let '(identifier, c') :=
    read_identifier_from (rest c) (cur_line c) (cur_column c) [] in
  let token_type :=
    match lookup_str identifier keywords with
    | Some t => t
    | None => IDENTIFIER
    end in
  (mkToken token_type identifier (cur_line c') start_column, c').

(** The comment loop: up to, not including, the end of the line. *)
Fixpoint skip_comment_from (s : list N) (ln col : N) : Cursor :=
  match s with
  | ch :: r =>
    if ch =? 10 then mkCursor s ln col
    else let '(ln', col') := step ch ln col in skip_comment_from r ln' col'
  | [] => mkCursor [] ln col
  end.

Definition unknown_character (ch ln col : N) : list N :=
  u "Unknown character '" ++ [ch] ++ u "' at line " ++ str_of_N ln
    ++ u ", column " ++ str_of_N col.

(** One pass of the [while] loop of [tokenize] that starts at a
    character [ch] (after [skip_whitespace]): the tokens to append and
    the cursor to continue from, or the message of the [ValueError]. *)
Definition scan_one (ch : N) (c : Cursor) : list N + (list Token * Cursor) :=
  let here t v := mkToken t v (cur_line c) (cur_column c) in
  if ch =? 10 then inr ([here NEWLINE [ch]], advance c)
  else if ch =? 35 then
    inr ([], skip_comment_from (rest c) (cur_line c) (cur_column c))
  else if isdigit ch then
    let '(t, c') := read_number c in inr ([t], c')
  else if char_in ch [34; 39] then
    match read_string c with
    | inl msg => inl msg
    | inr (t, c') => inr ([t], c')
    end
  else if is_armenian_char ch then
    let '(t, c') := read_identifier c in inr ([t], c')
  else
    let two :=
      if char_in ch (u "=!<>") then
        let two_char := ch :: match peek_char c with Some n => [n] | None => [] end in
        match lookup_str two_char two_chars with
        | Some t => Some (here t two_char)
        | None => None
        end
      else None in
    match two with
    | Some t => inr ([t], advance (advance c))
    | None =>
      match lookup_char ch single_chars with
      | Some t => inr ([here t [ch]], advance c)
      | None =>
        if ch =? 61 then inr ([here ASSIGN [ch]], advance c)
        else if ch =? 60 then inr ([here LESS_THAN [ch]], advance c)
        else if ch =? 62 then inr ([here GREATER_THAN [ch]], advance c)
        else inl (unknown_character ch (cur_line c) (cur_column c))
      end
    end.

(** The [while self.position < len(self.source)] loop; every pass
    consumes at least one character, so [fuel] is the source length. *)
Fixpoint tokenize_loop (fuel : nat) (c : Cursor) (tokens : list Token)
  : option (list N + list Token) :=
  let finish c := Some (inr (tokens ++ [mkToken EOF [] (cur_line c) (cur_column c)])) in
  match rest c with
  | [] => finish c
  | _ :: _ =>
    let c := skip_whitespace c in
    match current_char c with
    | None => finish c
    | Some ch =>
      match scan_one ch c with
      | inl msg => Some (inl msg)
      | inr (ts, c') =>
        match fuel with
        | O => None
        | S fuel' => tokenize_loop fuel' c' (tokens ++ ts)
        end
      end
    end
  end.

(** [Lexer(source).tokenize()]: the tokens, or the message of the
    [ValueError] the scanner raises. *)
Definition tokenize (source : list N) : option (list N + list Token) :=
  tokenize_loop (length source) (mkCursor source 1 1) [].

End Lexer.

(* ===================================================================== *)
(** * Programs used as examples *)
(* ===================================================================== *)

(** A number literal as [Parser.primary] builds it from a run of digits:
    [NumberLiteral(float(lexeme))]. *)
Definition lit (z : Z) : ASTNode := NumberLiteral (binary_normalize prec emax z 0 false).

Definition call0 (name : string) : ASTNode := FunctionCall (u name) [].

(** [գործ գ() { գրէ("գ")  տուր <result> }]: a function that leaves a trace. *)
Definition noisy_function (result : bool) : ASTNode :=
  FunctionDeclaration (u "գ") []
    [ ExpressionStatement (FunctionCall (u "գրէ") [StringLiteral (u "գ")]);
      ReturnStatement (Some (BooleanLiteral result)) ].

(** [գործ ֆ() { տուր այո }  գործ գ() {...}  ֆ() կամ գ()]. *)
Definition or_program : list ASTNode :=
  [ FunctionDeclaration (u "ֆ") [] [ReturnStatement (Some (BooleanLiteral true))];
    noisy_function false;
    ExpressionStatement (BinaryOp (call0 "ֆ") (u "կամ") (call0 "գ")) ].

(** [գործ ֆ() { տուր ոչ }  գործ գ() {...}  ֆ() և գ()]. *)
Definition and_program : list ASTNode :=
  [ FunctionDeclaration (u "ֆ") [] [ReturnStatement (Some (BooleanLiteral false))];
    noisy_function true;
    ExpressionStatement (BinaryOp (call0 "ֆ") (u "և") (call0 "գ")) ].

(** Equality of values of different tags as the evaluator computes it:
    false, except that a boolean meets a number as [1] or [0]. *)
Definition cross_tag_eq (a b : SoorjValue) : bool :=
  match a, b with
  | VNumber n, VBoolean c => num_eq n (PyInt (Z.b2z c))
  | VBoolean c, VNumber n => num_eq (PyInt (Z.b2z c)) n
  | _, _ => false
  end.

(** The dictionaries on the parent chain of an environment, the
    environment's own first. *)
Fixpoint frames (env : Environment) : list (gmap (list N) SoorjValue) :=
  match env with
  | Env p vs => vs :: match p with
                      | Some p' => frames p'
                      | None => []
                      end
  end.

(** The position, on a chain, of the nearest dictionary that has [name]. *)
Fixpoint nearest (name : pystr) (fs : list (gmap (list N) SoorjValue)) : option nat :=
  match fs with
  | [] => None
  | f :: rest =>
    match f !! name with
    | Some _ => Some O
    | None => option_map S (nearest name rest)
    end
  end.

Definition is_ReturnValue (e : Exception) : bool :=
  match e with
  | ReturnValue _ => true
  | _ => false
  end.

(** [ա = 1  գործ ֆ() { տուր ա }  գործ գ(ա) { տուր ֆ() }  գրէ(գ(2))]:
    [ֆ] is declared where [ա] is [1] and called where [ա] is [2]. *)
Definition scope_program : list ASTNode :=
  [ ExpressionStatement (Assignment (u "ա") (lit 1));
    FunctionDeclaration (u "ֆ") [] [ReturnStatement (Some (Identifier (u "ա")))];
    FunctionDeclaration (u "գ") [u "ա"] [ReturnStatement (Some (call0 "ֆ"))];
    ExpressionStatement (FunctionCall (u "գրէ") [FunctionCall (u "գ") [lit 2]]) ].



(** [եթե այո { գրէ("ա")  տուր }  գրէ("բ")]: a bare return inside a block
    at the top level. *)
Definition nested_return_program : list ASTNode :=
  [ IfStatement (BooleanLiteral true)
                [ ExpressionStatement (FunctionCall (u "գրէ") [StringLiteral (u "ա")]);
                  ReturnStatement None ]
                None;
    ExpressionStatement (FunctionCall (u "գրէ") [StringLiteral (u "բ")]) ].

Definition stmt_assign (x : string) (e : ASTNode) : ASTNode :=
  ExpressionStatement (Assignment (u x) e).

Definition builtin1 (name : string) (e : ASTNode) : ASTNode :=
  FunctionCall (u name) [e].

(** [ա = թիվ(այո)  ի = 0  մինչև ի < n { ա = ա + ա  ի = ի + 1 }]: [ա] is the
    host integer [1] doubled [n] times. *)
Definition doubling (n : Z) : list ASTNode :=
  [ stmt_assign "ա" (builtin1 "թիվ" (BooleanLiteral true));
    stmt_assign "ի" (lit 0);
    WhileStatement (BinaryOp (Identifier (u "ի")) (u "<") (lit n))
      [ stmt_assign "ա" (BinaryOp (Identifier (u "ա")) (u "+") (Identifier (u "ա")));
        stmt_assign "ի" (BinaryOp (Identifier (u "ի")) (u "+") (lit 1)) ] ].

(** [... ա = ա + թիվ(այո)  գրէ(ա)  գրէ(թիվ(բառ(ա)))  գրէ(թիվ(բառ(ա)) == ա)]
    with [ա] doubled 53 times first. *)
Definition roundtrip_program : list ASTNode :=
  doubling 53 ++
  [ stmt_assign "ա" (BinaryOp (Identifier (u "ա")) (u "+")
                              (builtin1 "թիվ" (BooleanLiteral true)));
    ExpressionStatement (builtin1 "գրէ" (Identifier (u "ա")));
    ExpressionStatement (builtin1 "գրէ" (builtin1 "թիվ" (builtin1 "բառ" (Identifier (u "ա")))));
    ExpressionStatement
      (builtin1 "գրէ"
         (BinaryOp (builtin1 "թիվ" (builtin1 "բառ" (Identifier (u "ա"))))
                   (u "==") (Identifier (u "ա")))) ].

(** [... ա % 0.0] with [ա] doubled 1024 times first. *)
Definition modulo_program : list ASTNode :=
  doubling 1024 ++
  [ ExpressionStatement (BinaryOp (Identifier (u "ա")) (u "%") (lit 0)) ].

(** The class of the exception [a % b] ends with when [b] is a zero. *)
Definition modulo_by_zero_exception (a b : pynum) : builtin_exception :=
  match a, b with
  | PyInt z, PyFloat _ =>
    match float_of_int z with
    | inl _ => OverflowError
    | inr _ => ZeroDivisionError
    end
  | _, _ => ZeroDivisionError
  end.

(** What a number lexeme is, as [read_number] scans it: a run of digits
    and full stops that starts with a digit. *)
Definition digit_or_dot (ch : N) : bool := isdigit ch || (ch =? 46).

Definition number_run (lexeme : list N) : bool :=
  match lexeme with
  | d :: _ => isdigit d && forallb digit_or_dot lexeme
  | [] => false
  end.

(** [lexeme] stands in [source] as it is. *)
Definition occurs_in (lexeme source : list N) : Prop :=
  exists pre post, source = pre ++ lexeme ++ post.

Definition count_dots (lexeme : list N) : nat :=
  length (List.filter (N.eqb 46) lexeme).

(** The length of the parent chain, and the computations that end with
    a chain as long as they found it. *)
Definition depth (env : Environment) : nat := length (frames env).

Definition keeps_depth {A : Type} (m : M A) : Prop :=
  forall st r st', m st = (r, st') ->
                   depth (environment st') = depth (environment st).

(* ===================================================================== *)
(** * Definitions used by the further properties *)
(* ===================================================================== *)

(** The value a name has on a chain of dictionaries: that of the first
    dictionary that has it. *)
Fixpoint chain_lookup (name : pystr) (fs : list (gmap (list N) SoorjValue))
  : option SoorjValue :=
  match fs with
  | [] => None
  | f :: rest =>
    match f !! name with
    | Some v => Some v
    | None => chain_lookup name rest
    end
  end.

Definition is_number (v : SoorjValue) : bool :=
  match v with
  | VNumber _ => true
  | _ => false
  end.

Definition is_function (v : SoorjValue) : bool :=
  match v with
  | VFunction _ => true
  | _ => false
  end.

(** The operators that take numbers only. *)
Definition numeric_operators : list (list N) :=
  [u "-"; u "*"; u "/"; u "%"; u "<"; u ">"; u "<="; u ">="].

Definition is_nan (v : SoorjValue) : bool :=
  match v with
  | VNumber (PyFloat S754_nan) => true
  | _ => false
  end.

(** The token types [read_identifier] gives out. *)
Definition word_types : list Lexer.TokenType :=
  Lexer.IDENTIFIER :: List.map snd Lexer.keywords.

(** [self.keywords.get(identifier, TokenType.IDENTIFIER)]. *)
Definition word_type (identifier : list N) : Lexer.TokenType :=
  match Lexer.lookup_str identifier Lexer.keywords with
  | Some t => t
  | None => Lexer.IDENTIFIER
  end.

(** Each number is at least the one before it, the first at least [lo]. *)
Fixpoint ascending_from (lo : N) (l : list N) : Prop :=
  match l with
  | [] => True
  | a :: l' => lo <= a /\ ascending_from a l'
  end.

Definition is_blank (ch : N) : bool := char_in ch [32; 9; 13].

(** The characters one pass of the scanner's loop has a branch for. *)
Definition starts_token (ch : N) : bool :=
  (ch =? 10) || (ch =? 35) || isdigit ch || char_in ch [34; 39]
  || Lexer.is_armenian_char ch || char_in ch (u "=!<>")
  || match Lexer.lookup_char ch Lexer.single_chars with Some _ => true | None => false end.

(** A character that stands for itself inside a string opened by [q]. *)
Definition plain_string_char (q ch : N) : bool :=
  Lexer.is_valid_string_char ch && negb (ch =? q) && negb (ch =? 92).

(** What a token one pass appends looks like. *)
Definition scanned (c c' : Lexer.Cursor) (t : Lexer.Token) : Prop :=
  Lexer.type t <> Lexer.EOF
  /\ Lexer.cur_line c <= Lexer.line t <= Lexer.cur_line c'
  /\ (In (Lexer.type t) word_types ->
      Lexer.value t <> []
      /\ forallb Lexer.is_armenian_char (Lexer.value t) = true
      /\ Lexer.type t = word_type (Lexer.value t)).

(** What was printed before the computation is still there after it,
    in front of what it printed. *)
Definition keeps_output {A : Type} (m : M A) : Prop :=
  forall st r st', m st = (r, st') -> prefix (stdout st) (stdout st').

(* ===================================================================== *)
(** * parser.py: the parser *)
(* ===================================================================== *)

(** [==] on the members of the [TokenType] enumeration. *)
Scheme Equality for Lexer.TokenType.

Module Parser.

Import Lexer.

(** [str(token_type)], as the f-strings of the messages print it. *)
Definition TokenType_str (t : TokenType) : pystr :=
  u "TokenType." ++
  match t with
  | NUMBER => u "NUMBER" | STRING => u "STRING" | IDENTIFIER => u "IDENTIFIER"
  | IF => u "IF" | ELSE => u "ELSE" | WHILE => u "WHILE" | FUNCTION => u "FUNCTION"
  | RETURN => u "RETURN" | TRUE => u "TRUE" | FALSE => u "FALSE" | NULL => u "NULL"
  | AND => u "AND" | OR => u "OR" | NOT => u "NOT"
  | PLUS => u "PLUS" | MINUS => u "MINUS" | MULTIPLY => u "MULTIPLY"
  | DIVIDE => u "DIVIDE" | MODULO => u "MODULO" | ASSIGN => u "ASSIGN"
  | EQUALS => u "EQUALS" | NOT_EQUALS => u "NOT_EQUALS"
  | LESS_THAN => u "LESS_THAN" | GREATER_THAN => u "GREATER_THAN"
  | LESS_EQUAL => u "LESS_EQUAL" | GREATER_EQUAL => u "GREATER_EQUAL"
  | LEFT_PAREN => u "LEFT_PAREN" | RIGHT_PAREN => u "RIGHT_PAREN"
  | LEFT_BRACE => u "LEFT_BRACE" | RIGHT_BRACE => u "RIGHT_BRACE"
  | COMMA => u "COMMA" | NEWLINE => u "NEWLINE" | EOF => u "EOF"
  end.

(** What the parser raises: its own [SyntaxError]s with their message,
    the [ValueError] of [float(lexeme)] (carried here with the lexeme the
    host builds its message from), and the [IndexError] of
    [self.tokens[i]]. *)
Inductive ParseError :=
| SyntaxError (msg : pystr)
| ValueError (lexeme : pystr)
| IndexError.

(** How a call of a parser method ends; [Unfinished] stands for a run
    that needs more than the given number of loop passes and nested
    calls, be it long or endless (the host's own recursion limit is not
    part of the model). *)
Inductive run (A : Type) :=
| Done (a : A)
| Raised (e : ParseError)
| Unfinished.
Arguments Done {A} a.
Arguments Raised {A} e.
Arguments Unfinished {A}.

(** A method of [Parser]: from [self.current] to its result and the new
    [self.current]. *)
Definition P (A : Type) : Type := nat -> run A * nat.

Definition pret {A} (a : A) : P A := fun cur => (Done a, cur).
Definition praise {A} (e : ParseError) : P A := fun cur => (Raised e, cur).
Definition unfinished {A} : P A := fun cur => (Unfinished, cur).
Definition pbind {A B} (c : P A) (k : A -> P B) : P B :=
  fun cur =>
    match c cur with
    | (Done a, cur') => k a cur'
    | (Raised e, cur') => (Raised e, cur')
    | (Unfinished, cur') => (Unfinished, cur')
    end.

Notation "'let+' x ':=' c 'in' k" := (pbind c (fun x => k))
  (at level 10, x pattern, c at level 100, k at level 200).

Section Grammar.

Variable tokens : list Token.

(** [self.tokens[self.current]]. *)
Definition peek : P Token :=
  fun cur =>
    match tokens !! cur with
    | Some t => (Done t, cur)
    | None => (Raised IndexError, cur)
    end.

Definition is_at_end : P bool :=
  let+ t := peek in pret (TokenType_beq (type t) EOF).

(** [self.tokens[self.current - 1]]; at [current = 0] the index is [-1],
    the last token. *)
Definition previous : P Token :=
  fun cur =>
    let i := match cur with
             | O => (length tokens - 1)%nat
             | S k => k
             end in
    match tokens !! i with
    | Some t => (Done t, cur)
    | None => (Raised IndexError, cur)
    end.

Definition advance : P Token :=
  let+ at_end := is_at_end in
  let+ _ := (if at_end then pret tt else fun cur => (Done tt, S cur)) in
  previous.

Definition check (token_type : TokenType) : P bool :=
  let+ at_end := is_at_end in
  if at_end then pret false
  else let+ t := peek in pret (TokenType_beq (type t) token_type).

(** [match] (a keyword of Rocq, hence the underscore). *)
Fixpoint match_ (token_types : list TokenType) : P bool :=
  match token_types with
  | [] => pret false
  | token_type :: rest =>
    let+ c := check token_type in
    if c then let+ _ := advance in pret true
    else match_ rest
  end.

Definition consume (token_type : TokenType) (message : pystr) : P Token :=
  let+ c := check token_type in
  if c then advance
  else
    let+ current_token := peek in
    praise (SyntaxError (message ++ u ". Got " ++ TokenType_str (type current_token)
                           ++ u " at line " ++ str_of_N (line current_token))).

Fixpoint skip_newlines (fuel : nat) : P unit :=
  match fuel with
  | O => unfinished
  | S n =>
    let+ m := match_ [NEWLINE] in
    if m then skip_newlines n else pret tt
  end.

(** ** Expressions *)

Section Expressions.

(** [fuel] bounds the passes of each loop and the depth of each method's
    calls of itself; [expression] is [self.expression]. *)
Variable fuel : nat.
Variable expression : P ASTNode.

Definition primary : P ASTNode :=
  let+ m := match_ [TRUE] in
  if m then pret (BooleanLiteral true) else
  let+ m := match_ [FALSE] in
  if m then pret (BooleanLiteral false) else
  let+ m := match_ [NULL] in
  if m then pret NullLiteral else
  let+ m := match_ [NUMBER] in
  if m then
    let+ t := previous in
    match float_of_str (value t) with
    | Some f => pret (NumberLiteral f)
    | None => praise (ValueError (value t))
    end
  else
  let+ m := match_ [STRING] in
  if m then let+ t := previous in pret (StringLiteral (value t)) else
  let+ m := match_ [IDENTIFIER] in
  if m then let+ t := previous in pret (Identifier (value t)) else
  let+ m := match_ [LEFT_PAREN] in
  if m then
    let+ expr := expression in
    let+ _ := consume RIGHT_PAREN (u "Expected ')' after expression") in
    pret expr
  else
  let+ current_token := peek in
  praise (SyntaxError (u "Unexpected token " ++ TokenType_str (type current_token)
                         ++ u " at line " ++ str_of_N (line current_token))).

(** [while self.match(TokenType.COMMA): arguments.append(self.expression())]. *)
Fixpoint more_arguments (n : nat) (arguments : list ASTNode) : P (list ASTNode) :=
  match n with
  | O => unfinished
  | S k =>
    let+ m := match_ [COMMA] in
    if m then let+ a := expression in more_arguments k (arguments ++ [a])
    else pret arguments
  end.

Definition finish_call (callee : ASTNode) : P ASTNode :=
  let+ c := check RIGHT_PAREN in
  let+ arguments :=
    (if negb c then let+ a := expression in more_arguments fuel [a]
     else pret []) in
  let+ _ := consume RIGHT_PAREN (u "Expected ')' after arguments") in
  match callee with
  | Identifier name => pret (FunctionCall name arguments)
  | _ => praise (SyntaxError (u "Invalid function call"))
  end.

(** The [while True] loop of [call]. *)
Fixpoint call_loop (n : nat) (expr : ASTNode) : P ASTNode :=
  match n with
  | O => unfinished
  | S k =>
    let+ m := match_ [LEFT_PAREN] in
    if m then let+ expr' := finish_call expr in call_loop k expr'
    else pret expr
  end.

Definition call : P ASTNode :=
  let+ expr := primary in call_loop fuel expr.

Fixpoint unary (n : nat) : P ASTNode :=
  match n with
  | O => unfinished
  | S k =>
    let+ m := match_ [NOT; MINUS] in
    if m then
      let+ t := previous in
      let+ rhs := unary k in
      pret (UnaryOp (value t) rhs)
    else call
  end.

(** The loop the six binary levels share:
    [while self.match(types...): operator = self.previous().value;
     right = operand(); expr = BinaryOp(expr, operator, right)]. *)
Fixpoint binary_loop (types : list TokenType) (operand : P ASTNode)
         (n : nat) (expr : ASTNode) : P ASTNode :=
  match n with
  | O => unfinished
  | S k =>
    let+ m := match_ types in
    if m then
      let+ t := previous in
      let+ rhs := operand in
      binary_loop types operand k (BinaryOp expr (value t) rhs)
    else pret expr
  end.

Definition factor : P ASTNode :=
  let+ expr := unary fuel in
  binary_loop [MULTIPLY; DIVIDE; MODULO] (unary fuel) fuel expr.

Definition term : P ASTNode :=
  let+ expr := factor in
  binary_loop [PLUS; MINUS] factor fuel expr.

Definition comparison : P ASTNode :=
  let+ expr := term in
  binary_loop [GREATER_THAN; GREATER_EQUAL; LESS_THAN; LESS_EQUAL] term fuel expr.

Definition equality : P ASTNode :=
  let+ expr := comparison in
  binary_loop [EQUALS; NOT_EQUALS] comparison fuel expr.

Definition logical_and : P ASTNode :=
  let+ expr := equality in
  binary_loop [AND] equality fuel expr.

Definition logical_or : P ASTNode :=
  let+ expr := logical_and in
  binary_loop [OR] logical_and fuel expr.

Fixpoint assignment (n : nat) : P ASTNode :=
  match n with
  | O => unfinished
  | S k =>
    let+ expr := logical_or in
    let+ m := match_ [ASSIGN] in
    if m then
      let+ value := assignment k in
      match expr with
      | Identifier name => pret (Assignment name value)
      | _ => praise (SyntaxError (u "Invalid assignment target"))
      end
    else pret expr
  end.

End Expressions.

(** [Parser.expression]; [fuel] bounds the nesting of expressions and,
    inside each, the loops. *)
Fixpoint expression (fuel : nat) (cur : nat) {struct fuel} : run ASTNode * nat :=
  match fuel with
  | O => (Unfinished, cur)
  | S n => assignment n (expression n) n cur
  end.

(** ** Statements *)

Section Statements.

Variable fuel : nat.
Variable statement : P (option ASTNode).

(** [while not self.check(TokenType.RIGHT_BRACE) and not self.is_at_end():
     stmt = self.statement(); if stmt: body.append(stmt)]. *)
Fixpoint block (n : nat) (body : list ASTNode) : P (list ASTNode) :=
  match n with
  | O => unfinished
  | S k =>
    let+ c := check RIGHT_BRACE in
    if c then pret body else
    let+ at_end := is_at_end in
    if at_end then pret body else
    let+ stmt := statement in
    block k (match stmt with Some s => body ++ [s] | None => body end)
  end.

Definition if_statement : P ASTNode :=
  let+ condition := expression fuel in
  let+ _ := skip_newlines fuel in
  let+ _ := consume LEFT_BRACE (u "Expected '{' after if condition") in
  let+ _ := skip_newlines fuel in
  let+ then_branch := block fuel [] in
  let+ _ := consume RIGHT_BRACE (u "Expected '}' after if body") in
  let+ m := match_ [ELSE] in
  if m then
    let+ _ := skip_newlines fuel in
    let+ _ := consume LEFT_BRACE (u "Expected '{' after else") in
    let+ _ := skip_newlines fuel in
    let+ else_branch := block fuel [] in
    let+ _ := consume RIGHT_BRACE (u "Expected '}' after else body") in
    pret (IfStatement condition then_branch (Some else_branch))
  else pret (IfStatement condition then_branch None).

Definition while_statement : P ASTNode :=
  let+ condition := expression fuel in
  let+ _ := skip_newlines fuel in
  let+ _ := consume LEFT_BRACE (u "Expected '{' after while condition") in
  let+ _ := skip_newlines fuel in
  let+ body := block fuel [] in
  let+ _ := consume RIGHT_BRACE (u "Expected '}' after while body") in
  pret (WhileStatement condition body).

Definition return_statement : P ASTNode :=
  let+ c := check NEWLINE in
  let+ has_value := (if negb c then let+ at_end := is_at_end in pret (negb at_end)
                     else pret false) in
  if has_value then let+ value := expression fuel in pret (ReturnStatement (Some value))
  else pret (ReturnStatement None).

(** [while self.match(TokenType.COMMA): ... parameters.append(param_name)]. *)
Fixpoint more_parameters (n : nat) (parameters : list pystr) : P (list pystr) :=
  match n with
  | O => unfinished
  | S k =>
    let+ m := match_ [COMMA] in
    if m then
      let+ t := consume IDENTIFIER (u "Expected parameter name") in
      more_parameters k (parameters ++ [value t])
    else pret parameters
  end.

Definition function_declaration : P ASTNode :=
  let+ name_token := consume IDENTIFIER (u "Expected function name") in
  let+ _ := consume LEFT_PAREN (u "Expected '(' after function name") in
  let+ c := check RIGHT_PAREN in
  let+ parameters :=
    (if negb c then
       let+ t := consume IDENTIFIER (u "Expected parameter name") in
       more_parameters fuel [value t]
     else pret []) in
  let+ _ := consume RIGHT_PAREN (u "Expected ')' after parameters") in
  let+ _ := skip_newlines fuel in
  let+ _ := consume LEFT_BRACE (u "Expected '{' before function body") in
  let+ _ := skip_newlines fuel in
  let+ body := block fuel [] in
  let+ _ := consume RIGHT_BRACE (u "Expected '}' after function body") in
  pret (FunctionDeclaration (value name_token) parameters body).

Definition expression_statement : P ASTNode :=
  let+ expr := expression fuel in pret (ExpressionStatement expr).

Definition statement_body : P (option ASTNode) :=
  let+ _ := skip_newlines fuel in
  let+ m := match_ [IF] in
  if m then let+ s := if_statement in pret (Some s) else
  let+ m := match_ [WHILE] in
  if m then let+ s := while_statement in pret (Some s) else
  let+ m := match_ [RETURN] in
  if m then let+ s := return_statement in pret (Some s) else
  let+ m := match_ [FUNCTION] in
  if m then let+ s := function_declaration in pret (Some s) else
  let+ c := check RIGHT_BRACE in
  let+ c' := (if c then pret true else check EOF) in
  if c' then pret None
  else let+ s := expression_statement in pret (Some s).

End Statements.

(** [Parser.statement]. *)
Fixpoint statement (fuel : nat) (cur : nat) {struct fuel} : run (option ASTNode) * nat :=
  match fuel with
  | O => (Unfinished, cur)
  | S n => statement_body n (statement n) cur
  end.

(** The loop of [parse]:
    [while not self.is_at_end(): self.skip_newlines();
     if not self.is_at_end(): stmt = self.statement(); if stmt: statements.append(stmt)]. *)
Fixpoint parse_loop (fuel : nat) (n : nat) (statements : list ASTNode)
  : P (list ASTNode) :=
  match n with
  | O => unfinished
  | S k =>
    let+ at_end := is_at_end in
    if at_end then pret statements else
    let+ _ := skip_newlines fuel in
    let+ at_end := is_at_end in
    if at_end then parse_loop fuel k statements else
    let+ stmt := statement fuel in
    parse_loop fuel k (match stmt with Some s => statements ++ [s] | None => statements end)
  end.

End Grammar.

(** [Parser(tokens).parse()]: the statements of the [Program] it
    returns. *)
Definition parse (fuel : nat) (tokens : list Token) : run (list ASTNode) :=
  fst (parse_loop tokens fuel fuel [] 0%nat).

End Parser.

(** The last token is the end-of-input token. *)
Definition well_ended (tokens : list Lexer.Token) : bool :=
  match last tokens with
  | Some t => TokenType_beq (Lexer.type t) Lexer.EOF
  | None => false
  end.

(** The token at [cur] is of type [ty]. *)
Definition stands_at (tokens : list Lexer.Token) (ty : Lexer.TokenType) (cur : nat) : bool :=
  match tokens !! cur with
  | Some t => TokenType_beq (Lexer.type t) ty
  | None => false
  end.

(** A parser method called at [cur] comes to an end without
    [IndexError]; when it returns, the position has not gone back
    ([strict]: has advanced) and is still one of a token. *)
Definition fine {A : Type} (tokens : list Lexer.Token) (strict : bool)
           (m : Parser.P A) (cur : nat) : Prop :=
  match m cur with
  | (Parser.Done _, cur') =>
    (if strict then cur < cur' else cur <= cur')%nat /\ (cur' < length tokens)%nat
  | (Parser.Raised e, _) => e <> Parser.IndexError
  | (Parser.Unfinished, _) => False
  end.

(** The token types [unary] and [primary] have a branch for. *)
Definition starts_expression (ty : Lexer.TokenType) : bool :=
  existsb (TokenType_beq ty)
          [ Lexer.NOT; Lexer.MINUS; Lexer.TRUE; Lexer.FALSE; Lexer.NULL; Lexer.NUMBER;
            Lexer.STRING; Lexer.IDENTIFIER; Lexer.LEFT_PAREN ].

(* ===================================================================== *)
(** * Properties *)
(* ===================================================================== *)

(** Closed statements about concrete programs are decided by evaluation. *)
Ltac by_evaluation :=
  repeat match goal with |- _ /\ _ => split end; vm_compute; reflexivity.

Lemma str_eqb_spec (a b : list N) : str_eqb a b = true <-> a = b.
Proof.
  revert b; induction a as [|x a IH]; intros [|y b]; simpl; try easy.
  rewrite andb_true_iff, N.eqb_eq, IH. split.
  - intros [-> ->]; reflexivity.
  - intros E; injection E; auto.
Qed.

Lemma str_eqb_refl (a : list N) : str_eqb a a = true.
Proof. apply str_eqb_spec; reflexivity. Qed.

(** ** Logical operators *)

Lemma binary_op_and (l r : SoorjValue) :
  binary_op (u "և") l r = ret (VBoolean (is_truthy l && is_truthy r)).
Proof. reflexivity. Qed.

Lemma binary_op_or (l r : SoorjValue) :
  binary_op (u "կամ") l r = ret (VBoolean (is_truthy l || is_truthy r)).
Proof. reflexivity. Qed.

(** C1, as the code has it: [L և R] and [L կամ R] evaluate [L], then
    always [R] in the state [L] left, whatever the truthiness of [L]; the
    result is the boolean conjunction, respectively disjunction, of the
    two truthinesses.  Nothing is skipped. *)
Theorem logical_operators_evaluate_both_operands
        (fuel : nat) (L R : ASTNode) (st : Interpreter) :
  evaluate (S fuel) (BinaryOp L (u "և") R) st =
    (let* l := evaluate fuel L in
     let* r := evaluate fuel R in
     ret (VBoolean (is_truthy l && is_truthy r))) st
  /\
  evaluate (S fuel) (BinaryOp L (u "կամ") R) st =
    (let* l := evaluate fuel L in
     let* r := evaluate fuel R in
     ret (VBoolean (is_truthy l || is_truthy r))) st.
Proof.
  split; cbn [evaluate evaluate_node]; unfold evaluate_binary_op, bind;
    destruct (evaluate fuel L st) as [[l | e | ] st1]; try reflexivity;
    destruct (evaluate fuel R st1) as [[r | e | ] st2]; reflexivity.
Qed.

(** C1, the claim fails: in [ֆ() կամ գ()] with [ֆ()] truthy, and in
    [ֆ() և գ()] with [ֆ()] falsy, [գ] is called all the same: the line it
    prints is on the output. *)
Lemma short_circuit_counterexample :
  run_program 10 or_program = Some [u "գ"] /\
  run_program 10 and_program = Some [u "գ"].
Proof. by_evaluation. Qed.

(** ** Concatenation *)

(** What [+] does when a string is involved: it concatenates [str] of the
    two payloads, the left one taken first; a [str] that raises ends it. *)
Lemma plus_concatenates_payload_str (a b : SoorjValue) (st : Interpreter) :
  (type_name a = u "string" \/ type_name b = u "string") ->
  binary_op (u "+") a b st =
    match py_str (value_of a), py_str (value_of b) with
    | inr l, inr r => (Returns (VString (l ++ r)), st)
    | inl (cls, msg), _ => (Raises (Builtin cls msg), st)
    | inr _, inl (cls, msg) => (Raises (Builtin cls msg), st)
    end.
Proof.
  assert (G : forall x y,
             (let* l := lift_host (py_str x) in
              let* r := lift_host (py_str y) in
              ret (VString (l ++ r))) st
             = match py_str x, py_str y with
               | inr l, inr r => (Returns (VString (l ++ r)), st)
               | inl (cls, msg), _ => (Raises (Builtin cls msg), st)
               | inr _, inl (cls, msg) => (Raises (Builtin cls msg), st)
               end).
  { intros x y. unfold bind, lift_host.
    destruct (py_str x) as [[c m] | l]; [reflexivity | ].
    destruct (py_str y) as [[c m] | r]; reflexivity. }
  intros [H | H]; destruct a, b; try apply G; vm_compute in H; discriminate.
Qed.

(** [str] of the payload is the display form, except for null and the
    booleans. *)
Lemma py_str_display (v : SoorjValue) :
  type_name v <> u "null" -> type_name v <> u "boolean" ->
  py_str (value_of v) = SoorjValue_str v.
Proof.
  destruct v; intros Hn Hb; try reflexivity.
  - exfalso; apply Hn; reflexivity.
  - exfalso; apply Hb; reflexivity.
Qed.

(** C2, the code at the failing inputs: ["ա" + այո] and ["ա" + հեչ] give
    the host's [True] and [None], where the display forms, which [գրէ]
    prints, are [այո] and [հեչ]. *)
Theorem plus_string_uses_host_str (st : Interpreter) :
  binary_op (u "+") (VString (u "ա")) (VBoolean true) st
    = (Returns (VString (u "աTrue")), st)
  /\ host_bind (SoorjValue_str (VString (u "ա"))) (fun l =>
     host_bind (SoorjValue_str (VBoolean true)) (fun r => inr (l ++ r)))
     = inr (u "աայո")
  /\ binary_op (u "+") (VString (u "ա")) VNull st
    = (Returns (VString (u "աNone")), st)
  /\ host_bind (SoorjValue_str (VString (u "ա"))) (fun l =>
     host_bind (SoorjValue_str VNull) (fun r => inr (l ++ r)))
     = inr (u "ահեչ")
  /\ fst (builtin_gre [VBoolean true; VNull] st) = Returns VNull
  /\ stdout (snd (builtin_gre [VBoolean true; VNull] st)) = stdout st ++ [u "այո հեչ"].
Proof. repeat split. Qed.

(** ** Equality *)

(** C3, as the code has it: for values of different tags [==] is false
    and [!=] true, except between a number and a boolean, where the host
    compares the boolean as the integer [1] or [0]. *)
Theorem equality_across_tags (a b : SoorjValue) (st : Interpreter) :
  type_name a <> type_name b ->
  binary_op (u "==") a b st = (Returns (VBoolean (cross_tag_eq a b)), st) /\
  binary_op (u "!=") a b st = (Returns (VBoolean (negb (cross_tag_eq a b))), st).
Proof.
  intros H; destruct a, b; try (split; reflexivity); exfalso; apply H; reflexivity.
Qed.

Lemma equality_across_tags_witness :
  binary_op (u "==") (VNumber (PyFloat (of_decimal false 1 0))) (VString (u "1")) Interpreter_init
    = (Returns (VBoolean false), Interpreter_init).
Proof.
  refine (proj1 (equality_across_tags
                   (VNumber (PyFloat (of_decimal false 1 0))) (VString (u "1"))
                   Interpreter_init _)).
  intros E; vm_compute in E; discriminate E.
Defined.

(** C3, the claim fails: [1 == այո] evaluates to true, a number equal to
    a boolean, and [0 != ոչ] to false. *)
Lemma number_equals_boolean_counterexample :
  evaluate 2 (BinaryOp (lit 1) (u "==") (BooleanLiteral true)) Interpreter_init
    = (Returns (VBoolean true), Interpreter_init)
  /\ evaluate 2 (BinaryOp (lit 0) (u "!=") (BooleanLiteral false)) Interpreter_init
    = (Returns (VBoolean false), Interpreter_init)
  /\ type_name (VNumber (PyFloat (of_decimal false 1 0))) <> type_name (VBoolean true).
Proof.
  split; [ | split ]; try (vm_compute; reflexivity).
  intros E; vm_compute in E; discriminate E.
Qed.

(** ** Environments and calls *)

Lemma Environment_chain_ind (P : Environment -> Prop) :
  (forall vs, P (Env None vs)) ->
  (forall p vs, P p -> P (Env (Some p) vs)) ->
  forall env, P env.
Proof.
  intros Hroot Hchild. fix IH 1. intros [[p | ] vs].
  - apply Hchild, IH.
  - apply Hroot.
Qed.

Lemma parent_define (name : pystr) (v : SoorjValue) (env : Environment) :
  parent (define name v env) = parent env.
Proof. destruct env; reflexivity. Qed.

Lemma parent_call_environment (prev_env : Environment)
      (params : list pystr) (args : list SoorjValue) :
  parent (call_environment prev_env params args) = Some prev_env.
Proof.
  unfold call_environment.
  generalize (zip params args) as l. intros l.
  assert (G : forall env, parent (fold_left (fun env pa => define (fst pa) (snd pa) env) l env)
                          = parent env).
  { induction l as [|pa l IH]; intros env; simpl; [reflexivity|].
    rewrite IH. apply parent_define. }
  apply G.
Qed.

(** C4: a call of a user function runs its body in a new environment
    whose parent is the interpreter's environment at the time of the call;
    the function value holds no environment of its own. *)
Theorem call_environment_is_child_of_callers
        (exec : ASTNode -> M (option SoorjValue)) (name : pystr)
        (params : list pystr) (body : list ASTNode)
        (args : list SoorjValue) (st : Interpreter) :
  length args = length params ->
  parent (call_environment (environment st) params args) = Some (environment st)
  /\ SoorjFunction_call exec name params body args st =
       match execute_each exec body
               (set_environment (call_environment (environment st) params args) st) with
       | (Returns _, st2) => (Returns VNull, restore_environment (environment st) st2)
       | (Raises (ReturnValue v), st2) => (Returns v, restore_environment (environment st) st2)
       | (Raises e, st2) => (Raises e, restore_environment (environment st) st2)
       | (OutOfFuel, st2) => (OutOfFuel, restore_environment (environment st) st2)
       end.
Proof.
  intros Hlen. split.
  - apply parent_call_environment.
  - unfold SoorjFunction_call. rewrite Hlen, Nat.eqb_refl. reflexivity.
Qed.

Lemma call_environment_is_child_of_callers_witness :
  parent (call_environment (environment Interpreter_init) [u "ա"] [VNull])
    = Some (environment Interpreter_init).
Proof.
  exact (proj1 (call_environment_is_child_of_callers
                  (execute 3) (u "գ") [u "ա"] [ReturnStatement None] [VNull]
                  Interpreter_init eq_refl)).
Defined.

(** Dynamic scope at work: [ֆ], declared at the top level, reads the [ա]
    of its caller [գ]. *)
Lemma scope_program_output : run_program 12 scope_program = Some [u "2.0"].
Proof. vm_compute; reflexivity. Qed.

Lemma assign_frames (name : pystr) (v : SoorjValue) (env : Environment) :
  match nearest name (frames env) with
  | Some k => exists env', assign env name v = inr env'
                           /\ frames env' = alter (<[name := v]>) k (frames env)
  | None => assign env name v = inl (undefined_variable name)
  end.
Proof.
  induction env as [vs | p vs IH] using Environment_chain_ind; simpl.
  - destruct (vs !! name) as [w | ]; simpl; [ | reflexivity].
    eexists; split; reflexivity.
  - destruct (vs !! name) as [w | ]; simpl.
    + eexists; split; reflexivity.
    + destruct (nearest name (frames p)) as [k | ]; simpl.
      * destruct IH as (p' & Hp & Hf). rewrite Hp.
        eexists; split; [reflexivity | ]. simpl. rewrite Hf. reflexivity.
      * rewrite IH. reflexivity.
Qed.

Lemma frames_define (name : pystr) (v : SoorjValue) (env : Environment) :
  frames (define name v env) = alter (<[name := v]>) O (frames env).
Proof. destruct env as [[p | ] vs]; reflexivity. Qed.

(** C5: an assignment [x = e] whose right-hand side evaluates to [v]
    updates the nearest dictionary on the chain that has [x]; when none
    has, it binds [x] in the current environment's own dictionary (position
    0).  Every other dictionary on the chain, the output and the rest of
    the state are left as they were. *)
Theorem assignment_updates_nearest_or_defines
        (fuel : nat) (x : pystr) (e : ASTNode)
        (st st1 : Interpreter) (v : SoorjValue) :
  evaluate fuel e st = (Returns v, st1) ->
  exists st2,
    evaluate (S fuel) (Assignment x e) st = (Returns v, st2)
    /\ stdout st2 = stdout st1
    /\ next_addr st2 = next_addr st1
    /\ frames (environment st2) =
         match nearest x (frames (environment st1)) with
         | Some k => alter (<[x := v]>) k (frames (environment st1))
         | None => alter (<[x := v]>) O (frames (environment st1))
         end.
Proof.
  intros He. cbn [evaluate evaluate_node]. unfold bind. rewrite He.
  pose proof (assign_frames x v (environment st1)) as Ha.
  destruct (nearest x (frames (environment st1))) as [k | ].
  - destruct Ha as (env' & Ha & Hf). rewrite Ha.
    eexists; repeat split; simpl; auto.
  - rewrite Ha. simpl.
    eexists; repeat split; simpl. apply frames_define.
Qed.

Lemma assignment_updates_nearest_or_defines_witness :
  exists st2,
    evaluate 2 (Assignment (u "ա") (lit 5)) Interpreter_init
      = (Returns (VNumber (PyFloat (of_decimal false 5 0))), st2)
    /\ stdout st2 = [].
Proof.
  destruct (assignment_updates_nearest_or_defines
              1 (u "ա") (lit 5) Interpreter_init Interpreter_init
              (VNumber (PyFloat (of_decimal false 5 0))) eq_refl)
    as (st2 & Hev & Hout & _).
  exists st2. split; [exact Hev | exact Hout].
Defined.

(** What the positions mean: [nearest] is the first dictionary that has
    the name. *)
Lemma nearest_spec (name : pystr) (fs : list (gmap (list N) SoorjValue)) (k : nat) :
  nearest name fs = Some k <->
  (exists f, fs !! k = Some f /\ is_Some (f !! name))
  /\ (forall j f, (j < k)%nat -> fs !! j = Some f -> f !! name = None).
Proof.
  revert k; induction fs as [|f fs IH]; intros k; simpl.
  - split; [discriminate | intros [(g & Hg & _) _]; discriminate].
  - destruct (f !! name) as [w | ] eqn:Hf.
    + split.
      * intros [= <-]. split; [exists f; split; [reflexivity | rewrite Hf; eauto] | ].
        intros j g Hj; inversion Hj.
      * intros [(g & Hg & Hs) Hmin]. destruct k as [|k]; [reflexivity | ].
        specialize (Hmin O f (Nat.lt_0_succ k) eq_refl). congruence.
    + destruct (nearest name fs) as [k' | ] eqn:Hn; simpl.
      * split.
        -- intros [= <-]. destruct (proj1 (IH k') eq_refl) as [(g & Hg & Hs) Hmin].
           split; [exists g; split; assumption | ].
           intros [|j] h Hj Hh; simpl in Hh; [congruence | ].
           apply (Hmin j); [apply Nat.succ_lt_mono; exact Hj | exact Hh].
        -- intros [(g & Hg & Hs) Hmin]. destruct k as [|k].
           ++ simpl in Hg. injection Hg as <-. rewrite Hf in Hs. destruct Hs; discriminate.
           ++ f_equal. assert (E : Some k' = Some k); [ | congruence].
              apply IH. split; [exists g; split; assumption | ].
              intros j h Hj Hh. apply (Hmin (S j) h); [apply -> Nat.succ_lt_mono; exact Hj | exact Hh].
      * split; [discriminate | ].
        intros [(g & Hg & Hs) Hmin]. destruct k as [|k].
        -- simpl in Hg. injection Hg as <-. rewrite Hf in Hs. destruct Hs; discriminate.
        -- exfalso. assert (E : None = Some k); [ | discriminate].
           apply IH. split; [exists g; split; assumption | ].
           intros j h Hj Hh. apply (Hmin (S j) h); [apply -> Nat.succ_lt_mono; exact Hj | exact Hh].
Qed.

(** ** The return signal *)

(** C6: a call of a user function with the right number of arguments
    yields exactly the value carried by the return signal its body raises,
    and null when the body completes without one; in no case does the
    signal leave the call. *)
Theorem call_consumes_return_signal
        (exec : ASTNode -> M (option SoorjValue)) (name : pystr)
        (params : list pystr) (body : list ASTNode)
        (args : list SoorjValue) (st : Interpreter) :
  length args = length params ->
  (forall v st2,
      execute_each exec body
        (set_environment (call_environment (environment st) params args) st)
        = (Raises (ReturnValue v), st2) ->
      SoorjFunction_call exec name params body args st
        = (Returns v, restore_environment (environment st) st2))
  /\ (forall st2,
      execute_each exec body
        (set_environment (call_environment (environment st) params args) st)
        = (Returns tt, st2) ->
      SoorjFunction_call exec name params body args st
        = (Returns VNull, restore_environment (environment st) st2))
  /\ (forall e st',
      SoorjFunction_call exec name params body args st = (Raises e, st') ->
      is_ReturnValue e = false).
Proof.
  intros Hlen. unfold SoorjFunction_call. rewrite Hlen, Nat.eqb_refl. simpl.
  repeat split.
  - intros v st2 ->. reflexivity.
  - intros st2 ->. reflexivity.
  - intros e st'.
    destruct (execute_each exec body _) as [[[] | e' | ] st2]; try discriminate.
    destruct e'; intros [= <- <-]; reflexivity.
Qed.

Lemma call_consumes_return_signal_witness :
  fst (SoorjFunction_call (execute 3) (u "ֆ") [] [ReturnStatement (Some (lit 7))] []
                          Interpreter_init)
    = Returns (VNumber (PyFloat (of_decimal false 7 0)))
  /\ fst (SoorjFunction_call (execute 3) (u "ֆ") [] [ExpressionStatement (lit 7)] []
                             Interpreter_init)
    = Returns VNull.
Proof.
  split.
  - rewrite (proj1 (call_consumes_return_signal
                      (execute 3) (u "ֆ") [] [ReturnStatement (Some (lit 7))] []
                      Interpreter_init eq_refl)
                   (VNumber (PyFloat (of_decimal false 7 0)))
                   (set_environment (call_environment (environment Interpreter_init) [] [])
                                    Interpreter_init)
                   eq_refl).
    reflexivity.
  - rewrite (proj1 (proj2 (call_consumes_return_signal
                      (execute 3) (u "ֆ") [] [ExpressionStatement (lit 7)] []
                      Interpreter_init eq_refl))
                   (set_environment (call_environment (environment Interpreter_init) [] [])
                                    Interpreter_init)
                   eq_refl).
    reflexivity.
Defined.

Lemma builtin_never_raises_ReturnValue (f : builtin) (args : list SoorjValue)
      (st st' : Interpreter) (e : Exception) :
  BuiltinFunction_call f args st = (Raises e, st') -> is_ReturnValue e = false.
Proof.
  destruct f; simpl.
  - unfold builtin_gre. destruct (length args =? 0)%nat; [discriminate | ].
    destruct (str_each args) as [[cls msg] | parts]; [ | discriminate].
    intros [= <- <-]. reflexivity.
  - destruct args as [|[] [|? ?]]; simpl; try (intros [= <- <-]; reflexivity);
      try discriminate.
    destruct (float_of_str s); discriminate.
  - destruct args as [|a [|? ?]]; simpl; try (intros [= <- <-]; reflexivity).
    destruct a; try discriminate; unfold bind, lift_host;
      match goal with
      | |- context [py_str ?x] => destruct (py_str x) as [[cls msg] | s']
      end; try discriminate; intros [= <- <-]; reflexivity.
Qed.

Lemma binary_op_pure (op : pystr) (l r : SoorjValue) (st st' : Interpreter)
      (res : outcome SoorjValue) :
  binary_op op l r st = (res, st') ->
  st' = st /\ forall e, res = Raises e -> is_ReturnValue e = false.
Proof.
  unfold binary_op.
  repeat match goal with
         | |- context [if str_eqb op ?s then _ else _] => destruct (str_eqb op s)
         end;
    destruct l, r; simpl; unfold bind, lift_host, raise, ret;
    repeat match goal with
           | |- context [match ?x with inl _ => _ | inr _ => _ end] => destruct x as [[? ?] | ?]
           | |- context [if ?b then _ else _] => destruct b
           end;
    intros H; inversion H; (split; [reflexivity | ]); intros e E; inversion E; reflexivity.
Qed.

Lemma binary_op_never_raises_ReturnValue (op : pystr) (l r : SoorjValue)
      (st st' : Interpreter) (e : Exception) :
  binary_op op l r st = (Raises e, st') -> is_ReturnValue e = false.
Proof. intros H. exact (proj2 (binary_op_pure _ _ _ _ _ _ H) e eq_refl). Qed.

Lemma get_never_raises_ReturnValue (env : Environment) (name : pystr) (e : Exception) :
  get env name = inl e -> is_ReturnValue e = false.
Proof.
  induction env as [vs | p vs IHp] using Environment_chain_ind; simpl;
    destruct (vs !! name); try discriminate.
  - intros [= <-]. reflexivity.
  - exact IHp.
Qed.

Lemma assign_raises_RuntimeError (env : Environment) (name : pystr) (v : SoorjValue)
      (e : Exception) :
  assign env name v = inl e -> is_RuntimeError e = true.
Proof.
  induction env as [vs | p vs IHp] using Environment_chain_ind; simpl;
    destruct (vs !! name); try discriminate.
  - intros [= <-]. reflexivity.
  - destruct (assign p name v); [ | discriminate]. intros [= <-]. apply IHp. reflexivity.
Qed.

Lemma evaluate_each_never_raises_ReturnValue
      (eval : ASTNode -> M SoorjValue) (args : list ASTNode) :
  (forall a s s' x, eval a s = (Raises x, s') -> is_ReturnValue x = false) ->
  forall s s' x,
    evaluate_each eval args s = (Raises x, s') -> is_ReturnValue x = false.
Proof.
  intros Hev. induction args as [|a args IHa]; intros s s' x; simpl; [discriminate | ].
  unfold bind.
  destruct (eval a s) as [[v | x' | ] s1] eqn:Ha; try discriminate.
  - destruct (evaluate_each eval args s1) as [[vs | x' | ] s2] eqn:Hr;
      try discriminate.
    intros [= <- <-]. eapply IHa; eassumption.
  - intros [= <- <-]. eapply Hev; eassumption.
Qed.

(** X24: the return signal never leaves an expression: whatever the
    fuel, when [evaluate] raises, what it raises is not [ReturnValue] (a
    call has taken the signal of its body). *)
Lemma evaluate_never_raises_ReturnValue (fuel : nat) (node : ASTNode)
      (st st' : Interpreter) (e : Exception) :
  evaluate fuel node st = (Raises e, st') -> is_ReturnValue e = false.
Proof.
  revert node st st' e. induction fuel as [|n IH]; intros node st st' e; [discriminate | ].
  cbn [evaluate].
  destruct node as [f | s | b | | name | lhs op rhs | op operand | target rhs
                    | name arguments | | | | | | ];
    simpl; unfold raise, ret; try (intros H; inversion H; reflexivity).
  - (* Identifier *)
    unfold lift_env. destruct (get (environment st) name) as [x | v] eqn:Hg; simpl;
      unfold raise, ret; intros H; inversion H; subst.
    eapply get_never_raises_ReturnValue; eassumption.
  - (* BinaryOp *)
    unfold evaluate_binary_op, bind.
    destruct (evaluate n lhs st) as [[l | x | ] s1] eqn:H1; try discriminate.
    + destruct (evaluate n rhs s1) as [[r | x | ] s2] eqn:H2; try discriminate.
      * apply binary_op_never_raises_ReturnValue.
      * intros [= <- <-]. eapply IH; eassumption.
    + intros [= <- <-]. eapply IH; eassumption.
  - (* UnaryOp *)
    unfold evaluate_unary_op, bind.
    destruct (evaluate n operand st) as [[v | x | ] s1] eqn:H1; try discriminate.
    + destruct (str_eqb op (u "-")).
      * destruct v; unfold raise, ret; intros H; inversion H; reflexivity.
      * destruct (str_eqb op (u "չի") || str_eqb op (u "not"));
          unfold raise, ret; intros H; inversion H; reflexivity.
    + intros [= <- <-]. eapply IH; eassumption.
  - (* Assignment *)
    unfold bind.
    destruct (evaluate n rhs st) as [[v | x | ] s1] eqn:H1; try discriminate.
    + destruct (assign (environment s1) target v) as [x | env'] eqn:Hassign.
      * rewrite (assign_raises_RuntimeError _ _ _ _ Hassign). discriminate.
      * discriminate.
    + intros [= <- <-]. eapply IH; eassumption.
  - (* FunctionCall *)
    unfold evaluate_function_call, bind, lift_env.
    destruct (get (environment st) name) as [x | fv] eqn:Hg; simpl.
    + unfold raise. intros [= <- <-].
      eapply get_never_raises_ReturnValue; eassumption.
    + unfold ret. destruct fv as [ | | | | f]; unfold raise;
        try (intros H; inversion H; reflexivity).
      destruct (evaluate_each (evaluate n) arguments st) as [[vs | x | ] s1] eqn:Ha;
        try discriminate.
      * destruct f as [a nm ps body | a nm g]; simpl.
        -- unfold SoorjFunction_call.
           destruct (negb (length vs =? length ps)%nat).
           ++ intros [= <- <-]. reflexivity.
           ++ destruct (execute_each (execute n) body _) as [[[] | x | ] s2];
                try discriminate.
              destruct x; intros [= <- <-]; reflexivity.
        -- apply builtin_never_raises_ReturnValue.
      * intros [= <- <-].
        eapply (evaluate_each_never_raises_ReturnValue (evaluate n) arguments);
          [ intros a s s' y; apply IH | eassumption ].
Qed.

Lemma evaluate_never_raises_ReturnValue_witness :
  is_ReturnValue (RuntimeError (u "Undefined variable 'ա'")) = false.
Proof.
  apply (evaluate_never_raises_ReturnValue 1 (Identifier (u "ա"))
                                           Interpreter_init Interpreter_init).
  vm_compute. reflexivity.
Defined.

Lemma execute_each_app (exec : ASTNode -> M (option SoorjValue))
      (pre post : list ASTNode) (st st1 : Interpreter) :
  execute_each exec pre st = (Returns tt, st1) ->
  execute_each exec (pre ++ post) st = execute_each exec post st1.
Proof.
  revert st; induction pre as [|s pre IH]; intros st; simpl.
  - intros [= <-]. reflexivity.
  - unfold bind. destruct (exec s st) as [[o | e | ] s1]; try discriminate.
    apply IH.
Qed.





(** The same for a bare [տուր] inside a block at the top level, in
    [եթե այո { գրէ("ա")  տուր }  գրէ("բ")]: the signal carries null. *)
Lemma nested_return_escapes :
  fst (interpret 5 nested_return_program Interpreter_init) = Raises (ReturnValue VNull)
  /\ stdout (snd (interpret 5 nested_return_program Interpreter_init)) = [u "ա"]
  /\ run_program 5 nested_return_program = Some [u "ա"; u "Error: հեչ"].
Proof. by_evaluation. Qed.

(** ** The environment chain during a run *)

Lemma keeps_depth_ret {A : Type} (a : A) : keeps_depth (ret a).
Proof. intros st r st' [= <- <-]. reflexivity. Qed.

Lemma keeps_depth_raise {A : Type} (e : Exception) : keeps_depth (@raise A e).
Proof. intros st r st' [= <- <-]. reflexivity. Qed.

Lemma keeps_depth_bind {A B : Type} (c : M A) (k : A -> M B) :
  keeps_depth c -> (forall a, keeps_depth (k a)) -> keeps_depth (bind c k).
Proof.
  intros Hc Hk st r st'. unfold bind.
  destruct (c st) as [[a | e | ] s1] eqn:E.
  - intros H. rewrite (Hk a _ _ _ H). eapply Hc; eassumption.
  - intros [= <- <-]. eapply Hc; eassumption.
  - intros [= <- <-]. eapply Hc; eassumption.
Qed.

Lemma keeps_depth_pure {A : Type} (m : M A) :
  (forall st r st', m st = (r, st') -> st' = st) -> keeps_depth m.
Proof. intros H st r st' E. rewrite (H _ _ _ E). reflexivity. Qed.

Lemma depth_define (name : pystr) (v : SoorjValue) (env : Environment) :
  depth (define name v env) = depth env.
Proof. destruct env as [[p | ] vs]; reflexivity. Qed.

Lemma depth_assign (name : pystr) (v : SoorjValue) (env env' : Environment) :
  assign env name v = inr env' -> depth env' = depth env.
Proof.
  revert env'. induction env as [vs | p vs IH] using Environment_chain_ind;
    intros env'; simpl; destruct (vs !! name); try discriminate;
    try (intros [= <-]; reflexivity).
  destruct (assign p name v) as [e | p'] eqn:Hp; [discriminate | ].
  intros [= <-]. unfold depth in *. simpl. f_equal. apply IH. reflexivity.
Qed.

Lemma depth_call_environment (prev_env : Environment)
      (params : list pystr) (args : list SoorjValue) :
  depth (call_environment prev_env params args) = S (depth prev_env).
Proof.
  unfold call_environment. generalize (zip params args) as l. intros l.
  assert (G : forall env, depth (fold_left (fun env pa => define (fst pa) (snd pa) env) l env)
                          = depth env).
  { induction l as [|pa l IH]; intros env; simpl; [reflexivity | ].
    rewrite IH. apply depth_define. }
  rewrite G. reflexivity.
Qed.

Lemma keeps_depth_lift_host {A : Type} (r : host_result A) : keeps_depth (lift_host r).
Proof. destruct r as [[cls msg] | a]; [apply keeps_depth_raise | apply keeps_depth_ret]. Qed.

Lemma keeps_depth_builtin (f : builtin) (args : list SoorjValue) :
  keeps_depth (BuiltinFunction_call f args).
Proof.
  destruct f; simpl.
  - intros st r st'. unfold builtin_gre.
    destruct (length args =? 0)%nat; [intros [= <- <-]; reflexivity | ].
    destruct (str_each args) as [[cls msg] | parts]; intros [= <- <-]; reflexivity.
  - destruct args as [|[] [|? ?]]; simpl;
      try apply keeps_depth_ret; try apply keeps_depth_raise.
    destruct (float_of_str s); apply keeps_depth_ret.
  - destruct args as [|[] [|? ?]]; simpl;
      try apply keeps_depth_ret; try apply keeps_depth_raise;
      (apply keeps_depth_bind; [apply keeps_depth_lift_host | intros s'; apply keeps_depth_ret]).
Qed.

Section KeepsDepth.

Variable eval : ASTNode -> M SoorjValue.
Variable exec : ASTNode -> M (option SoorjValue).
Hypothesis eval_keeps : forall node, keeps_depth (eval node).
Hypothesis exec_keeps : forall node, keeps_depth (exec node).

Lemma keeps_depth_execute_each (stmts : list ASTNode) :
  keeps_depth (execute_each exec stmts).
Proof.
  induction stmts as [|s stmts IH]; simpl.
  - apply keeps_depth_ret.
  - apply keeps_depth_bind; [apply exec_keeps | intros _; exact IH].
Qed.

Lemma keeps_depth_evaluate_each (args : list ASTNode) :
  keeps_depth (evaluate_each eval args).
Proof.
  induction args as [|a args IH]; simpl.
  - apply keeps_depth_ret.
  - apply keeps_depth_bind; [apply eval_keeps | intros v].
    apply keeps_depth_bind; [exact IH | intros vs; apply keeps_depth_ret].
Qed.

Lemma restore_after_body (prev_env : Environment) (st2 : Interpreter) :
  depth (environment st2) = S (depth prev_env) ->
  exists p, parent (environment st2) = Some p
            /\ restore_environment prev_env st2 = set_environment p st2
            /\ depth p = depth prev_env.
Proof.
  unfold restore_environment, depth.
  destruct (environment st2) as [[p | ] vs]; simpl; intros H.
  - exists p. repeat split. lia.
  - destruct prev_env as [pp pvs]. simpl in H. discriminate.
Qed.

Lemma keeps_depth_SoorjFunction_call (name : pystr) (params : list pystr)
      (body : list ASTNode) (args : list SoorjValue) :
  keeps_depth (SoorjFunction_call exec name params body args).
Proof.
  intros st r st'. unfold SoorjFunction_call.
  destruct (negb (length args =? length params)%nat); [intros [= <- <-]; reflexivity | ].
  destruct (execute_each exec body _) as [res st2] eqn:Hbody.
  apply keeps_depth_execute_each in Hbody. simpl in Hbody.
  rewrite depth_call_environment in Hbody.
  destruct (restore_after_body _ _ Hbody) as (p & _ & -> & Hp).
  destruct res as [[] | [v | m | c m] | ]; intros [= <- <-]; exact Hp.
Qed.

Lemma keeps_depth_evaluate_node (node : ASTNode) :
  keeps_depth (evaluate_node eval exec node).
Proof.
  destruct node as [f | s | b | | name | lhs op rhs | op operand | target rhs
                    | name arguments | | | | | | ];
    simpl; try apply keeps_depth_ret; try apply keeps_depth_raise.
  - (* Identifier *)
    apply keeps_depth_pure. intros st r st'. unfold lift_env.
    destruct (get (environment st) name); intros [= <- <-]; reflexivity.
  - (* BinaryOp *)
    apply keeps_depth_bind; [apply eval_keeps | intros l].
    apply keeps_depth_bind; [apply eval_keeps | intros r].
    apply keeps_depth_pure. intros st res st' H.
    apply (binary_op_pure _ _ _ _ _ _ H).
  - (* UnaryOp *)
    apply keeps_depth_bind; [apply eval_keeps | intros v].
    destruct (str_eqb op (u "-")).
    + destruct v; try apply keeps_depth_ret; apply keeps_depth_raise.
    + destruct (str_eqb op (u "չի") || str_eqb op (u "not"));
        [apply keeps_depth_ret | apply keeps_depth_raise].
  - (* Assignment *)
    apply keeps_depth_bind; [apply eval_keeps | intros v].
    intros st r st'.
    destruct (assign (environment st) target v) as [e | env'] eqn:Ha.
    + destruct (is_RuntimeError e); intros [= <- <-]; simpl;
        [apply depth_define | reflexivity].
    + intros [= <- <-]. simpl. eapply depth_assign. eassumption.
  - (* FunctionCall *)
    unfold evaluate_function_call.
    apply keeps_depth_bind.
    + apply keeps_depth_pure. intros st r st'. unfold lift_env.
      destruct (get (environment st) name); intros [= <- <-]; reflexivity.
    + intros [ | | | | fn]; try apply keeps_depth_raise.
      apply keeps_depth_bind; [apply keeps_depth_evaluate_each | intros vs].
      destruct fn; simpl;
        [apply keeps_depth_SoorjFunction_call | apply keeps_depth_builtin].
Qed.

Lemma keeps_depth_execute_node (node : ASTNode) :
  keeps_depth (execute_node eval exec node).
Proof.
  destruct node as [f | s | b | | name | lhs op rhs | op operand | target rhs
                    | name arguments | e | c th el | c body | [e | ] | name ps body | stmts ];
    simpl;
    try (apply keeps_depth_bind; [apply eval_keeps | intros v; apply keeps_depth_ret]).
  - (* IfStatement *)
    apply keeps_depth_bind; [apply eval_keeps | intros v].
    destruct (is_truthy v).
    + apply keeps_depth_bind; [apply keeps_depth_execute_each | intros _; apply keeps_depth_ret].
    + destruct el as [[|s rest] | ]; try apply keeps_depth_ret.
      apply keeps_depth_bind;
        [exact (keeps_depth_execute_each (s :: rest)) | intros _; apply keeps_depth_ret].
  - (* WhileStatement *)
    apply keeps_depth_bind; [apply eval_keeps | intros v].
    destruct (negb (is_truthy v)); [apply keeps_depth_ret | ].
    apply keeps_depth_bind; [apply keeps_depth_execute_each | intros _; apply exec_keeps].
  - (* ReturnStatement *)
    apply keeps_depth_bind; [apply eval_keeps | intros v; apply keeps_depth_raise].
  - apply keeps_depth_raise.
  - (* FunctionDeclaration *)
    intros st r st' [= <- <-]. simpl. apply depth_define.
  - (* Program *)
    apply keeps_depth_bind; [apply keeps_depth_execute_each | intros _; apply keeps_depth_ret].
Qed.

End KeepsDepth.

(** Whatever a statement or an expression does, the interpreter's
    environment is afterwards at the depth it was at before. *)
Lemma evaluator_keeps_depth (fuel : nat) :
  (forall node, keeps_depth (evaluate fuel node))
  /\ (forall node, keeps_depth (execute fuel node)).
Proof.
  induction fuel as [|n [IHev IHex]].
  - split; intros node st r st' [= <- <-]; reflexivity.
  - split; intros node; cbn [evaluate execute].
    + apply (keeps_depth_evaluate_node (evaluate n) (execute n) IHev IHex).
    + apply (keeps_depth_execute_node (evaluate n) (execute n) IHev IHex).
Qed.

(** So the [finally] clause of a call finds the environment it created on
    top: what it restores is that environment's parent, the caller's
    environment with the updates the body made to it. *)
Lemma call_restores_callers_environment
      (fuel : nat) (params : list pystr) (body : list ASTNode)
      (args : list SoorjValue) (st st2 : Interpreter) (r : outcome unit) :
  execute_each (execute fuel) body
    (set_environment (call_environment (environment st) params args) st) = (r, st2) ->
  exists p, parent (environment st2) = Some p
            /\ restore_environment (environment st) st2 = set_environment p st2
            /\ depth p = depth (environment st).
Proof.
  intros H. apply restore_after_body.
  apply (keeps_depth_execute_each (execute fuel) (proj2 (evaluator_keeps_depth fuel))) in H.
  simpl in H. rewrite depth_call_environment in H. exact H.
Qed.

(** ** Division and remainder by zero *)

Lemma float_eq_zero (g : float) :
  num_eq (PyFloat g) (PyInt 0) = true -> exists s, g = S754_zero s.
Proof.
  unfold num_eq; simpl. destruct g as [s | s | | s m e]; simpl.
  - eauto.
  - destruct s; discriminate.
  - discriminate.
  - destruct (0 <=? e)%Z eqn:He.
    + destruct (Z.compare_spec (cond_Zopp s (Z.pos m) * 2 ^ e) 0) as [E | E | E];
        try discriminate.
      exfalso. apply Z.leb_le in He.
      assert (0 < 2 ^ e)%Z by (apply Z.pow_pos_nonneg; lia).
      destruct s; simpl in E; nia.
    + destruct s; simpl; discriminate.
Qed.

Lemma int_eq_zero (y : Z) : num_eq (PyInt y) (PyInt 0) = true -> y = 0%Z.
Proof.
  unfold num_eq; simpl. destruct (Z.compare_spec y 0); try discriminate. auto.
Qed.

Lemma float_rem_zero (v : float) (s : bool) :
  float_rem v (S754_zero s) = inl (ZeroDivisionError, u "float modulo").
Proof. reflexivity. Qed.

(** C10, as the code has it: with a zero right operand, [/] raises the
    interpreter's "Division by zero"; [%] has no guard and ends with an
    exception of the host that is no [RuntimeError]: its division-by-zero
    exception, or, when the left operand is a host integer too large for a
    double and the zero is a float, the overflow exception of converting
    that operand, which the host does first. *)
Theorem zero_divisor_guard_only_for_division (a b : pynum) (st : Interpreter) :
  num_eq b (PyInt 0) = true ->
  binary_op (u "/") (VNumber a) (VNumber b) st
    = (Raises (RuntimeError (u "Division by zero")), st)
  /\ exists msg,
       binary_op (u "%") (VNumber a) (VNumber b) st
         = (Raises (Builtin (modulo_by_zero_exception a b) msg), st)
       /\ is_RuntimeError (Builtin (modulo_by_zero_exception a b) msg) = false.
Proof.
  intros Hb. split.
  - change (binary_op (u "/") (VNumber a) (VNumber b) st)
      with ((if num_eq b (PyInt 0)
             then raise (RuntimeError (u "Division by zero"))
             else let* r := lift_host (py_truediv a b) in ret (VNumber r)) st).
    rewrite Hb. reflexivity.
  - change (binary_op (u "%") (VNumber a) (VNumber b) st)
      with ((let* r := lift_host (py_mod a b) in ret (VNumber r)) st).
    unfold bind.
    destruct b as [y | g].
    + apply int_eq_zero in Hb. subst y. destruct a as [x | f].
      * eexists. split; reflexivity.
      * eexists. split; reflexivity.
    + apply float_eq_zero in Hb. destruct Hb as [s ->]. destruct a as [x | f].
      * unfold modulo_by_zero_exception, py_mod, with_doubles, to_double, host_bind.
        destruct (float_of_int x) as [[cls msg] | v] eqn:Hx.
        -- unfold float_of_int in Hx.
           destruct (binary_normalize prec emax x 0 false); inversion Hx; subst.
           eexists. split; reflexivity.
        -- rewrite float_rem_zero. eexists. split; reflexivity.
      * eexists. split; reflexivity.
Qed.

Lemma zero_divisor_guard_only_for_division_witness :
  binary_op (u "/") (VNumber (PyFloat (of_decimal false 1 0)))
            (VNumber (PyFloat (S754_zero false))) Interpreter_init
    = (Raises (RuntimeError (u "Division by zero")), Interpreter_init).
Proof.
  exact (proj1 (zero_divisor_guard_only_for_division
                  (PyFloat (of_decimal false 1 0)) (PyFloat (S754_zero false))
                  Interpreter_init eq_refl)).
Defined.

(** C10, the claim fails for [%]: with the host integer [2^1024] on the
    left and the float zero on the right, the host raises its overflow
    exception, not its division-by-zero exception; the program that builds
    that integer from [թիվ(այո)] ends in the same way. *)
Lemma modulo_overflow_counterexample :
  num_eq (PyFloat (S754_zero false)) (PyInt 0) = true
  /\ binary_op (u "%") (VNumber (PyInt (2 ^ 1024))) (VNumber (PyFloat (S754_zero false)))
               Interpreter_init
     = (Raises (Builtin OverflowError (u "int too large to convert to float")),
        Interpreter_init)
  /\ run_program 1100 modulo_program
     = Some [u "Error: int too large to convert to float"].
Proof. by_evaluation. Qed.

(** ** Decimal digits of an integer, written and read *)

Lemma take_digits_of_uint_acc (d : Decimal.uint) (acc : positive) (cnt : N) :
  take_digits (digits_of_uint d) (Npos acc) cnt
    = (Npos (Pos.of_uint_acc d acc), cnt + N.of_nat (length (digits_of_uint d)), []).
Proof.
  revert acc cnt. induction d as [ | d IH | d IH | d IH | d IH | d IH | d IH | d IH
                                   | d IH | d IH | d IH ]; intros acc cnt;
    cbn [digits_of_uint take_digits Pos.of_uint_acc length];
    [ f_equal; f_equal; simpl; lia | .. ];
    (change (is_ascii_digit _) with true; cbn iota;
     match goal with
     | |- take_digits _ ?a _ = (Npos (Pos.of_uint_acc _ ?x), _, _) =>
       replace a with (Npos x) by (simpl; lia)
     end; rewrite IH; f_equal; f_equal; lia).
Qed.

Lemma take_digits_of_uint (d : Decimal.uint) (cnt : N) :
  take_digits (digits_of_uint d) 0 cnt
    = (Pos.of_uint d, cnt + N.of_nat (length (digits_of_uint d)), []).
Proof.
  revert cnt. induction d as [ | d IH | d IH | d IH | d IH | d IH | d IH | d IH
                               | d IH | d IH | d IH ]; intros cnt;
    cbn [digits_of_uint take_digits Pos.of_uint length];
    [ f_equal; f_equal; simpl; lia
    | change (is_ascii_digit _) with true; cbn iota; change (0 * 10 + (48 - 48)) with 0;
      rewrite IH; f_equal; f_equal; lia
    | .. ];
    (change (is_ascii_digit _) with true; cbn iota;
     match goal with
     | |- take_digits _ ?a _ = (Npos (Pos.of_uint_acc _ ?x), _, _) =>
       change a with (Npos x)
     end; rewrite take_digits_of_uint_acc; f_equal; f_equal; lia).
Qed.

Lemma take_digits_str_of_N (n : N) :
  take_digits (str_of_N n) 0 0 = (n, N.of_nat (length (str_of_N n)), []).
Proof.
  unfold str_of_N. rewrite take_digits_of_uint.
  change (Pos.of_uint (N.to_uint n)) with (N.of_uint (N.to_uint n)).
  rewrite DecimalN.Unsigned.of_to. reflexivity.
Qed.

Lemma digits_of_uint_digits (d : Decimal.uint) :
  forallb is_ascii_digit (digits_of_uint d) = true.
Proof. induction d; simpl; auto. Qed.

Lemma str_of_N_nonempty (n : N) : str_of_N n <> [].
Proof.
  unfold str_of_N. destruct n as [|p]; [discriminate | ].
  intros E. pose proof (DecimalN.Unsigned.of_to (Npos p)) as H.
  destruct (N.to_uint (N.pos p)); discriminate.
Qed.

Lemma lstrip_no_space (s : list N) :
  forallb (fun c => negb (is_py_space c)) s = true -> lstrip s = s.
Proof.
  destruct s as [|c s]; simpl; [reflexivity | ].
  destruct (is_py_space c); [discriminate | reflexivity].
Qed.

Lemma strip_no_space (s : list N) :
  forallb (fun c => negb (is_py_space c)) s = true -> strip s = s.
Proof.
  intros H. unfold strip. rewrite (lstrip_no_space s H).
  rewrite lstrip_no_space; [apply rev_involutive | ].
  apply forallb_forall. intros c Hc. apply in_rev in Hc.
  exact (proj1 (forallb_forall _ _) H c Hc).
Qed.

(** A string of ASCII digits, with or without a minus sign in front, goes
    through [float] as it is: nothing to transform, strip or remove. *)
Lemma float_of_str_plain (s : list N) :
  forallb (fun c => is_ascii_digit c || (c =? 45)) s = true ->
  float_of_str s =
    match parse_decimal s with
    | Some f => Some f
    | None => parse_inf_or_nan s
    end.
Proof.
  intros H. unfold float_of_str.
  assert (Hall : forall c, In c s -> is_ascii_digit c || (c =? 45) = true)
    by (apply forallb_forall; exact H).
  assert (Hcases : forall c, In c s -> (c <? 128) = true /\ negb (is_py_space c) = true
                                       /\ (95 =? c) = false).
  { intros c Hc. specialize (Hall c Hc). unfold is_ascii_digit, is_py_space in *.
    apply orb_true_iff in Hall. rewrite andb_true_iff, !N.leb_le, N.eqb_eq in Hall.
    repeat split.
    - apply N.ltb_lt. lia.
    - destruct (N.leb_spec 9 c), (N.leb_spec c 13), (N.eqb_spec c 32); simpl;
        try reflexivity; lia.
    - apply N.eqb_neq. lia. }
  assert (Ht : transform s = s).
  { unfold transform. replace (forallb (fun c => c <? 128) s) with true; [reflexivity | ].
    symmetry. apply forallb_forall. intros c Hc. apply (Hcases c Hc). }
  rewrite Ht, strip_no_space.
  - replace (char_in 95 s) with false; [reflexivity | ].
    symmetry. unfold char_in. apply not_true_is_false. intros E.
    apply existsb_exists in E. destruct E as (c & Hc & E).
    rewrite (proj2 (proj2 (Hcases c Hc))) in E. discriminate.
  - apply forallb_forall. intros c Hc. apply (Hcases c Hc).
Qed.

Lemma take_sign_digit (c : N) (s : list N) :
  is_ascii_digit c = true -> take_sign (c :: s) = (false, c :: s).
Proof.
  intros H. unfold is_ascii_digit in H.
  rewrite andb_true_iff, !N.leb_le in H.
  assert (c <> 45 /\ c <> 43) as [H45 H43] by lia.
  unfold take_sign.
  destruct c as [|p]; [reflexivity | ].
  repeat (destruct p as [p | p | ]; try reflexivity; try (exfalso; lia)).
Qed.

Lemma parse_decimal_digits (neg : bool) (n : N) :
  parse_decimal ((if neg then [45] else []) ++ str_of_N n)
    = Some (of_decimal neg n 0).
Proof.
  assert (Hd : forallb is_ascii_digit (str_of_N n) = true) by apply digits_of_uint_digits.
  pose proof (str_of_N_nonempty n) as Hne.
  pose proof (take_digits_str_of_N n) as Htd.
  unfold parse_decimal.
  assert (Hs : take_sign ((if neg then [45] else []) ++ str_of_N n) = (neg, str_of_N n)).
  { destruct neg; [reflexivity | ]. simpl.
    destruct (str_of_N n) as [|c s]; [contradiction | ].
    apply take_sign_digit. simpl in Hd. apply andb_true_iff in Hd. apply Hd. }
  rewrite Hs, Htd.
  destruct (str_of_N n) as [|c s]; [contradiction | ].
  cbn [length]. replace (N.of_nat (S (length s)) + 0 =? 0) with false
    by (symmetry; apply N.eqb_neq; lia).
  f_equal.
Qed.

(** [float(str(z))] for an integer [z]: the double nearest to [z]. *)
Lemma float_of_str_of_int (z : Z) :
  float_of_str (str_of_Z z) = Some (of_decimal (z <? 0)%Z (Z.abs_N z) 0).
Proof.
  assert (Hshape : str_of_Z z = (if (z <? 0)%Z then [45] else []) ++ str_of_N (Z.abs_N z)).
  { destruct z; reflexivity. }
  rewrite float_of_str_plain.
  - rewrite Hshape, parse_decimal_digits. reflexivity.
  - rewrite Hshape. rewrite forallb_app. apply andb_true_iff. split.
    + destruct (z <? 0)%Z; reflexivity.
    + apply forallb_forall. intros c Hc.
      rewrite (proj1 (forallb_forall _ _) (digits_of_uint_digits _) c Hc). reflexivity.
Qed.

(** ** Number to string and back *)

(** When [str] raises: only for a host integer, of more than
    [max_str_digits] digits, and then it is the host's [ValueError]. *)
Lemma int_str_raises (z : Z) (cls : builtin_exception) (msg : list N) :
  int_str z = inl (cls, msg) ->
  cls = ValueError /\ max_str_digits < N.of_nat (length (str_of_N (Z.abs_N z))).
Proof.
  unfold int_str.
  destruct (max_str_digits <? N.of_nat (length (str_of_N (Z.abs_N z)))) eqn:H;
    [ | discriminate].
  unfold raise_host. intros E. split; [congruence | apply N.ltb_lt; exact H].
Qed.

Lemma py_str_raises (x : pyobject) (cls : builtin_exception) (msg : list N) :
  py_str x = inl (cls, msg) ->
  cls = ValueError
  /\ exists z, x = PyNumber (PyInt z)
               /\ max_str_digits < N.of_nat (length (str_of_N (Z.abs_N z))).
Proof.
  destruct x as [ | b | [z | f] | t | g]; try discriminate.
  intros H. apply int_str_raises in H. destruct H as [-> H]. eauto.
Qed.

Lemma SoorjValue_str_raises (v : SoorjValue) (cls : builtin_exception) (msg : list N) :
  SoorjValue_str v = inl (cls, msg) ->
  cls = ValueError
  /\ exists z, v = VNumber (PyInt z)
               /\ max_str_digits < N.of_nat (length (str_of_N (Z.abs_N z))).
Proof.
  destruct v as [ | b | [z | f] | t | g]; try discriminate.
  intros H. apply int_str_raises in H. destruct H as [-> H]. eauto.
Qed.

(** The host reads its rendering of the doubles that are not finite
    numbers, and of the zeros, back as they are. *)
Lemma float_roundtrip_special (f : float) :
  match f with S754_finite _ _ _ => False | _ => True end ->
  float_of_str (float_repr f) = Some f.
Proof. destruct f as [[|] | [|] | | s m e]; intros H; [reflexivity .. | contradiction]. Qed.

(** C9, as the code has it: for a number held as a double that the host
    reads back from its own rendering, [թիվ(բառ(n))] is [n]; for a number
    held as a host integer it is the double nearest to that integer, which
    the host's float parser makes of its decimal digits; and for a host
    integer of more than [max_str_digits] digits [բառ] raises the host's
    [ValueError], so that there is nothing to read back. *)
Theorem tiv_of_bar_of_number (n : pynum) (st : Interpreter) :
  (forall f, n = PyFloat f -> float_of_str (float_repr f) = Some f) ->
  match num_str n with
  | inr s =>
    builtin_bar [VNumber n] st = (Returns (VString s), st)
    /\ builtin_tiv [VString s] st
       = (Returns (VNumber
                     match n with
                     | PyFloat f => n
                     | PyInt z => PyFloat (of_decimal (z <? 0)%Z (Z.abs_N z) 0)
                     end), st)
  | inl (cls, msg) =>
    builtin_bar [VNumber n] st = (Raises (Builtin cls msg), st)
    /\ cls = ValueError
    /\ exists z, n = PyInt z /\ max_str_digits < N.of_nat (length (str_of_N (Z.abs_N z)))
  end.
Proof.
  intros Hrt.
  assert (Hbar : builtin_bar [VNumber n] st
                 = match num_str n with
                   | inr s => (Returns (VString s), st)
                   | inl (cls, msg) => (Raises (Builtin cls msg), st)
                   end).
  { cbn [builtin_bar value_of py_str]. unfold bind, lift_host.
    destruct (num_str n) as [[cls msg] | s]; reflexivity. }
  destruct (num_str n) as [[cls msg] | s] eqn:Hs.
  - split; [exact Hbar | ].
    destruct n as [z | f]; [ | discriminate].
    apply int_str_raises in Hs. destruct Hs as [-> Hs]. eauto.
  - split; [exact Hbar | ].
    destruct n as [z | f]; cbn [builtin_tiv num_str] in *.
    + unfold int_str in Hs.
      destruct (max_str_digits <? N.of_nat (length (str_of_N (Z.abs_N z))));
        [discriminate | ].
      injection Hs as <-. rewrite float_of_str_of_int. reflexivity.
    + injection Hs as <-. rewrite (Hrt f eq_refl). reflexivity.
Qed.

Lemma tiv_of_bar_of_number_witness :
  builtin_bar [VNumber (PyFloat (of_decimal false 1 (-1)))] Interpreter_init
    = (Returns (VString (float_repr (of_decimal false 1 (-1)))), Interpreter_init)
  /\ builtin_tiv [VString (float_repr (of_decimal false 1 (-1)))] Interpreter_init
     = (Returns (VNumber (PyFloat (of_decimal false 1 (-1)))), Interpreter_init).
Proof.
  refine (tiv_of_bar_of_number (PyFloat (of_decimal false 1 (-1))) Interpreter_init _).
  intros f [= <-]. vm_compute. reflexivity.
Defined.

(** C9, the claim fails: the host integer [2^53 + 1], which the program
    builds from [թիվ(այո)], comes back from [թիվ(բառ(...))] as the double
    [2^53]; the two print differently and [==] tells them apart. *)
Lemma roundtrip_counterexample :
  builtin_bar [VNumber (PyInt 9007199254740993)] Interpreter_init
    = (Returns (VString (u "9007199254740993")), Interpreter_init)
  /\ builtin_tiv [VString (u "9007199254740993")] Interpreter_init
    = (Returns (VNumber (PyFloat (of_decimal false 9007199254740992 0))), Interpreter_init)
  /\ py_eq (PyNumber (PyFloat (of_decimal false 9007199254740992 0)))
           (PyNumber (PyInt 9007199254740993)) = false
  /\ run_program 80 roundtrip_program
     = Some [u "9007199254740993"; u "9007199254740992.0"; u "ոչ"].
Proof. by_evaluation. Qed.

(** ** The scanner *)

Lemma read_number_from_spec (s : list N) (ln col : N) (acc str : list N)
      (c : Lexer.Cursor) :
  Lexer.read_number_from s ln col acc = (str, c) ->
  exists run, str = acc ++ run /\ s = run ++ Lexer.rest c
              /\ forallb digit_or_dot run = true.
Proof.
  revert ln col acc. induction s as [|ch r IH]; intros ln col acc; simpl.
  - intros [= <- <-]. exists []. rewrite app_nil_r. auto.
  - destruct (isdigit ch || (ch =? 46)) eqn:Hch.
    + destruct (Lexer.step ch ln col) as [ln' col']. intros H.
      destruct (IH _ _ _ H) as (run & -> & Hr & Hall).
      exists (ch :: run). rewrite <- app_assoc. simpl. repeat split.
      * f_equal. exact Hr.
      * unfold digit_or_dot at 1. rewrite Hch. exact Hall.
    + intros [= <- <-]. exists []. rewrite app_nil_r. auto.
Qed.

Lemma read_identifier_from_suffix (s : list N) (ln col : N) (acc str : list N)
      (c : Lexer.Cursor) :
  Lexer.read_identifier_from s ln col acc = (str, c) ->
  exists run, s = run ++ Lexer.rest c
              /\ (forall ch r, s = ch :: r -> Lexer.is_identifier_char ch = true -> run <> []).
Proof.
  revert ln col acc. induction s as [|ch r IH]; intros ln col acc; simpl.
  - intros [= <- <-]. exists []. split; [reflexivity | discriminate].
  - destruct (Lexer.is_identifier_char ch) eqn:Hch.
    + destruct (Lexer.step ch ln col) as [ln' col']. intros H.
      destruct (IH _ _ _ H) as (run & Hr & _).
      exists (ch :: run). split; [simpl; f_equal; exact Hr | discriminate].
    + intros [= <- <-]. exists []. split; [reflexivity | ].
      intros ch' r' [= <- <-]. congruence.
Qed.

Lemma skip_whitespace_from_suffix (s : list N) (ln col : N) :
  exists run, s = run ++ Lexer.rest (Lexer.skip_whitespace_from s ln col).
Proof.
  revert ln col. induction s as [|ch r IH]; intros ln col;
    cbn [Lexer.skip_whitespace_from].
  - exists []. reflexivity.
  - destruct (char_in ch [32; 9; 13]).
    + destruct (Lexer.step ch ln col) as [ln' col'].
      destruct (IH ln' col') as (run & Hr). exists (ch :: run). simpl. f_equal. exact Hr.
    + exists []. reflexivity.
Qed.

Lemma skip_comment_from_suffix (s : list N) (ln col : N) :
  exists run, s = run ++ Lexer.rest (Lexer.skip_comment_from s ln col)
              /\ (forall ch r, s = ch :: r -> ch <> 10 -> run <> []).
Proof.
  revert ln col. induction s as [|ch r IH]; intros ln col; simpl.
  - exists []. split; [reflexivity | discriminate].
  - destruct (ch =? 10) eqn:Hch.
    + exists []. split; [reflexivity | ].
      intros ch' r' [= <- <-] Hne. apply N.eqb_eq in Hch. contradiction.
    + destruct (Lexer.step ch ln col) as [ln' col'].
      destruct (IH ln' col') as (run & Hr & _).
      exists (ch :: run). split; [simpl; f_equal; exact Hr | discriminate].
Qed.

Lemma read_string_from_suffix (q : N) (s : list N) (ln col : N) (acc str : list N)
      (c : Lexer.Cursor) :
  Lexer.read_string_from q s ln col acc = inr (str, c) ->
  exists run, s = run ++ Lexer.rest c.
Proof.
  revert ln col acc.
  assert (G : forall n s, (length s <= n)%nat -> forall ln col acc,
               Lexer.read_string_from q s ln col acc = inr (str, c) ->
               exists run, s = run ++ Lexer.rest c).
  { induction n as [|n IH]; intros s0 Hlen ln col acc.
    - destruct s0; [ | simpl in Hlen; lia]. simpl. intros [= <- <-]. exists []. reflexivity.
    - destruct s0 as [|ch r]; simpl.
      + intros [= <- <-]. exists []. reflexivity.
      + destruct (ch =? q).
        * intros [= <- <-]. exists []. reflexivity.
        * destruct (ch =? 92).
          -- destruct (Lexer.step ch ln col) as [ln1 col1].
             destruct r as [|nx r'].
             ++ intros [= <- <-]. exists [ch]. reflexivity.
             ++ destruct (Lexer.step nx ln1 col1) as [ln2 col2]. intros H.
                apply IH in H; [ | simpl in Hlen; lia].
                destruct H as (run & Hr). exists (ch :: nx :: run). simpl. do 2 f_equal.
                exact Hr.
          -- destruct (negb (Lexer.is_valid_string_char ch)); [discriminate | ].
             destruct (Lexer.step ch ln col) as [ln' col']. intros H.
             apply IH in H; [ | simpl in Hlen; lia].
             destruct H as (run & Hr). exists (ch :: run). simpl. f_equal. exact Hr. }
  intros ln col acc. apply (G (length s) s). lia.
Qed.

Lemma rest_advance (c : Lexer.Cursor) (ch : N) (r : list N) :
  Lexer.rest c = ch :: r -> Lexer.rest (Lexer.advance c) = r.
Proof.
  intros H. unfold Lexer.advance. rewrite H.
  destruct (Lexer.step ch (Lexer.cur_line c) (Lexer.cur_column c)). reflexivity.
Qed.

Lemma rest_advance_suffix (c : Lexer.Cursor) :
  exists run, Lexer.rest c = run ++ Lexer.rest (Lexer.advance c).
Proof.
  destruct (Lexer.rest c) as [|ch r] eqn:H.
  - exists []. unfold Lexer.advance. rewrite H. simpl. symmetry. exact H.
  - exists [ch]. rewrite (rest_advance c ch r H). reflexivity.
Qed.

Lemma keyword_is_not_NUMBER (s : list N) (t : Lexer.TokenType) :
  Lexer.lookup_str s Lexer.keywords = Some t -> t <> Lexer.NUMBER.
Proof.
  unfold Lexer.keywords. cbn [Lexer.lookup_str].
  repeat match goal with
         | |- context [if str_eqb s ?k then _ else _] => destruct (str_eqb s k)
         end; intros [= <-]; discriminate.
Qed.

Lemma two_chars_is_not_NUMBER (s : list N) (t : Lexer.TokenType) :
  Lexer.lookup_str s Lexer.two_chars = Some t -> t <> Lexer.NUMBER.
Proof.
  unfold Lexer.two_chars. cbn [Lexer.lookup_str].
  repeat match goal with
         | |- context [if str_eqb s ?k then _ else _] => destruct (str_eqb s k)
         end; intros [= <-]; discriminate.
Qed.

Lemma single_chars_is_not_NUMBER (ch : N) (t : Lexer.TokenType) :
  Lexer.lookup_char ch Lexer.single_chars = Some t -> t <> Lexer.NUMBER.
Proof.
  unfold Lexer.single_chars. cbn [Lexer.lookup_char].
  repeat match goal with
         | |- context [if ch =? ?k then _ else _] => destruct (ch =? k)
         end; intros [= <-]; discriminate.
Qed.

(** What one pass of the loop does: it consumes at least one character,
    and a number token it appends is a run that starts where the pass
    started. *)
Lemma scan_one_spec (ch : N) (c c' : Lexer.Cursor) (ts : list Lexer.Token) :
  Lexer.current_char c = Some ch ->
  Lexer.scan_one ch c = inr (ts, c') ->
  (exists run, run <> [] /\ Lexer.rest c = run ++ Lexer.rest c')
  /\ Forall (fun t => Lexer.type t = Lexer.NUMBER ->
                      number_run (Lexer.value t) = true
                      /\ exists post, Lexer.rest c = Lexer.value t ++ post) ts.
Proof.
  unfold Lexer.current_char. destruct (Lexer.rest c) as [|ch0 r] eqn:Hrest; [discriminate | ].
  intros [= ->]. unfold Lexer.scan_one.
  assert (Hadv : Lexer.rest (Lexer.advance c) = r) by (eapply rest_advance; eassumption).
  assert (Hone : forall t v, Lexer.advance c = c' -> t <> Lexer.NUMBER ->
            (exists run, run <> [] /\ ch :: r = run ++ Lexer.rest c')
            /\ Forall (fun t => Lexer.type t = Lexer.NUMBER ->
                      number_run (Lexer.value t) = true
                      /\ exists post, ch :: r = Lexer.value t ++ post)
                  [Lexer.mkToken t v (Lexer.cur_line c) (Lexer.cur_column c)]).
  { intros t v <- Ht. split.
    - exists [ch]. split; [discriminate | rewrite Hadv; reflexivity].
    - constructor; [ | constructor]. simpl. intros E. contradiction. }
  destruct (ch =? 10) eqn:Hnl.
  { intros [= <- <-]. apply Hone; [reflexivity | discriminate]. }
  destruct (ch =? 35).
  { intros [= <- <-]. split; [ | constructor].
    rewrite Hrest.
    destruct (skip_comment_from_suffix (ch :: r) (Lexer.cur_line c) (Lexer.cur_column c))
      as (run & Hr & Hne).
    exists run. split; [ | exact Hr].
    apply (Hne ch r eq_refl). intros ->. discriminate. }
  destruct (isdigit ch) eqn:Hdig.
  { unfold Lexer.read_number. rewrite Hrest. cbn [Lexer.read_number_from].
    rewrite Hdig. cbn [orb].
    destruct (Lexer.step ch (Lexer.cur_line c) (Lexer.cur_column c)) as [ln' col'].
    destruct (Lexer.read_number_from r ln' col' ([] ++ [ch])) as [str c1] eqn:Hread.
    intros [= <- <-].
    destruct (read_number_from_spec _ _ _ _ _ _ Hread) as (run & -> & Hr & Hall).
    split.
    - exists (ch :: run). split; [discriminate | simpl; f_equal; exact Hr].
    - constructor; [ | constructor]. simpl. intros _. split.
      + rewrite Hdig. unfold digit_or_dot at 1. rewrite Hdig. simpl. exact Hall.
      + exists (Lexer.rest c1). f_equal. exact Hr. }
  destruct (char_in ch [34; 39]).
  { unfold Lexer.read_string. rewrite Hrest.
    destruct (Lexer.read_string_from ch (Lexer.rest (Lexer.advance c))
                (Lexer.cur_line (Lexer.advance c)) (Lexer.cur_column (Lexer.advance c)) [])
      as [msg | [str c2]] eqn:Hread; [discriminate | ].
    intros [= <- <-].
    destruct (read_string_from_suffix _ _ _ _ _ _ _ Hread) as (run & Hr).
    rewrite Hadv in Hr. split.
    - destruct (Lexer.current_char c2) as [q | ].
      + destruct (q =? ch).
        * destruct (rest_advance_suffix c2) as (run2 & Hr2).
          exists (ch :: run ++ run2). split; [discriminate | ].
          simpl. f_equal. rewrite <- app_assoc, <- Hr2. exact Hr.
        * exists (ch :: run). split; [discriminate | simpl; f_equal; exact Hr].
      + exists (ch :: run). split; [discriminate | simpl; f_equal; exact Hr].
    - constructor; [ | constructor]. simpl. discriminate. }
  destruct (Lexer.is_armenian_char ch) eqn:Harm.
  { unfold Lexer.read_identifier. rewrite Hrest.
    destruct (Lexer.read_identifier_from (ch :: r) (Lexer.cur_line c) (Lexer.cur_column c) [])
      as [ident c1] eqn:Hread.
    destruct (read_identifier_from_suffix _ _ _ _ _ _ Hread) as (run & Hr & Hne).
    assert (Hrun : exists run, run <> [] /\ ch :: r = run ++ Lexer.rest c1).
    { exists run. split; [ | exact Hr]. apply (Hne ch r eq_refl). exact Harm. }
    destruct (Lexer.lookup_str ident Lexer.keywords) as [t | ] eqn:Hk;
      intros [= <- <-]; (split; [exact Hrun | ]);
      (constructor; [ | constructor]); cbn [Lexer.type].
    + intros E. exfalso. exact (keyword_is_not_NUMBER _ _ Hk E).
    + discriminate. }
  set (two := if char_in ch (u "=!<>") then _ else None).
  assert (Htwo : forall t, two = Some t -> Lexer.type t <> Lexer.NUMBER).
  { subst two. intros t. destruct (char_in ch (u "=!<>")); [ | discriminate].
    destruct (Lexer.lookup_str _ Lexer.two_chars) as [ty | ] eqn:Hk; [ | discriminate].
    intros [= <-]. simpl. eapply two_chars_is_not_NUMBER. eassumption. }
  destruct two as [t | ].
  { intros [= <- <-]. split.
    - destruct (rest_advance_suffix (Lexer.advance c)) as (run2 & Hr2).
      exists (ch :: run2). split; [discriminate | ].
      simpl. f_equal. rewrite <- Hr2. symmetry. exact Hadv.
    - constructor; [ | constructor]. intros E. exfalso. exact (Htwo t eq_refl E). }
  destruct (Lexer.lookup_char ch Lexer.single_chars) as [t | ] eqn:Hs.
  { intros [= <- <-]. apply Hone; [reflexivity | ].
    eapply single_chars_is_not_NUMBER. eassumption. }
  destruct (ch =? 61).
  { intros [= <- <-]. apply Hone; [reflexivity | discriminate]. }
  destruct (ch =? 60).
  { intros [= <- <-]. apply Hone; [reflexivity | discriminate]. }
  destruct (ch =? 62).
  { intros [= <- <-]. apply Hone; [reflexivity | discriminate]. }
  discriminate.
Qed.

Lemma skip_whitespace_suffix (c : Lexer.Cursor) :
  exists run, Lexer.rest c = run ++ Lexer.rest (Lexer.skip_whitespace c).
Proof. apply skip_whitespace_from_suffix. Qed.

Lemma tokenize_loop_numbers (source : list N) (fuel : nat) :
  forall (c : Lexer.Cursor) (tokens result : list Lexer.Token),
    (exists pre, source = pre ++ Lexer.rest c) ->
    Forall (fun t => Lexer.type t = Lexer.NUMBER ->
                     number_run (Lexer.value t) = true
                     /\ occurs_in (Lexer.value t) source) tokens ->
    Lexer.tokenize_loop fuel c tokens = Some (inr result) ->
    Forall (fun t => Lexer.type t = Lexer.NUMBER ->
                     number_run (Lexer.value t) = true
                     /\ occurs_in (Lexer.value t) source) result.
Proof.
  assert (Hfinish : forall tokens c',
             Forall (fun t => Lexer.type t = Lexer.NUMBER ->
                              number_run (Lexer.value t) = true
                              /\ occurs_in (Lexer.value t) source) tokens ->
             Forall (fun t => Lexer.type t = Lexer.NUMBER ->
                              number_run (Lexer.value t) = true
                              /\ occurs_in (Lexer.value t) source)
                    (tokens ++ [Lexer.mkToken Lexer.EOF [] (Lexer.cur_line c')
                                              (Lexer.cur_column c')])).
  { intros tokens c' H. apply Forall_app. split; [exact H | ].
    constructor; [ | constructor]. simpl. discriminate. }
  induction fuel as [|fuel IH]; intros c tokens result (pre & Hpre) Htok;
    cbn [Lexer.tokenize_loop];
    (destruct (Lexer.rest c) as [|c0 r0] eqn:Hrest;
     [ intros [= <-]; apply Hfinish; exact Htok | ]);
    (destruct (Lexer.current_char (Lexer.skip_whitespace c)) as [ch | ] eqn:Hcur;
     [ | intros [= <-]; apply Hfinish; exact Htok ]);
    (destruct (Lexer.scan_one ch (Lexer.skip_whitespace c)) as [msg | [ts c']] eqn:Hscan;
     [ discriminate | ]).
  - discriminate.
  - destruct (scan_one_spec _ _ _ _ Hcur Hscan) as ((run & _ & Hrun) & Hts).
    destruct (skip_whitespace_suffix c) as (ws & Hws).
    apply IH.
    + exists (pre ++ ws ++ run). rewrite Hpre, <- Hrest, Hws, Hrun.
      rewrite <- !app_assoc. reflexivity.
    + apply Forall_app. split; [exact Htok | ].
      eapply Forall_impl; [exact Hts | ].
      intros t Ht E. destruct (Ht E) as (Hnum & post & Hpost). split; [exact Hnum | ].
      exists (pre ++ ws), post. rewrite Hpre, <- Hrest, Hws, Hpost.
      rewrite <- !app_assoc. reflexivity.
Qed.

Lemma tokenize_loop_total (fuel : nat) :
  forall (c : Lexer.Cursor) (tokens : list Lexer.Token),
    (length (Lexer.rest c) <= fuel)%nat ->
    Lexer.tokenize_loop fuel c tokens <> None.
Proof.
  induction fuel as [|fuel IH]; intros c tokens Hlen; cbn [Lexer.tokenize_loop];
    (destruct (Lexer.rest c) as [|c0 r0] eqn:Hrest; [discriminate | ]).
  - simpl in Hlen. lia.
  - destruct (Lexer.current_char (Lexer.skip_whitespace c)) as [ch | ] eqn:Hcur;
      [ | discriminate].
    destruct (Lexer.scan_one ch (Lexer.skip_whitespace c)) as [msg | [ts c']] eqn:Hscan;
      [discriminate | ].
    destruct (scan_one_spec _ _ _ _ Hcur Hscan) as ((run & Hne & Hrun) & _).
    destruct (skip_whitespace_suffix c) as (ws & Hws).
    apply IH.
    assert (E : length (Lexer.rest c) = (length ws + (length run + length (Lexer.rest c')))%nat).
    { rewrite Hws, Hrun, !length_app. reflexivity. }
    rewrite Hrest in E. simpl in E, Hlen.
    destruct run as [|x run]; [contradiction | ]. simpl in E. lia.
Qed.

(** The scanner always comes to an end: with the tokens or with the
    message of its [ValueError]. *)
Lemma tokenize_total (source : list N) : Lexer.tokenize source <> None.
Proof. apply tokenize_loop_total. simpl. lia. Qed.

(** C8, as the code has it: every number token the scanner produces is a
    run of digits and full stops, in any number, that starts with a
    digit (as the host's [str.isdigit] has it) and stands in the source as
    it is. *)
Theorem number_tokens_are_digit_led_runs (source : list N) (tokens : list Lexer.Token) :
  Lexer.tokenize source = Some (inr tokens) ->
  Forall (fun t => Lexer.type t = Lexer.NUMBER ->
                   number_run (Lexer.value t) = true
                   /\ occurs_in (Lexer.value t) source) tokens.
Proof.
  intros H. eapply tokenize_loop_numbers; [ | constructor | exact H].
  exists []. reflexivity.
Qed.

Lemma number_tokens_are_digit_led_runs_witness :
  Forall (fun t => Lexer.type t = Lexer.NUMBER ->
                   number_run (Lexer.value t) = true
                   /\ occurs_in (Lexer.value t) (u "ա = 10.5"))
         [ Lexer.mkToken Lexer.IDENTIFIER (u "ա") 1 1;
           Lexer.mkToken Lexer.ASSIGN (u "=") 1 3;
           Lexer.mkToken Lexer.NUMBER (u "10.5") 1 5;
           Lexer.mkToken Lexer.EOF [] 1 9 ].
Proof.
  apply (number_tokens_are_digit_led_runs (u "ա = 10.5")).
  vm_compute. reflexivity.
Defined.

(** C8, the claim fails: [1.2.3] is scanned as one number token; its
    lexeme has two full stops and the parser's [float] does not read it. *)
Lemma two_dots_counterexample :
  Lexer.tokenize (u "1.2.3")
    = Some (inr [ Lexer.mkToken Lexer.NUMBER (u "1.2.3") 1 1;
                  Lexer.mkToken Lexer.EOF [] 1 6 ])
  /\ count_dots (u "1.2.3") = 2%nat
  /\ float_of_str (u "1.2.3") = None.
Proof. by_evaluation. Qed.

(* ===================================================================== *)
(** * Further properties *)
(* ===================================================================== *)

(** ** Reading and writing variables *)

Lemma get_chain_lookup (env : Environment) (name : pystr) :
  get env name = match chain_lookup name (frames env) with
                 | Some v => inr v
                 | None => inl (undefined_variable name)
                 end.
Proof.
  induction env as [vs | p vs IH] using Environment_chain_ind; simpl;
    destruct (vs !! name); try reflexivity. exact IH.
Qed.

Lemma chain_lookup_nearest (name : pystr) (fs : list (gmap (list N) SoorjValue)) :
  chain_lookup name fs =
    match nearest name fs with
    | Some k => match fs !! k with
                | Some f => f !! name
                | None => None
                end
    | None => None
    end.
Proof.
  induction fs as [|f fs IH]; simpl; [reflexivity | ].
  destruct (f !! name) as [v | ] eqn:Hf; simpl; [symmetry; exact Hf | ].
  rewrite IH. destruct (nearest name fs); reflexivity.
Qed.

(** X1: a variable is read from the nearest environment on the parent
    chain that has it; reading fails, with "Undefined variable", exactly
    when no environment on the chain has the name. *)
Theorem get_reads_nearest_binding (env : Environment) (name : pystr) :
  match nearest name (frames env) with
  | Some k => exists f v, frames env !! k = Some f /\ f !! name = Some v
                          /\ get env name = inr v
  | None => get env name
            = inl (RuntimeError (u "Undefined variable '" ++ name ++ u "'"))
  end.
Proof.
  rewrite get_chain_lookup, chain_lookup_nearest.
  destruct (nearest name (frames env)) as [k | ] eqn:Hn; [ | reflexivity].
  destruct (proj1 (nearest_spec _ _ _) Hn) as [(f & Hf & [v Hv]) _].
  exists f, v. rewrite Hf, Hv. auto.
Qed.

Lemma chain_lookup_alter_same (x : pystr) (v : SoorjValue)
      (fs : list (gmap (list N) SoorjValue)) :
  fs <> [] ->
  chain_lookup x (alter (<[x := v]>)
                        (match nearest x fs with Some k => k | None => O end) fs)
    = Some v.
Proof.
  induction fs as [|f fs IH]; [contradiction | intros _]. cbn [nearest].
  destruct (f !! x) as [w | ] eqn:Hf.
  - change (alter (<[x := v]>) O (f :: fs)) with (<[x := v]> f :: fs).
    cbn [chain_lookup]. rewrite lookup_insert_eq. reflexivity.
  - destruct (nearest x fs) as [k | ] eqn:Hn; cbn [option_map].
    + change (alter (<[x := v]>) (S k) (f :: fs)) with (f :: alter (<[x := v]>) k fs).
      cbn [chain_lookup]. rewrite Hf. destruct fs as [|g fs']; [discriminate | ].
      apply IH. discriminate.
    + change (alter (<[x := v]>) O (f :: fs)) with (<[x := v]> f :: fs).
      cbn [chain_lookup]. rewrite lookup_insert_eq. reflexivity.
Qed.

Lemma chain_lookup_alter_other (x y : pystr) (v : SoorjValue) (k : nat)
      (fs : list (gmap (list N) SoorjValue)) :
  x <> y ->
  chain_lookup y (alter (<[x := v]>) k fs) = chain_lookup y fs.
Proof.
  intros Hxy. revert k. induction fs as [|f fs IH]; intros k; [reflexivity | ].
  destruct k as [|k].
  - change (alter (<[x := v]>) O (f :: fs)) with (<[x := v]> f :: fs).
    cbn [chain_lookup]. rewrite lookup_insert_ne by exact Hxy. reflexivity.
  - change (alter (<[x := v]>) (S k) (f :: fs)) with (f :: alter (<[x := v]>) k fs).
    cbn [chain_lookup]. rewrite IH. reflexivity.
Qed.

Lemma frames_nonempty (env : Environment) : frames env <> [].
Proof. destruct env; discriminate. Qed.

Lemma assignment_frames
      (fuel : nat) (x : pystr) (e : ASTNode)
      (st st1 : Interpreter) (v : SoorjValue) :
  evaluate fuel e st = (Returns v, st1) ->
  exists st2,
    evaluate (S fuel) (Assignment x e) st = (Returns v, st2)
    /\ frames (environment st2) =
         match nearest x (frames (environment st1)) with
         | Some k => alter (<[x := v]>) k (frames (environment st1))
         | None => alter (<[x := v]>) O (frames (environment st1))
         end.
Proof.
  intros He. cbn [evaluate evaluate_node]. unfold bind. rewrite He.
  pose proof (assign_frames x v (environment st1)) as Ha.
  destruct (nearest x (frames (environment st1))) as [k | ].
  - destruct Ha as (env' & Ha & Hf). rewrite Ha.
    eexists; repeat split; simpl; auto.
  - rewrite Ha. simpl.
    eexists; repeat split; simpl. apply frames_define.
Qed.

(** X2: after an assignment [x = e] the variable [x] reads back the
    value [e] evaluated to, whichever environment of the chain received
    it. *)
Theorem assigned_variable_reads_back
        (fuel fuel' : nat) (x : pystr) (e : ASTNode)
        (st st1 : Interpreter) (v : SoorjValue) :
  evaluate fuel e st = (Returns v, st1) ->
  exists st2,
    evaluate (S fuel) (Assignment x e) st = (Returns v, st2)
    /\ evaluate (S fuel') (Identifier x) st2 = (Returns v, st2).
Proof.
  intros He.
  destruct (assignment_frames fuel x e st st1 v He) as (st2 & Hev & Hf).
  exists st2. split; [exact Hev | ].
  cbn [evaluate evaluate_node]. rewrite get_chain_lookup, Hf.
  pose proof (chain_lookup_alter_same x v (frames (environment st1))
                                      (frames_nonempty _)) as H.
  destruct (nearest x (frames (environment st1))); rewrite H; reflexivity.
Qed.

Lemma assigned_variable_reads_back_witness :
  exists st2,
    evaluate 2 (Assignment (u "ա") (lit 5)) Interpreter_init
      = (Returns (VNumber (PyFloat (of_decimal false 5 0))), st2)
    /\ evaluate 1 (Identifier (u "ա")) st2
      = (Returns (VNumber (PyFloat (of_decimal false 5 0))), st2).
Proof.
  exact (assigned_variable_reads_back
           1 0 (u "ա") (lit 5) Interpreter_init Interpreter_init
           (VNumber (PyFloat (of_decimal false 5 0))) eq_refl).
Defined.

(** X3: an assignment [x = e] changes what no other variable reads: for
    every name [y] other than [x], reading [y] gives after the assignment
    what it gave before it (after [e] was evaluated). *)
Theorem assignment_keeps_other_variables
        (fuel : nat) (x y : pystr) (e : ASTNode)
        (st st1 : Interpreter) (v : SoorjValue) :
  evaluate fuel e st = (Returns v, st1) ->
  x <> y ->
  exists st2,
    evaluate (S fuel) (Assignment x e) st = (Returns v, st2)
    /\ get (environment st2) y = get (environment st1) y.
Proof.
  intros He Hxy.
  destruct (assignment_frames fuel x e st st1 v He) as (st2 & Hev & Hf).
  exists st2. split; [exact Hev | ].
  rewrite !get_chain_lookup, Hf.
  destruct (nearest x (frames (environment st1)));
    rewrite chain_lookup_alter_other by exact Hxy; reflexivity.
Qed.

Lemma assignment_keeps_other_variables_witness :
  exists st2,
    evaluate 2 (Assignment (u "ա") (lit 5)) Interpreter_init
      = (Returns (VNumber (PyFloat (of_decimal false 5 0))), st2)
    /\ get (environment st2) (u "գրէ") = get (environment Interpreter_init) (u "գրէ").
Proof.
  refine (assignment_keeps_other_variables
            1 (u "ա") (u "գրէ") (lit 5) Interpreter_init Interpreter_init
            (VNumber (PyFloat (of_decimal false 5 0))) eq_refl _).
  intros E. vm_compute in E. discriminate E.
Defined.

(** ** Calls *)

Lemma frames_call_environment (prev_env : Environment)
      (params : list pystr) (args : list SoorjValue) :
  frames (call_environment prev_env params args)
    = fold_left (fun m pa => <[fst pa := snd pa]> m) (zip params args) ∅
        :: frames prev_env.
Proof.
  unfold call_environment. generalize (zip params args) as l.
  generalize (∅ : gmap (list N) SoorjValue) as m.
  intros m l. revert m. induction l as [|pa l IH]; intros m; simpl.
  - reflexivity.
  - apply IH.
Qed.

Lemma fold_insert_other (l : list (list N * SoorjValue)) (m : gmap (list N) SoorjValue)
      (y : pystr) :
  y ∉ l.*1 ->
  fold_left (fun m pa => <[fst pa := snd pa]> m) l m !! y = m !! y.
Proof.
  revert m. induction l as [|[q b] l IH]; intros m Hy; simpl; [reflexivity | ].
  simpl in Hy. apply not_elem_of_cons in Hy. destruct Hy as [Hne Hy].
  rewrite IH by exact Hy. apply lookup_insert_ne. congruence.
Qed.

Lemma fold_insert_at (l : list (list N * SoorjValue)) (m : gmap (list N) SoorjValue)
      (i : nat) (p : pystr) (a : SoorjValue) :
  NoDup l.*1 -> l !! i = Some (p, a) ->
  fold_left (fun m pa => <[fst pa := snd pa]> m) l m !! p = Some a.
Proof.
  revert m i. induction l as [|[q b] l IH]; intros m i Hnd Hi; [discriminate | ].
  simpl in Hnd. apply NoDup_cons in Hnd. destruct Hnd as [Hq Hnd].
  destruct i as [|i]; simpl in *.
  - injection Hi as -> ->. rewrite fold_insert_other by exact Hq.
    apply lookup_insert_eq.
  - eapply IH; eassumption.
Qed.

(** X4: in the environment a call runs in, every parameter reads the
    argument at its position (the parameter names being distinct), and
    every other name reads what it reads in the caller's environment at
    the time of the call: free variables are the caller's. *)
Theorem call_environment_reads
        (prev_env : Environment) (params : list pystr) (args : list SoorjValue) :
  length args = length params ->
  NoDup params ->
  (forall i p a, params !! i = Some p -> args !! i = Some a ->
                 get (call_environment prev_env params args) p = inr a)
  /\ (forall y, y ∉ params ->
                get (call_environment prev_env params args) y = get prev_env y).
Proof.
  intros Hlen Hnd.
  assert (Hfst : (zip params args).*1 = params) by (apply fst_zip; lia).
  split.
  - intros i p a Hp Ha.
    rewrite get_chain_lookup, frames_call_environment. cbn [chain_lookup].
    rewrite (fold_insert_at _ _ i p a); [reflexivity | rewrite Hfst; exact Hnd | ].
    apply lookup_zip_with_Some. exists p, a. auto.
  - intros y Hy.
    rewrite !get_chain_lookup, frames_call_environment. cbn [chain_lookup].
    rewrite fold_insert_other by (rewrite Hfst; exact Hy).
    rewrite lookup_empty. reflexivity.
Qed.

Lemma call_environment_reads_witness :
  get (call_environment (environment Interpreter_init) [u "ա"; u "բ"] [VNull; VBoolean true])
      (u "բ") = inr (VBoolean true)
  /\ get (call_environment (environment Interpreter_init) [u "ա"; u "բ"] [VNull; VBoolean true])
         (u "գրէ") = get (environment Interpreter_init) (u "գրէ").
Proof.
  assert (Hnd : NoDup [u "ա"; u "բ"]).
  { apply NoDup_cons. split.
    - intros H. apply list_elem_of_singleton in H. vm_compute in H. discriminate H.
    - apply NoDup_singleton. }
  destruct (call_environment_reads (environment Interpreter_init)
              [u "ա"; u "բ"] [VNull; VBoolean true] eq_refl Hnd) as [Hp Hfree].
  split.
  - exact (Hp 1%nat (u "բ") (VBoolean true) eq_refl eq_refl).
  - apply Hfree. intros H.
    apply elem_of_cons in H. destruct H as [H | H]; [vm_compute in H; discriminate H | ].
    apply list_elem_of_singleton in H. vm_compute in H. discriminate H.
Defined.

(** X5: calling a name that is bound to something other than a function
    fails with "'name' is not a function" before any argument is
    evaluated: the state is as it was. *)
Theorem call_of_non_function
        (fuel : nat) (name : pystr) (args : list ASTNode)
        (st : Interpreter) (v : SoorjValue) :
  get (environment st) name = inr v ->
  is_function v = false ->
  evaluate (S fuel) (FunctionCall name args) st
    = (Raises (RuntimeError (u "'" ++ name ++ u "' is not a function")), st).
Proof.
  intros Hg Hv. cbn [evaluate evaluate_node]. unfold evaluate_function_call, bind.
  rewrite Hg. destruct v; try reflexivity. discriminate.
Qed.

Lemma call_of_non_function_witness :
  evaluate 3 (FunctionCall (u "ա") [FunctionCall (u "գրէ") []])
           (set_environment (define (u "ա") VNull (environment Interpreter_init))
                            Interpreter_init)
    = (Raises (RuntimeError (u "'" ++ u "ա" ++ u "' is not a function")),
       set_environment (define (u "ա") VNull (environment Interpreter_init))
                       Interpreter_init).
Proof.
  apply (call_of_non_function 2 (u "ա") [FunctionCall (u "գրէ") []] _ VNull).
  - vm_compute. reflexivity.
  - reflexivity.
Defined.

(** X6: a call of a user function with the wrong number of arguments
    evaluates the arguments, then fails with the arity message; the body
    is not run and no environment is pushed. *)
Theorem call_with_wrong_arity
        (fuel : nat) (name : pystr) (args : list ASTNode) (st st1 : Interpreter)
        (a : N) (fname : pystr) (params : list pystr) (body : list ASTNode)
        (vs : list SoorjValue) :
  get (environment st) name = inr (VFunction (SoorjFunction a fname params body)) ->
  evaluate_each (evaluate fuel) args st = (Returns vs, st1) ->
  length vs <> length params ->
  evaluate (S fuel) (FunctionCall name args) st
    = (Raises (RuntimeError
                 (u "Function " ++ fname ++ u " expects "
                    ++ str_of_N (N.of_nat (length params))
                    ++ u " arguments, got "
                    ++ str_of_N (N.of_nat (length vs)))), st1).
Proof.
  intros Hg Hargs Hlen. cbn [evaluate evaluate_node].
  unfold evaluate_function_call, bind. rewrite Hg. simpl. rewrite Hargs.
  simpl. unfold SoorjFunction_call.
  replace (length vs =? length params)%nat with false; [reflexivity | ].
  symmetry. apply Nat.eqb_neq. exact Hlen.
Qed.

Lemma call_with_wrong_arity_witness :
  fst (evaluate 3 (FunctionCall (u "ֆ") [lit 1])
                (set_environment
                   (define (u "ֆ") (VFunction (SoorjFunction 9 (u "ֆ") [] []))
                           (environment Interpreter_init))
                   Interpreter_init))
    = Raises (RuntimeError (u "Function ֆ expects 0 arguments, got 1")).
Proof.
  rewrite (call_with_wrong_arity
             2 (u "ֆ") [lit 1] _
             (set_environment
                (define (u "ֆ") (VFunction (SoorjFunction 9 (u "ֆ") [] []))
                        (environment Interpreter_init))
                Interpreter_init)
             9 (u "ֆ") [] [] [VNumber (PyFloat (of_decimal false 1 0))]).
  - vm_compute. reflexivity.
  - vm_compute. reflexivity.
  - vm_compute. reflexivity.
  - simpl. lia.
Defined.

(** ** The top level *)

(** X7: when a statement of the program ends with a [RuntimeError],
    [interpret] prints "Runtime error: " and the message, leaves the
    statements after it unexecuted, and returns normally. *)
Theorem interpret_reports_runtime_error
        (fuel : nat) (pre post : list ASTNode) (s : ASTNode)
        (st st1 st2 : Interpreter) (msg : pystr) :
  execute_each (execute fuel) pre st = (Returns tt, st1) ->
  execute fuel s st1 = (Raises (RuntimeError msg), st2) ->
  interpret fuel (pre ++ s :: post) st
    = (Returns tt, print (u "Runtime error: " ++ msg) st2).
Proof.
  intros Hpre Hs. unfold interpret.
  rewrite (execute_each_app _ pre _ st st1 Hpre).
  cbn [execute_each]. unfold bind. rewrite Hs. reflexivity.
Qed.

Lemma interpret_reports_runtime_error_witness :
  interpret 3 ([] ++ ExpressionStatement (Identifier (u "ա")) :: [ReturnStatement None])
            Interpreter_init
    = (Returns tt, print (u "Runtime error: " ++ u "Undefined variable 'ա'") Interpreter_init).
Proof.
  apply (interpret_reports_runtime_error 3 [] [ReturnStatement None]
           (ExpressionStatement (Identifier (u "ա")))
           Interpreter_init Interpreter_init Interpreter_init).
  - reflexivity.
  - vm_compute. reflexivity.
Defined.

(** ** Operators *)

(** X8: the operators [- * / % < > <= >=] take numbers only: with an
    operand of any other tag they fail with "Invalid operands for" and the
    operator, whatever the other operand. *)
Theorem numeric_operators_reject_other_tags
        (op : pystr) (l r : SoorjValue) (st : Interpreter) :
  In op numeric_operators ->
  is_number l && is_number r = false ->
  binary_op op l r st = (Raises (RuntimeError (u "Invalid operands for " ++ op)), st).
Proof.
  intros Hop Hlr. unfold numeric_operators in Hop. simpl in Hop.
  repeat (destruct Hop as [<- | Hop]; [destruct l, r; try reflexivity; discriminate | ]).
  contradiction.
Qed.

Lemma numeric_operators_reject_other_tags_witness :
  binary_op (u "<") (VString (u "1")) (VNumber (PyInt 2)) Interpreter_init
    = (Raises (RuntimeError (u "Invalid operands for " ++ u "<")), Interpreter_init).
Proof.
  apply numeric_operators_reject_other_tags.
  - right. right. right. right. left. reflexivity.
  - reflexivity.
Defined.

(** X9: division never truncates: when [/] returns, its result is a
    number held as a double, also for two operands held as host integers. *)
Theorem division_yields_double
        (l r v : SoorjValue) (st st' : Interpreter) :
  binary_op (u "/") l r st = (Returns v, st') ->
  exists f, v = VNumber (PyFloat f).
Proof.
  destruct l as [ | lb | a | ls | lf], r as [ | rb | b | rs | rf]; try discriminate.
  change (binary_op (u "/") (VNumber a) (VNumber b) st)
    with ((if num_eq b (PyInt 0)
           then raise (RuntimeError (u "Division by zero"))
           else let* q := lift_host (py_truediv a b) in ret (VNumber q)) st).
  destruct (num_eq b (PyInt 0)); [discriminate | ].
  unfold bind, lift_host.
  destruct (py_truediv a b) as [[cls msg] | q] eqn:Hq; [discriminate | ].
  intros [= <- <-].
  destruct a as [x | f], b as [y | g]; simpl in Hq;
    unfold with_doubles, host_bind, to_double, raise_host in Hq.
  - destruct (y =? 0)%Z; [discriminate | ].
    destruct (SFdiv prec emax (exact_of_int x) (exact_of_int y)); inversion Hq; eauto.
  - destruct (float_of_int x) as [[? ?] | w]; [discriminate | ].
    destruct (SFeqb g fzero); inversion Hq; eauto.
  - destruct (float_of_int y) as [[? ?] | w]; [discriminate | ].
    destruct (SFeqb w fzero); inversion Hq; eauto.
  - destruct (SFeqb g fzero); inversion Hq; eauto.
Qed.

Lemma division_yields_double_witness :
  exists f, VNumber (PyFloat (of_decimal false 5 (-1))) = VNumber (PyFloat f).
Proof.
  apply (division_yields_double (VNumber (PyInt 1)) (VNumber (PyInt 2))
                                (VNumber (PyFloat (of_decimal false 5 (-1))))
                                Interpreter_init Interpreter_init).
  vm_compute. reflexivity.
Defined.

(** ** Built-in functions *)

Lemma str_each_raises (vs : list SoorjValue) (cls : builtin_exception) (msg : list N) :
  str_each vs = inl (cls, msg) ->
  cls = ValueError
  /\ exists z, In (VNumber (PyInt z)) vs
               /\ max_str_digits < N.of_nat (length (str_of_N (Z.abs_N z))).
Proof.
  induction vs as [|v vs IH]; cbn [str_each]; [discriminate | ].
  unfold host_bind. destruct (SoorjValue_str v) as [[c m] | s] eqn:Hv.
  - intros [= -> ->]. apply SoorjValue_str_raises in Hv.
    destruct Hv as (-> & z & -> & Hz). split; [reflexivity | ].
    exists z. split; [left; reflexivity | exact Hz].
  - destruct (str_each vs) as [[c m] | ss]; [ | discriminate].
    intros [= -> ->]. destruct (IH eq_refl) as (-> & z & Hin & Hz).
    split; [reflexivity | ]. exists z. split; [right; exact Hin | exact Hz].
Qed.

(** X10: a call of [գրէ], with any number of arguments of any tags:
    once the arguments are evaluated it makes exactly one [print] call,
    whose text is the display forms of the argument values joined by single
    spaces (the empty text for no argument), and yields null.  The one way
    it fails is the host's: when [str] of an argument raises, which it does
    only with [ValueError] and only for a host integer of more than
    [max_str_digits] digits; nothing is printed then. *)
Theorem gre_prints_joined_display_forms
        (fuel : nat) (args : list ASTNode) (st st1 : Interpreter)
        (vs : list SoorjValue) (a : N) :
  get (environment st) (u "գրէ") = inr (VFunction (BuiltinFunction a (u "գրէ") fn_gre)) ->
  evaluate_each (evaluate fuel) args st = (Returns vs, st1) ->
  match str_each vs with
  | inr parts =>
    evaluate (S fuel) (FunctionCall (u "գրէ") args) st
      = (Returns VNull, print (join (u " ") parts) st1)
  | inl (cls, msg) =>
    evaluate (S fuel) (FunctionCall (u "գրէ") args) st = (Raises (Builtin cls msg), st1)
    /\ cls = ValueError
    /\ exists z, In (VNumber (PyInt z)) vs
                 /\ max_str_digits < N.of_nat (length (str_of_N (Z.abs_N z)))
  end.
Proof.
  intros Hg Hargs.
  assert (E : evaluate (S fuel) (FunctionCall (u "գրէ") args) st = builtin_gre vs st1).
  { cbn [evaluate evaluate_node].
    unfold evaluate_function_call, bind. rewrite Hg. simpl. rewrite Hargs. reflexivity. }
  rewrite E. unfold builtin_gre.
  destruct (str_each vs) as [[cls msg] | parts] eqn:Hs.
  - split; [ | exact (str_each_raises _ _ _ Hs)].
    destruct vs; [discriminate | reflexivity].
  - destruct vs; [ | reflexivity]. injection Hs as <-. reflexivity.
Qed.

Lemma gre_prints_joined_display_forms_witness :
  evaluate 2 (FunctionCall (u "գրէ") [BooleanLiteral true; NullLiteral]) Interpreter_init
    = (Returns VNull, print (join (u " ") [u "այո"; u "հեչ"]) Interpreter_init).
Proof.
  refine (gre_prints_joined_display_forms 1 [BooleanLiteral true; NullLiteral]
                                          Interpreter_init Interpreter_init
                                          [VBoolean true; VNull] 0 _ _).
  - vm_compute. reflexivity.
  - reflexivity.
Defined.

(** X11: [թիվ] with one argument never fails and yields a number,
    whatever the argument's tag, and it leaves a number as it is: applying
    it twice is applying it once.  With any other number of arguments it
    fails with its arity message. *)
Theorem tiv_yields_a_number (args : list SoorjValue) (st : Interpreter) :
  match args with
  | [v] => exists n, builtin_tiv [v] st = (Returns (VNumber n), st)
                     /\ builtin_tiv [VNumber n] st = (Returns (VNumber n), st)
  | _ => builtin_tiv args st
         = (Raises (RuntimeError (u "թիվ expects exactly 1 argument")), st)
  end.
Proof.
  destruct args as [|v [|w args]]; try reflexivity.
  destruct v as [ | b | n | s | f]; simpl; eauto.
  destruct (float_of_str s); eauto.
Qed.

(** X12: [բառ] with one argument yields a string: the argument itself
    when it is a string, the empty string for null, the host's [str] of
    the payload otherwise; applying it twice is applying it once.  It
    fails in one case only: for a host integer of more than
    [max_str_digits] digits the host's [str] raises [ValueError].  With
    any other number of arguments it fails with its arity message. *)
Theorem bar_converts_to_a_string (args : list SoorjValue) (st : Interpreter) :
  match args with
  | [v] =>
    match (match v with
           | VString t => inr t
           | VNull => inr []
           | _ => py_str (value_of v)
           end) with
    | inr s => builtin_bar [v] st = (Returns (VString s), st)
               /\ builtin_bar [VString s] st = (Returns (VString s), st)
    | inl (cls, msg) =>
      builtin_bar [v] st = (Raises (Builtin cls msg), st)
      /\ cls = ValueError
      /\ exists z, v = VNumber (PyInt z)
                   /\ max_str_digits < N.of_nat (length (str_of_N (Z.abs_N z)))
    end
  | _ => builtin_bar args st
         = (Raises (RuntimeError (u "բառ expects exactly 1 argument")), st)
  end.
Proof.
  destruct args as [|v [|w args]]; try reflexivity.
  destruct v as [ | b | n | s | f]; try (split; reflexivity).
  cbn [builtin_bar value_of]. unfold bind, lift_host.
  destruct (py_str (PyNumber n)) as [[cls msg] | s] eqn:Hs; [ | split; reflexivity].
  split; [reflexivity | ].
  destruct (py_str_raises _ _ _ Hs) as (-> & z & [= ->] & Hz). eauto.
Qed.

(** ** Equality *)

Lemma SFcompare_refl (f : float) : f <> S754_nan -> SFcompare f f = Some Eq.
Proof.
  destruct f as [s | s | | s m e]; intros H; simpl.
  - reflexivity.
  - destruct s; reflexivity.
  - contradiction.
  - rewrite Z.compare_refl, Pos.compare_cont_refl. destruct s; reflexivity.
Qed.

(** X13: every value is equal to itself under [==], and not unequal
    under [!=], with one exception: a number that is the NaN double. *)
Theorem equality_is_reflexive (v : SoorjValue) (st : Interpreter) :
  is_nan v = false ->
  binary_op (u "==") v v st = (Returns (VBoolean true), st)
  /\ binary_op (u "!=") v v st = (Returns (VBoolean false), st).
Proof.
  intros Hv.
  assert (E : py_eq (value_of v) (value_of v) = true).
  { destruct v as [ | b | [z | f] | s | f]; simpl.
    - reflexivity.
    - destruct b; reflexivity.
    - unfold num_eq. simpl. rewrite Z.compare_refl. reflexivity.
    - unfold num_eq. simpl. rewrite SFcompare_refl; [reflexivity | ].
      intros ->. discriminate.
    - apply str_eqb_refl.
    - apply N.eqb_refl. }
  split.
  - change (binary_op (u "==") v v st)
      with (Returns (VBoolean (py_eq (value_of v) (value_of v))), st).
    rewrite E. reflexivity.
  - change (binary_op (u "!=") v v st)
      with (Returns (VBoolean (negb (py_eq (value_of v) (value_of v)))), st).
    rewrite E. reflexivity.
Qed.

Lemma equality_is_reflexive_witness :
  binary_op (u "==") (VString (u "ա")) (VString (u "ա")) Interpreter_init
    = (Returns (VBoolean true), Interpreter_init).
Proof.
  exact (proj1 (equality_is_reflexive (VString (u "ա")) Interpreter_init eq_refl)).
Defined.

(** NaN is the exception: it is not equal to itself. *)
Lemma nan_is_not_equal_to_itself (st : Interpreter) :
  binary_op (u "==") (VNumber (PyFloat S754_nan)) (VNumber (PyFloat S754_nan)) st
    = (Returns (VBoolean false), st).
Proof. reflexivity. Qed.

(** ** More on the scanner *)

Lemma step_line (ch ln col ln' col' : N) :
  Lexer.step ch ln col = (ln', col') -> ln <= ln'.
Proof. unfold Lexer.step. destruct (ch =? 10); intros [= <- <-]; lia. Qed.

Lemma advance_line (c : Lexer.Cursor) :
  Lexer.cur_line c <= Lexer.cur_line (Lexer.advance c).
Proof.
  unfold Lexer.advance. destruct (Lexer.rest c) as [|ch r]; [lia | ].
  destruct (Lexer.step ch (Lexer.cur_line c) (Lexer.cur_column c)) as [ln col] eqn:H.
  simpl. eapply step_line. eassumption.
Qed.

Lemma skip_whitespace_from_line (s : list N) (ln col : N) :
  ln <= Lexer.cur_line (Lexer.skip_whitespace_from s ln col).
Proof.
  revert ln col. induction s as [|ch r IH]; intros ln col;
    cbn [Lexer.skip_whitespace_from]; [simpl; lia | ].
  destruct (char_in ch [32; 9; 13]); [ | simpl; lia].
  destruct (Lexer.step ch ln col) as [ln' col'] eqn:H.
  apply step_line in H. specialize (IH ln' col'). lia.
Qed.

Lemma skip_comment_from_line (s : list N) (ln col : N) :
  ln <= Lexer.cur_line (Lexer.skip_comment_from s ln col).
Proof.
  revert ln col. induction s as [|ch r IH]; intros ln col;
    cbn [Lexer.skip_comment_from]; [simpl; lia | ].
  destruct (ch =? 10); [simpl; lia | ].
  destruct (Lexer.step ch ln col) as [ln' col'] eqn:H.
  apply step_line in H. specialize (IH ln' col'). lia.
Qed.

Lemma read_number_from_line (s : list N) (ln col : N) (acc str : list N)
      (c : Lexer.Cursor) :
  Lexer.read_number_from s ln col acc = (str, c) -> ln <= Lexer.cur_line c.
Proof.
  revert ln col acc. induction s as [|ch r IH]; intros ln col acc;
    cbn [Lexer.read_number_from].
  - intros [= <- <-]. simpl. lia.
  - destruct (isdigit ch || (ch =? 46)).
    + destruct (Lexer.step ch ln col) as [ln' col'] eqn:H. apply step_line in H.
      intros Hr. apply IH in Hr. lia.
    + intros [= <- <-]. simpl. lia.
Qed.

Lemma read_identifier_from_spec (s : list N) (ln col : N) (acc str : list N)
      (c : Lexer.Cursor) :
  Lexer.read_identifier_from s ln col acc = (str, c) ->
  ln <= Lexer.cur_line c
  /\ exists run, str = acc ++ run
                 /\ forallb Lexer.is_armenian_char run = true
                 /\ (forall ch r, s = ch :: r -> Lexer.is_armenian_char ch = true -> run <> []).
Proof.
  revert ln col acc. induction s as [|ch r IH]; intros ln col acc;
    cbn [Lexer.read_identifier_from].
  - intros [= <- <-]. split; [simpl; lia | ]. exists []. rewrite app_nil_r.
    repeat split. discriminate.
  - unfold Lexer.is_identifier_char. destruct (Lexer.is_armenian_char ch) eqn:Hch.
    + destruct (Lexer.step ch ln col) as [ln' col'] eqn:H. apply step_line in H.
      intros Hr. destruct (IH _ _ _ Hr) as (Hln & run & -> & Hall & _).
      split; [lia | ]. exists (ch :: run). rewrite <- app_assoc. repeat split.
      * simpl. rewrite Hch. exact Hall.
      * discriminate.
    + intros [= <- <-]. split; [simpl; lia | ]. exists []. rewrite app_nil_r.
      repeat split. intros ch' r' [= <- <-]. congruence.
Qed.

Lemma read_string_from_line (q : N) (str : list N) (c : Lexer.Cursor) :
  forall (n : nat) (s : list N), (length s <= n)%nat -> forall ln col acc,
    Lexer.read_string_from q s ln col acc = inr (str, c) -> ln <= Lexer.cur_line c.
Proof.
  induction n as [|n IH]; intros s Hlen ln col acc.
  - destruct s; [ | simpl in Hlen; lia]. simpl. intros [= <- <-]. simpl. lia.
  - destruct s as [|ch r]; cbn [Lexer.read_string_from].
    + intros [= <- <-]. simpl. lia.
    + destruct (ch =? q).
      * intros [= <- <-]. simpl. lia.
      * destruct (ch =? 92).
        -- destruct (Lexer.step ch ln col) as [ln1 col1] eqn:H1. apply step_line in H1.
           destruct r as [|nx r'].
           ++ intros [= <- <-]. simpl. lia.
           ++ destruct (Lexer.step nx ln1 col1) as [ln2 col2] eqn:H2.
              apply step_line in H2. intros H.
              apply IH in H; [lia | simpl in Hlen; lia].
        -- destruct (negb (Lexer.is_valid_string_char ch)); [discriminate | ].
           destruct (Lexer.step ch ln col) as [ln' col'] eqn:H1. apply step_line in H1.
           intros H. apply IH in H; [lia | simpl in Hlen; lia].
Qed.

Lemma two_chars_is_not_word (s : list N) (t : Lexer.TokenType) :
  Lexer.lookup_str s Lexer.two_chars = Some t -> ~ In t word_types.
Proof.
  unfold Lexer.two_chars. cbn [Lexer.lookup_str].
  repeat match goal with
         | |- context [if str_eqb s ?k then _ else _] => destruct (str_eqb s k)
         end; intros [= <-]; simpl; intuition discriminate.
Qed.

Lemma single_chars_is_not_word (ch : N) (t : Lexer.TokenType) :
  Lexer.lookup_char ch Lexer.single_chars = Some t -> ~ In t word_types.
Proof.
  unfold Lexer.single_chars. cbn [Lexer.lookup_char].
  repeat match goal with
         | |- context [if ch =? ?k then _ else _] => destruct (ch =? k)
         end; intros [= <-]; simpl; intuition discriminate.
Qed.

Lemma keyword_is_not_EOF (s : list N) (t : Lexer.TokenType) :
  Lexer.lookup_str s Lexer.keywords = Some t -> t <> Lexer.EOF.
Proof.
  unfold Lexer.keywords. cbn [Lexer.lookup_str].
  repeat match goal with
         | |- context [if str_eqb s ?k then _ else _] => destruct (str_eqb s k)
         end; intros [= <-]; discriminate.
Qed.

Lemma two_chars_is_not_EOF (s : list N) (t : Lexer.TokenType) :
  Lexer.lookup_str s Lexer.two_chars = Some t -> t <> Lexer.EOF.
Proof.
  unfold Lexer.two_chars. cbn [Lexer.lookup_str].
  repeat match goal with
         | |- context [if str_eqb s ?k then _ else _] => destruct (str_eqb s k)
         end; intros [= <-]; discriminate.
Qed.

Lemma single_chars_is_not_EOF (ch : N) (t : Lexer.TokenType) :
  Lexer.lookup_char ch Lexer.single_chars = Some t -> t <> Lexer.EOF.
Proof.
  unfold Lexer.single_chars. cbn [Lexer.lookup_char].
  repeat match goal with
         | |- context [if ch =? ?k then _ else _] => destruct (ch =? k)
         end; intros [= <-]; discriminate.
Qed.

Lemma scan_one_tokens (ch : N) (c c' : Lexer.Cursor) (ts : list Lexer.Token) :
  Lexer.current_char c = Some ch ->
  Lexer.scan_one ch c = inr (ts, c') ->
  Lexer.cur_line c <= Lexer.cur_line c' /\ Forall (scanned c c') ts.
Proof.
  unfold Lexer.current_char. destruct (Lexer.rest c) as [|ch0 r] eqn:Hrest; [discriminate | ].
  intros [= ->]. unfold Lexer.scan_one.
  pose proof (advance_line c) as Hadv.
  assert (Hone : forall t v c1,
             Lexer.cur_line c <= Lexer.cur_line c1 ->
             t <> Lexer.EOF -> ~ In t word_types ->
             Lexer.cur_line c <= Lexer.cur_line c1
             /\ Forall (scanned c c1)
                       [Lexer.mkToken t v (Lexer.cur_line c) (Lexer.cur_column c)]).
  { intros t v c1 Hc1 Ht Hw. split; [exact Hc1 | ].
    constructor; [ | constructor]. unfold scanned; simpl. repeat split; try lia; try assumption;
      contradiction. }
  destruct (ch =? 10) eqn:Hnl.
  { intros [= <- <-]. apply Hone; [exact Hadv | discriminate | simpl; intuition discriminate]. }
  destruct (ch =? 35).
  { intros [= <- <-]. split; [apply skip_comment_from_line | constructor]. }
  destruct (isdigit ch) eqn:Hdig.
  { unfold Lexer.read_number.
    destruct (Lexer.read_number_from (Lexer.rest c) (Lexer.cur_line c) (Lexer.cur_column c) [])
      as [str c1] eqn:Hread.
    intros [= <- <-]. apply read_number_from_line in Hread.
    split; [exact Hread | ]. constructor; [ | constructor].
    unfold scanned; simpl. repeat split; try lia; try discriminate; intuition discriminate. }
  destruct (char_in ch [34; 39]).
  { unfold Lexer.read_string. rewrite Hrest.
    destruct (Lexer.read_string_from ch (Lexer.rest (Lexer.advance c))
                (Lexer.cur_line (Lexer.advance c)) (Lexer.cur_column (Lexer.advance c)) [])
      as [msg | [str c2]] eqn:Hread; [discriminate | ].
    eapply read_string_from_line in Hread; [ | reflexivity].
    set (c3 := match Lexer.current_char c2 with
               | Some ch1 => if ch1 =? ch then Lexer.advance c2 else c2
               | None => c2
               end).
    assert (H3 : Lexer.cur_line c2 <= Lexer.cur_line c3).
    { subst c3. pose proof (advance_line c2).
      destruct (Lexer.current_char c2) as [q | ]; [destruct (q =? ch) | ]; lia. }
    intros [= <- <-]. split; [lia | ]. constructor; [ | constructor].
    unfold scanned; simpl. repeat split; try lia; try discriminate; intuition discriminate. }
  destruct (Lexer.is_armenian_char ch) eqn:Harm.
  { unfold Lexer.read_identifier. rewrite Hrest.
    destruct (Lexer.read_identifier_from (ch :: r) (Lexer.cur_line c) (Lexer.cur_column c) [])
      as [ident c1] eqn:Hread.
    destruct (read_identifier_from_spec _ _ _ _ _ _ Hread) as (Hln & run & -> & Hall & Hne).
    specialize (Hne ch r eq_refl Harm). change ([] ++ run) with run.
    assert (Hty : word_type run <> Lexer.EOF).
    { unfold word_type.
      destruct (Lexer.lookup_str run Lexer.keywords) as [t | ] eqn:Hk; [ | discriminate].
      eapply keyword_is_not_EOF. eassumption. }
    fold (word_type run). remember (word_type run) as ty eqn:Ety.
    intros [= <- <-]. split; [exact Hln | ]. constructor; [ | constructor].
    unfold scanned; cbn [Lexer.type Lexer.value Lexer.line]. split; [ | split].
    - exact Hty.
    - lia.
    - intros _. repeat split; try assumption. }
  set (two := if char_in ch (u "=!<>") then _ else None).
  assert (Htwo : forall t, two = Some t ->
                           Lexer.type t <> Lexer.EOF /\ ~ In (Lexer.type t) word_types
                           /\ Lexer.line t = Lexer.cur_line c).
  { subst two. intros t. destruct (char_in ch (u "=!<>")); [ | discriminate].
    destruct (Lexer.lookup_str _ Lexer.two_chars) as [ty | ] eqn:Hk; [ | discriminate].
    intros [= <-]. simpl. repeat split.
    - eapply two_chars_is_not_EOF. eassumption.
    - eapply two_chars_is_not_word. eassumption. }
  destruct two as [t | ].
  { intros [= <- <-]. destruct (Htwo t eq_refl) as (H1 & H2 & H3).
    pose proof (advance_line (Lexer.advance c)).
    split; [lia | ]. constructor; [ | constructor].
    unfold scanned. repeat split; try lia; try assumption; contradiction. }
  destruct (Lexer.lookup_char ch Lexer.single_chars) as [t | ] eqn:Hs.
  { intros [= <- <-]. apply Hone; [exact Hadv | | ].
    - eapply single_chars_is_not_EOF. eassumption.
    - eapply single_chars_is_not_word. eassumption. }
  destruct (ch =? 61).
  { intros [= <- <-]. apply Hone; [exact Hadv | discriminate | simpl; intuition discriminate]. }
  destruct (ch =? 60).
  { intros [= <- <-]. apply Hone; [exact Hadv | discriminate | simpl; intuition discriminate]. }
  destruct (ch =? 62).
  { intros [= <- <-]. apply Hone; [exact Hadv | discriminate | simpl; intuition discriminate]. }
  discriminate.
Qed.

Lemma scan_one_length (ch : N) (c c' : Lexer.Cursor) (ts : list Lexer.Token) :
  Lexer.scan_one ch c = inr (ts, c') -> (length ts <= 1)%nat.
Proof.
  unfold Lexer.scan_one.
  destruct (ch =? 10); [intros [= <- <-]; simpl; lia | ].
  destruct (ch =? 35); [intros [= <- <-]; simpl; lia | ].
  destruct (isdigit ch).
  { destruct (Lexer.read_number c). intros [= <- <-]; simpl; lia. }
  destruct (char_in ch [34; 39]).
  { destruct (Lexer.read_string c) as [msg | [t c1]]; [discriminate | ].
    intros [= <- <-]; simpl; lia. }
  destruct (Lexer.is_armenian_char ch).
  { destruct (Lexer.read_identifier c). intros [= <- <-]; simpl; lia. }
  match goal with |- context [match ?two with Some _ => _ | None => _ end] =>
    destruct two end; [intros [= <- <-]; simpl; lia | ].
  destruct (Lexer.lookup_char ch Lexer.single_chars); [intros [= <- <-]; simpl; lia | ].
  destruct (ch =? 61); [intros [= <- <-]; simpl; lia | ].
  destruct (ch =? 60); [intros [= <- <-]; simpl; lia | ].
  destruct (ch =? 62); [intros [= <- <-]; simpl; lia | ].
  discriminate.
Qed.

Lemma ascending_from_weaken (lo lo' : N) (l : list N) :
  lo' <= lo -> ascending_from lo l -> ascending_from lo' l.
Proof. destruct l as [|a l]; simpl; [auto | ]. intros H [H1 H2]. split; [lia | exact H2]. Qed.

(** The whole loop: the tokens it appends are scanned tokens with
    ascending lines, followed by the one end token. *)
Lemma tokenize_loop_shape (fuel : nat) :
  forall (c : Lexer.Cursor) (tokens result : list Lexer.Token),
    Lexer.tokenize_loop fuel c tokens = Some (inr result) ->
    exists (body : list Lexer.Token) (ln col : N),
      result = tokens ++ body ++ [Lexer.mkToken Lexer.EOF [] ln col]
      /\ Forall (fun t => exists c1 c2, scanned c1 c2 t) body
      /\ ascending_from (Lexer.cur_line c)
                        (List.map Lexer.line (body ++ [Lexer.mkToken Lexer.EOF [] ln col])).
Proof.
  assert (Hfinish : forall c c' tokens,
             Lexer.cur_line c <= Lexer.cur_line c' ->
             exists (body : list Lexer.Token) (ln col : N),
               tokens ++ [Lexer.mkToken Lexer.EOF [] (Lexer.cur_line c') (Lexer.cur_column c')]
               = tokens ++ body ++ [Lexer.mkToken Lexer.EOF [] ln col]
               /\ Forall (fun t => exists c1 c2, scanned c1 c2 t) body
               /\ ascending_from (Lexer.cur_line c)
                    (List.map Lexer.line (body ++ [Lexer.mkToken Lexer.EOF [] ln col]))).
  { intros c c' tokens H. exists [], (Lexer.cur_line c'), (Lexer.cur_column c').
    repeat split; [constructor | exact H]. }
  induction fuel as [|fuel IH]; intros c tokens result;
    cbn [Lexer.tokenize_loop];
    (destruct (Lexer.rest c) as [|c0 r0] eqn:Hrest;
     [ intros [= <-]; apply Hfinish; lia | ]);
    pose proof (skip_whitespace_from_line (Lexer.rest c) (Lexer.cur_line c) (Lexer.cur_column c))
      as Hws; fold (Lexer.skip_whitespace c) in Hws;
    (destruct (Lexer.current_char (Lexer.skip_whitespace c)) as [ch | ] eqn:Hcur;
     [ | intros [= <-]; apply Hfinish; exact Hws ]);
    (destruct (Lexer.scan_one ch (Lexer.skip_whitespace c)) as [msg | [ts c']] eqn:Hscan;
     [ discriminate | ]).
  - discriminate.
  - destruct (scan_one_tokens _ _ _ _ Hcur Hscan) as (Hln & Hts).
    pose proof (scan_one_length _ _ _ _ Hscan) as Hlen.
    intros H. destruct (IH _ _ _ H) as (body & ln & col & -> & Hbody & Hasc).
    exists (ts ++ body), ln, col. rewrite <- !app_assoc. split; [reflexivity | ]. split.
    + apply Forall_app. split; [ | exact Hbody].
      eapply Forall_impl; [exact Hts | ]. intros t Ht. eauto.
    + destruct ts as [|t [|t' ts]]; [ | | simpl in Hlen; lia].
      * eapply ascending_from_weaken; [ | exact Hasc]. lia.
      * apply Forall_inv in Hts. destruct Hts as (_ & Ht & _).
        cbn [app List.map ascending_from]. split; [lia | ].
        eapply ascending_from_weaken; [ | exact Hasc]. lia.
Qed.

Lemma tokenize_shape (source : list N) (tokens : list Lexer.Token) :
  Lexer.tokenize source = Some (inr tokens) ->
  exists (body : list Lexer.Token) (ln col : N),
    tokens = body ++ [Lexer.mkToken Lexer.EOF [] ln col]
    /\ Forall (fun t => exists c1 c2, scanned c1 c2 t) body
    /\ ascending_from 1 (List.map Lexer.line tokens).
Proof.
  intros H. apply tokenize_loop_shape in H.
  destruct H as (body & ln & col & -> & Hbody & Hasc).
  exists body, ln, col. auto.
Qed.

(** X14: the scanner comes to an end on every source, with the token
    list or with the message of its [ValueError]: the loop needs at most
    as many passes as the source has characters. *)
Theorem scanner_terminates (source : list N) :
  exists r, Lexer.tokenize source = Some r.
Proof.
  destruct (Lexer.tokenize source) as [r | ] eqn:H; [eauto | ].
  exfalso. exact (tokenize_total source H).
Qed.

(** X15: a token list the scanner returns ends with the end-of-input
    token, with the empty lexeme, and has no other token of that type. *)
Theorem tokens_end_with_the_only_EOF (source : list N) (tokens : list Lexer.Token) :
  Lexer.tokenize source = Some (inr tokens) ->
  exists (body : list Lexer.Token) (ln col : N),
    tokens = body ++ [Lexer.mkToken Lexer.EOF [] ln col]
    /\ Forall (fun t => Lexer.type t <> Lexer.EOF) body.
Proof.
  intros H. destruct (tokenize_shape _ _ H) as (body & ln & col & -> & Hbody & _).
  exists body, ln, col. split; [reflexivity | ].
  eapply Forall_impl; [exact Hbody | ]. intros t (c1 & c2 & Ht & _). exact Ht.
Qed.

Lemma tokens_end_with_the_only_EOF_witness :
  exists (body : list Lexer.Token) (ln col : N),
    [ Lexer.mkToken Lexer.IDENTIFIER (u "ա") 1 1; Lexer.mkToken Lexer.EOF [] 1 2 ]
    = body ++ [Lexer.mkToken Lexer.EOF [] ln col]
    /\ Forall (fun t => Lexer.type t <> Lexer.EOF) body.
Proof.
  apply (tokens_end_with_the_only_EOF (u "ա")). vm_compute. reflexivity.
Defined.

(** X16: an identifier token and a keyword token is a non-empty run of
    Armenian letters, and its type is the keyword table's entry for the
    run, [IDENTIFIER] when the table has none: a keyword is never scanned
    as an identifier, and no other token has one of these types. *)
Theorem word_tokens_are_armenian_runs (source : list N) (tokens : list Lexer.Token) :
  Lexer.tokenize source = Some (inr tokens) ->
  Forall (fun t => In (Lexer.type t) word_types ->
                   Lexer.value t <> []
                   /\ forallb Lexer.is_armenian_char (Lexer.value t) = true
                   /\ Lexer.type t = word_type (Lexer.value t)) tokens.
Proof.
  intros H. destruct (tokenize_shape _ _ H) as (body & ln & col & -> & Hbody & _).
  apply Forall_app. split.
  - eapply Forall_impl; [exact Hbody | ]. intros t (c1 & c2 & _ & _ & Ht). exact Ht.
  - constructor; [ | constructor]. simpl. intuition discriminate.
Qed.

Lemma word_tokens_are_armenian_runs_witness :
  Forall (fun t => In (Lexer.type t) word_types ->
                   Lexer.value t <> []
                   /\ forallb Lexer.is_armenian_char (Lexer.value t) = true
                   /\ Lexer.type t = word_type (Lexer.value t))
         [ Lexer.mkToken Lexer.IF (u "եթե") 1 1;
           Lexer.mkToken Lexer.IDENTIFIER (u "ա") 1 5;
           Lexer.mkToken Lexer.EOF [] 1 6 ].
Proof.
  apply (word_tokens_are_armenian_runs (u "եթե ա")). vm_compute. reflexivity.
Defined.

(** X17: along the token list the line numbers never go down, and the
    first is at least 1. *)
Theorem token_lines_ascend (source : list N) (tokens : list Lexer.Token) :
  Lexer.tokenize source = Some (inr tokens) ->
  ascending_from 1 (List.map Lexer.line tokens).
Proof.
  intros H. destruct (tokenize_shape _ _ H) as (body & ln & col & _ & _ & Hasc).
  exact Hasc.
Qed.

Lemma token_lines_ascend_witness :
  ascending_from 1 (List.map Lexer.line
                      [ Lexer.mkToken Lexer.IDENTIFIER (u "ա") 1 1;
                        Lexer.mkToken Lexer.NEWLINE [10] 1 2;
                        Lexer.mkToken Lexer.IDENTIFIER (u "բ") 2 1;
                        Lexer.mkToken Lexer.EOF [] 2 2 ]).
Proof.
  apply (token_lines_ascend (u "ա" ++ [10] ++ u "բ")). vm_compute. reflexivity.
Defined.

Lemma skip_whitespace_from_blank (ws tail : list N) (ln col : N) :
  forallb is_blank ws = true ->
  match tail with ch :: _ => is_blank ch = false | [] => True end ->
  Lexer.skip_whitespace_from (ws ++ tail) ln col
    = Lexer.mkCursor tail ln (col + N.of_nat (length ws)).
Proof.
  intros Hws Htail. revert col. induction ws as [|w ws IH]; intros col.
  - simpl app. replace (col + N.of_nat (length (@nil N))) with col by (simpl; lia).
    destruct tail as [|ch r]; [reflexivity | ].
    cbn [Lexer.skip_whitespace_from]. fold (is_blank ch). rewrite Htail. reflexivity.
  - simpl in Hws. apply andb_true_iff in Hws. destruct Hws as [Hw Hws].
    cbn [app Lexer.skip_whitespace_from]. fold (is_blank w). rewrite Hw.
    assert (Hstep : Lexer.step w ln col = (ln, col + 1)).
    { unfold Lexer.step. destruct (w =? 10) eqn:E; [ | reflexivity].
      apply N.eqb_eq in E. subst w. discriminate. }
    rewrite Hstep, (IH Hws). f_equal. simpl length. lia.
Qed.

(** X18: a source of blanks only (spaces, tabs, carriage returns), the
    empty source among them, gives the end-of-input token alone, at line
    1 and at the column after the last blank. *)
Theorem blank_source_gives_EOF_alone (source : list N) :
  forallb is_blank source = true ->
  Lexer.tokenize source
    = Some (inr [Lexer.mkToken Lexer.EOF [] 1 (1 + N.of_nat (length source))]).
Proof.
  intros H.
  assert (Hskip : Lexer.skip_whitespace (Lexer.mkCursor source 1 1)
                  = Lexer.mkCursor [] 1 (1 + N.of_nat (length source))).
  { unfold Lexer.skip_whitespace. cbn [Lexer.rest Lexer.cur_line Lexer.cur_column].
    rewrite <- (app_nil_r source) at 1. apply skip_whitespace_from_blank; [exact H | exact I]. }
  assert (G : forall fuel, Lexer.tokenize_loop fuel (Lexer.mkCursor source 1 1) []
                = Some (inr [Lexer.mkToken Lexer.EOF [] 1 (1 + N.of_nat (length source))])).
  { intros fuel. destruct source as [|ch r] eqn:E; [destruct fuel; reflexivity | ].
    rewrite <- E in *.
    assert (Hr : Lexer.rest (Lexer.mkCursor source 1 1) = ch :: r) by (rewrite E; reflexivity).
    destruct fuel; cbn [Lexer.tokenize_loop]; rewrite Hr, Hskip; reflexivity. }
  apply G.
Qed.

Lemma blank_source_gives_EOF_alone_witness :
  Lexer.tokenize (u "  ")
    = Some (inr [Lexer.mkToken Lexer.EOF [] 1 (1 + N.of_nat (length (u "  ")))]).
Proof. apply (blank_source_gives_EOF_alone (u "  ")). reflexivity. Defined.

(** X19: when the first character after leading blanks is one the
    scanner has no branch for (a semicolon, a square bracket, a Latin
    letter, ...), [tokenize] raises [ValueError] with the message
    [Unknown character '<ch>' at line 1, column <k>], where [k] counts the
    blanks before it. *)
Theorem unknown_character_is_rejected (ws : list N) (ch : N) (tail : list N) :
  forallb is_blank ws = true ->
  is_blank ch = false ->
  starts_token ch = false ->
  Lexer.tokenize (ws ++ ch :: tail)
    = Some (inl (Lexer.unknown_character ch 1 (1 + N.of_nat (length ws)))).
Proof.
  intros Hws Hch Hst. unfold Lexer.tokenize.
  assert (Hskip : Lexer.skip_whitespace (Lexer.mkCursor (ws ++ ch :: tail) 1 1)
                  = Lexer.mkCursor (ch :: tail) 1 (1 + N.of_nat (length ws))).
  { apply skip_whitespace_from_blank; assumption. }
  assert (Hscan : Lexer.scan_one ch (Lexer.mkCursor (ch :: tail) 1 (1 + N.of_nat (length ws)))
                  = inl (Lexer.unknown_character ch 1 (1 + N.of_nat (length ws)))).
  { unfold starts_token in Hst.
    repeat (apply orb_false_iff in Hst; destruct Hst as [Hst ?]).
    unfold Lexer.scan_one.
    repeat match goal with
           | H : ?b = false |- context [if ?b then _ else _] => rewrite H
           end.
    destruct (Lexer.lookup_char ch Lexer.single_chars); [discriminate | ].
    assert (H61 : (ch =? 61) = false).
    { destruct (ch =? 61) eqn:E; [ | reflexivity]. apply N.eqb_eq in E. subst ch. discriminate. }
    assert (H60 : (ch =? 60) = false).
    { destruct (ch =? 60) eqn:E; [ | reflexivity]. apply N.eqb_eq in E. subst ch. discriminate. }
    assert (H62 : (ch =? 62) = false).
    { destruct (ch =? 62) eqn:E; [ | reflexivity]. apply N.eqb_eq in E. subst ch. discriminate. }
    rewrite H61, H60, H62. reflexivity. }
  assert (G : forall fuel, Lexer.tokenize_loop fuel (Lexer.mkCursor (ws ++ ch :: tail) 1 1) []
                = Some (inl (Lexer.unknown_character ch 1 (1 + N.of_nat (length ws))))).
  { intros fuel.
    destruct (ws ++ ch :: tail) as [|x l] eqn:E; [destruct ws; discriminate | ].
    rewrite <- E in *.
    assert (Hr : Lexer.rest (Lexer.mkCursor (ws ++ ch :: tail) 1 1) = x :: l)
      by (rewrite E; reflexivity).
    destruct fuel; cbn [Lexer.tokenize_loop];
      rewrite Hr, Hskip; cbn [Lexer.current_char Lexer.rest head]; rewrite Hscan; reflexivity. }
  apply G.
Qed.

Lemma unknown_character_is_rejected_witness :
  Lexer.tokenize (u " " ++ 59 :: u "ա")
    = Some (inl (Lexer.unknown_character 59 1 (1 + N.of_nat (length (u " "))))).
Proof. apply (unknown_character_is_rejected (u " ") 59 (u "ա")); reflexivity. Defined.

Lemma read_string_from_plain (q : N) (body : list N) :
  forallb (plain_string_char q) body = true ->
  forall ln col acc, exists ln' col',
    Lexer.read_string_from q body ln col acc
      = inr (acc ++ body, Lexer.mkCursor [] ln' col').
Proof.
  induction body as [|ch r IH]; intros H ln col acc.
  - exists ln, col. rewrite app_nil_r. reflexivity.
  - simpl in H. apply andb_true_iff in H. destruct H as [Hch Hr].
    unfold plain_string_char in Hch.
    apply andb_true_iff in Hch. destruct Hch as [Hch H92].
    apply andb_true_iff in Hch. destruct Hch as [Hv Hq].
    apply negb_true_iff in H92, Hq.
    cbn [Lexer.read_string_from]. rewrite Hq, H92, Hv. cbn [negb].
    destruct (Lexer.step ch ln col) as [ln1 col1].
    destruct (IH Hr ln1 col1 (acc ++ [ch])) as (ln' & col' & ->).
    exists ln', col'. rewrite <- app_assoc. reflexivity.
Qed.

(** X20: a string literal that is never closed is not an error: when
    the source is a quote followed by characters that are valid in a
    string, none of them that quote or a backslash, the scanner gives one
    [STRING] token with all of them, at column 1 and at the line the source
    ends on, and then the end of input. *)
Theorem unterminated_string_is_accepted (q : N) (body : list N) :
  char_in q [34; 39] = true ->
  forallb (plain_string_char q) body = true ->
  exists ln col,
    Lexer.tokenize (q :: body)
      = Some (inr [ Lexer.mkToken Lexer.STRING body ln 1;
                    Lexer.mkToken Lexer.EOF [] ln col ]).
Proof.
  intros Hq Hbody.
  destruct (read_string_from_plain q body Hbody 1 2 []) as (ln & col & Hread).
  exists ln, col. unfold Lexer.tokenize. cbn [length Lexer.tokenize_loop Lexer.rest].
  assert (Hc : q = 34 \/ q = 39).
  { simpl in Hq. destruct (q =? 34) eqn:E1; [apply N.eqb_eq in E1; auto | ].
    destruct (q =? 39) eqn:E2; [apply N.eqb_eq in E2; auto | discriminate]. }
  assert (Hscan : Lexer.scan_one q (Lexer.mkCursor (q :: body) 1 1)
                  = inr ([Lexer.mkToken Lexer.STRING body ln 1], Lexer.mkCursor [] ln col)).
  { assert (Hrs : Lexer.read_string (Lexer.mkCursor (q :: body) 1 1)
                  = inr (Lexer.mkToken Lexer.STRING body ln 1, Lexer.mkCursor [] ln col)).
    { unfold Lexer.read_string. cbn [Lexer.rest Lexer.cur_column].
      replace (Lexer.advance (Lexer.mkCursor (q :: body) 1 1)) with (Lexer.mkCursor body 1 2)
        by (destruct Hc; subst q; reflexivity).
      cbn [Lexer.rest Lexer.cur_line Lexer.cur_column]. rewrite Hread. reflexivity. }
    unfold Lexer.scan_one.
    destruct Hc; subst q;
      change (10 =? 10) with true; cbv beta iota;
      match goal with
      | |- (if ?a then _ else if ?b then _ else if ?d then _ else if ?e then _ else _) = _ =>
        change a with false; change b with false; change d with false; change e with true
      end; cbv beta iota; rewrite Hrs; reflexivity. }
  assert (Hskip : Lexer.skip_whitespace (Lexer.mkCursor (q :: body) 1 1)
                  = Lexer.mkCursor (q :: body) 1 1).
  { unfold Lexer.skip_whitespace. cbn [Lexer.rest Lexer.skip_whitespace_from].
    destruct Hc; subst q; reflexivity. }
  rewrite Hskip. cbn [Lexer.current_char Lexer.rest head]. rewrite Hscan.
  destruct (length body); reflexivity.
Qed.

Lemma unterminated_string_is_accepted_witness :
  exists ln col,
    Lexer.tokenize (34 :: u "ա")
      = Some (inr [ Lexer.mkToken Lexer.STRING (u "ա") ln 1;
                    Lexer.mkToken Lexer.EOF [] ln col ]).
Proof. apply (unterminated_string_is_accepted 34 (u "ա")); reflexivity. Defined.

(** ** Statements *)

(** X21: a [մինչև] loop ends normally only after its condition has
    evaluated to a falsy value: the state it leaves is the state that
    evaluation left, and its result is [None]. *)
Theorem while_exits_on_falsy_condition
        (fuel : nat) (condition : ASTNode) (body : list ASTNode)
        (st st' : Interpreter) (r : option SoorjValue) :
  execute fuel (WhileStatement condition body) st = (Returns r, st') ->
  r = None
  /\ exists (n : nat) (st0 : Interpreter) (v : SoorjValue),
       evaluate n condition st0 = (Returns v, st') /\ is_truthy v = false.
Proof.
  revert st. induction fuel as [|n IH]; intros st; [discriminate | ].
  cbn [execute execute_node]. unfold bind.
  destruct (evaluate n condition st) as [[v | e | ] s1] eqn:Hc; try discriminate.
  destruct (is_truthy v) eqn:Hv; cbn [negb].
  - destruct (execute_each (execute n) body s1) as [[x | e | ] s2]; try discriminate.
    apply IH.
  - intros [= <- <-]. split; [reflexivity | ]. exists n, st, v. auto.
Qed.

Lemma while_exits_on_falsy_condition_witness :
  @None SoorjValue = None
  /\ exists (n : nat) (st0 : Interpreter) (v : SoorjValue),
       evaluate n (BooleanLiteral false) st0 = (Returns v, Interpreter_init)
       /\ is_truthy v = false.
Proof.
  apply (while_exits_on_falsy_condition 2 (BooleanLiteral false) [] Interpreter_init).
  reflexivity.
Defined.

(** X22: no statement and no expression leaks a scope: however it ends
    (with a result, with an exception, or cut short), the interpreter's
    environment is afterwards as many frames deep as it was before. *)
Theorem statements_keep_environment_depth
        (fuel : nat) (node : ASTNode) (st st' : Interpreter)
        (r : outcome (option SoorjValue)) :
  execute fuel node st = (r, st') ->
  depth (environment st') = depth (environment st).
Proof. apply (proj2 (evaluator_keeps_depth fuel)). Qed.

Lemma statements_keep_environment_depth_witness :
  depth (environment
           (snd (execute 5 (ExpressionStatement (FunctionCall (u "գրէ") []))
                         Interpreter_init)))
  = depth (environment Interpreter_init).
Proof.
  apply (statements_keep_environment_depth
           5 (ExpressionStatement (FunctionCall (u "գրէ") [])) Interpreter_init _
           (fst (execute 5 (ExpressionStatement (FunctionCall (u "գրէ") []))
                         Interpreter_init))).
  vm_compute. reflexivity.
Defined.

(** ** The output *)

Lemma keeps_output_ret {A : Type} (a : A) : keeps_output (ret a).
Proof. intros st r st' [= <- <-]. reflexivity. Qed.

Lemma keeps_output_raise {A : Type} (e : Exception) : keeps_output (@raise A e).
Proof. intros st r st' [= <- <-]. reflexivity. Qed.

Lemma keeps_output_bind {A B : Type} (c : M A) (k : A -> M B) :
  keeps_output c -> (forall a, keeps_output (k a)) -> keeps_output (bind c k).
Proof.
  intros Hc Hk st r st'. unfold bind.
  destruct (c st) as [[a | e | ] s1] eqn:E.
  - intros H. etransitivity; [eapply Hc; eassumption | eapply Hk; eassumption].
  - intros [= <- <-]. eapply Hc; eassumption.
  - intros [= <- <-]. eapply Hc; eassumption.
Qed.

Lemma keeps_output_pure {A : Type} (m : M A) :
  (forall st r st', m st = (r, st') -> st' = st) -> keeps_output m.
Proof. intros H st r st' E. rewrite (H _ _ _ E). reflexivity. Qed.

Lemma keeps_output_lift_host {A : Type} (r : host_result A) : keeps_output (lift_host r).
Proof. destruct r as [[cls msg] | a]; [apply keeps_output_raise | apply keeps_output_ret]. Qed.

Lemma keeps_output_builtin (f : builtin) (args : list SoorjValue) :
  keeps_output (BuiltinFunction_call f args).
Proof.
  destruct f; simpl.
  - intros st r st'. unfold builtin_gre.
    destruct (length args =? 0)%nat;
      [intros [= <- <-]; simpl; apply prefix_app_r; reflexivity | ].
    destruct (str_each args) as [[cls msg] | parts]; intros [= <- <-];
      [reflexivity | simpl; apply prefix_app_r; reflexivity].
  - destruct args as [|[] [|? ?]]; simpl;
      try apply keeps_output_ret; try apply keeps_output_raise.
    destruct (float_of_str s); apply keeps_output_ret.
  - destruct args as [|[] [|? ?]]; simpl;
      try apply keeps_output_ret; try apply keeps_output_raise;
      (apply keeps_output_bind;
       [apply keeps_output_lift_host | intros s'; apply keeps_output_ret]).
Qed.

Lemma stdout_restore_environment (prev_env : Environment) (st : Interpreter) :
  stdout (restore_environment prev_env st) = stdout st.
Proof. unfold restore_environment. destruct (parent (environment st)); reflexivity. Qed.

Section KeepsOutput.

Variable eval : ASTNode -> M SoorjValue.
Variable exec : ASTNode -> M (option SoorjValue).
Hypothesis eval_keeps : forall node, keeps_output (eval node).
Hypothesis exec_keeps : forall node, keeps_output (exec node).

Lemma keeps_output_execute_each (stmts : list ASTNode) :
  keeps_output (execute_each exec stmts).
Proof.
  induction stmts as [|s stmts IH]; simpl.
  - apply keeps_output_ret.
  - apply keeps_output_bind; [apply exec_keeps | intros _; exact IH].
Qed.

Lemma keeps_output_evaluate_each (args : list ASTNode) :
  keeps_output (evaluate_each eval args).
Proof.
  induction args as [|a args IH]; simpl.
  - apply keeps_output_ret.
  - apply keeps_output_bind; [apply eval_keeps | intros v].
    apply keeps_output_bind; [exact IH | intros vs; apply keeps_output_ret].
Qed.

Lemma keeps_output_SoorjFunction_call (name : pystr) (params : list pystr)
      (body : list ASTNode) (args : list SoorjValue) :
  keeps_output (SoorjFunction_call exec name params body args).
Proof.
  intros st r st'. unfold SoorjFunction_call.
  destruct (negb (length args =? length params)%nat); [intros [= <- <-]; reflexivity | ].
  destruct (execute_each exec body _) as [res st2] eqn:Hbody.
  apply keeps_output_execute_each in Hbody. simpl in Hbody.
  destruct res as [[] | [v | m | c m] | ]; intros [= <- <-];
    rewrite stdout_restore_environment; exact Hbody.
Qed.

Lemma keeps_output_evaluate_node (node : ASTNode) :
  keeps_output (evaluate_node eval exec node).
Proof.
  destruct node as [f | s | b | | name | lhs op rhs | op operand | target rhs
                    | name arguments | | | | | | ];
    simpl; try apply keeps_output_ret; try apply keeps_output_raise.
  - (* Identifier *)
    apply keeps_output_pure. intros st r st'. unfold lift_env.
    destruct (get (environment st) name); intros [= <- <-]; reflexivity.
  - (* BinaryOp *)
    apply keeps_output_bind; [apply eval_keeps | intros l].
    apply keeps_output_bind; [apply eval_keeps | intros r].
    apply keeps_output_pure. intros st res st' H.
    apply (binary_op_pure _ _ _ _ _ _ H).
  - (* UnaryOp *)
    apply keeps_output_bind; [apply eval_keeps | intros v].
    destruct (str_eqb op (u "-")).
    + destruct v; try apply keeps_output_ret; apply keeps_output_raise.
    + destruct (str_eqb op (u "չի") || str_eqb op (u "not"));
        [apply keeps_output_ret | apply keeps_output_raise].
  - (* Assignment *)
    apply keeps_output_bind; [apply eval_keeps | intros v].
    intros st r st'.
    destruct (assign (environment st) target v) as [e | env'] eqn:Ha.
    + destruct (is_RuntimeError e); intros [= <- <-]; reflexivity.
    + intros [= <- <-]. reflexivity.
  - (* FunctionCall *)
    unfold evaluate_function_call.
    apply keeps_output_bind.
    + apply keeps_output_pure. intros st r st'. unfold lift_env.
      destruct (get (environment st) name); intros [= <- <-]; reflexivity.
    + intros [ | | | | fn]; try apply keeps_output_raise.
      apply keeps_output_bind; [apply keeps_output_evaluate_each | intros vs].
      destruct fn; simpl;
        [apply keeps_output_SoorjFunction_call | apply keeps_output_builtin].
Qed.

Lemma keeps_output_execute_node (node : ASTNode) :
  keeps_output (execute_node eval exec node).
Proof.
  destruct node as [f | s | b | | name | lhs op rhs | op operand | target rhs
                    | name arguments | e | c th el | c body | [e | ] | name ps body | stmts ];
    simpl;
    try (apply keeps_output_bind; [apply eval_keeps | intros v; apply keeps_output_ret]).
  - (* IfStatement *)
    apply keeps_output_bind; [apply eval_keeps | intros v].
    destruct (is_truthy v).
    + apply keeps_output_bind;
        [apply keeps_output_execute_each | intros _; apply keeps_output_ret].
    + destruct el as [[|s rest] | ]; try apply keeps_output_ret.
      apply keeps_output_bind;
        [exact (keeps_output_execute_each (s :: rest)) | intros _; apply keeps_output_ret].
  - (* WhileStatement *)
    apply keeps_output_bind; [apply eval_keeps | intros v].
    destruct (negb (is_truthy v)); [apply keeps_output_ret | ].
    apply keeps_output_bind; [apply keeps_output_execute_each | intros _; apply exec_keeps].
  - (* ReturnStatement *)
    apply keeps_output_bind; [apply eval_keeps | intros v; apply keeps_output_raise].
  - apply keeps_output_raise.
  - (* FunctionDeclaration *)
    intros st r st' [= <- <-]. reflexivity.
  - (* Program *)
    apply keeps_output_bind;
      [apply keeps_output_execute_each | intros _; apply keeps_output_ret].
Qed.

End KeepsOutput.

Lemma evaluator_keeps_output (fuel : nat) :
  (forall node, keeps_output (evaluate fuel node))
  /\ (forall node, keeps_output (execute fuel node)).
Proof.
  induction fuel as [|n [IHev IHex]].
  - split; intros node st r st' [= <- <-]; reflexivity.
  - split; intros node; cbn [evaluate execute].
    + apply (keeps_output_evaluate_node (evaluate n) (execute n) IHev IHex).
    + apply (keeps_output_execute_node (evaluate n) (execute n) IHev IHex).
Qed.

(** X23: output is only ever appended: whatever a program does and
    however [interpret] ends, with an exception too, the lines printed
    before are still there, in front of what the program printed. *)
Theorem interpret_only_appends_output
        (fuel : nat) (statements : list ASTNode) (st st' : Interpreter)
        (r : outcome unit) :
  interpret fuel statements st = (r, st') ->
  prefix (stdout st) (stdout st').
Proof.
  unfold interpret.
  destruct (execute_each (execute fuel) statements st) as [res s1] eqn:H.
  apply (keeps_output_execute_each (execute fuel) (proj2 (evaluator_keeps_output fuel))) in H.
  destruct res as [[] | e | ]; try (intros [= <- <-]; exact H).
  destruct (is_RuntimeError e); [ | intros [= <- <-]; exact H].
  destruct (Exception_str e) as [[cls msg] | message]; intros [= <- <-]; [exact H | ].
  simpl. apply prefix_app_r. exact H.
Qed.

Lemma interpret_only_appends_output_witness :
  prefix (stdout Interpreter_init)
         (stdout (snd (interpret 5 [ExpressionStatement (FunctionCall (u "գրէ") [])]
                                 Interpreter_init))).
Proof.
  apply (interpret_only_appends_output
           5 [ExpressionStatement (FunctionCall (u "գրէ") [])] Interpreter_init _
           (fst (interpret 5 [ExpressionStatement (FunctionCall (u "գրէ") [])]
                           Interpreter_init))).
  vm_compute. reflexivity.
Defined.



(** ** The parser *)

Lemma TokenType_beq_eq (a b : Lexer.TokenType) : TokenType_beq a b = true <-> a = b.
Proof.
  split; [apply internal_TokenType_dec_bl | apply internal_TokenType_dec_lb].
Qed.

Section ParserFacts.

Import Parser.

Variable tokens : list Lexer.Token.

Lemma is_at_end_at (cur : nat) (t : Lexer.Token) :
  tokens !! cur = Some t ->
  is_at_end tokens cur = (Done (TokenType_beq (Lexer.type t) Lexer.EOF), cur).
Proof. intros H. unfold is_at_end, pbind, peek. rewrite H. reflexivity. Qed.

Lemma check_at (ty : Lexer.TokenType) (cur : nat) (t : Lexer.Token) :
  tokens !! cur = Some t ->
  check tokens ty cur
    = (Done (negb (TokenType_beq (Lexer.type t) Lexer.EOF)
             && TokenType_beq (Lexer.type t) ty), cur).
Proof.
  intros H. unfold check, pbind. rewrite (is_at_end_at _ _ H).
  destruct (TokenType_beq (Lexer.type t) Lexer.EOF); [reflexivity | ].
  unfold peek. rewrite H. reflexivity.
Qed.

Lemma advance_at (cur : nat) (t : Lexer.Token) :
  tokens !! cur = Some t ->
  TokenType_beq (Lexer.type t) Lexer.EOF = false ->
  advance tokens cur = (Done t, S cur).
Proof.
  intros H He. unfold advance, pbind. rewrite (is_at_end_at _ _ H), He.
  unfold previous. rewrite H. reflexivity.
Qed.

(** [match] consumes the token exactly when its type is one of the
    given ones, the end-of-input token never. *)
Lemma match_at (types : list Lexer.TokenType) (cur : nat) (t : Lexer.Token) :
  tokens !! cur = Some t ->
  match_ tokens types cur
    = if negb (TokenType_beq (Lexer.type t) Lexer.EOF)
         && existsb (TokenType_beq (Lexer.type t)) types
      then (Done true, S cur) else (Done false, cur).
Proof.
  intros H. induction types as [|ty types IH]; cbn [match_ existsb].
  - rewrite andb_false_r. reflexivity.
  - unfold pbind at 1. rewrite (check_at _ _ _ H).
    destruct (TokenType_beq (Lexer.type t) Lexer.EOF) eqn:He; cbn [negb andb] in *.
    + exact IH.
    + destruct (TokenType_beq (Lexer.type t) ty); cbn [orb].
      * unfold pbind. rewrite (advance_at _ _ H He). reflexivity.
      * exact IH.
Qed.

Lemma skip_newlines_stays (fuel : nat) (cur : nat) (t : Lexer.Token) :
  tokens !! cur = Some t ->
  TokenType_beq (Lexer.type t) Lexer.NEWLINE = false ->
  skip_newlines tokens fuel cur
    = match fuel with O => (Unfinished, cur) | S _ => (Done tt, cur) end.
Proof.
  intros H Hn. destruct fuel as [|n]; [reflexivity | ].
  cbn [skip_newlines]. unfold pbind. rewrite (match_at _ _ _ H). cbn [existsb].
  rewrite Hn, andb_false_r. reflexivity.
Qed.

(** At a closing brace [statement] returns [None] and consumes
    nothing. *)
Lemma statement_at_brace (fuel : nat) (cur : nat) :
  stands_at tokens Lexer.RIGHT_BRACE cur = true ->
  statement tokens fuel cur = (Done None, cur)
  \/ statement tokens fuel cur = (Unfinished, cur).
Proof.
  unfold stands_at. destruct (tokens !! cur) as [t | ] eqn:H; [ | discriminate].
  intros Ht. apply TokenType_beq_eq in Ht.
  destruct fuel as [|n]; [right; reflexivity | ].
  cbn [statement]. unfold statement_body. unfold pbind at 1.
  rewrite (skip_newlines_stays n cur t H) by (rewrite Ht; reflexivity).
  destruct n as [|n]; [right; reflexivity | left].
  unfold pbind.
  repeat (rewrite (match_at _ _ _ H), Ht; cbn [TokenType_beq existsb negb andb orb]).
  rewrite (check_at _ _ _ H), Ht. reflexivity.
Qed.

Lemma parse_loop_at_brace (fuel n : nat) (statements : list ASTNode) (cur : nat) :
  stands_at tokens Lexer.RIGHT_BRACE cur = true ->
  parse_loop tokens fuel n statements cur = (Unfinished, cur).
Proof.
  intros Hb. pose proof Hb as Hb'. unfold stands_at in Hb'.
  destruct (tokens !! cur) as [t | ] eqn:H; [ | discriminate].
  apply TokenType_beq_eq in Hb'.
  revert statements. induction n as [|k IH]; intros statements; [reflexivity | ].
  cbn [parse_loop]. unfold pbind at 1. rewrite (is_at_end_at _ _ H), Hb'.
  cbn [TokenType_beq]. unfold pbind at 1.
  rewrite (skip_newlines_stays fuel cur t H) by (rewrite Hb'; reflexivity).
  destruct fuel as [|f]; [reflexivity | ].
  unfold pbind at 1. rewrite (is_at_end_at _ _ H), Hb'. cbn [TokenType_beq].
  unfold pbind.
  destruct (statement_at_brace (S f) cur Hb) as [-> | ->]; [apply IH | reflexivity].
Qed.

End ParserFacts.

(** X25: a closing brace where a top-level statement should start hangs
    the parser: [statement] returns [None] there without consuming the
    brace, and the loop of [parse], whatever it has collected so far, comes
    back to the same token for ever.  In particular [parse] never returns
    on a token list that starts with a closing brace. *)
Theorem stray_closing_brace_hangs_parse
        (tokens : list Lexer.Token) (cur : nat) :
  stands_at tokens Lexer.RIGHT_BRACE cur = true ->
  (forall fuel n statements,
      Parser.parse_loop tokens fuel n statements cur = (Parser.Unfinished, cur))
  /\ (cur = O -> forall fuel, Parser.parse fuel tokens = Parser.Unfinished).
Proof.
  intros H. split.
  - intros fuel n statements. apply parse_loop_at_brace. exact H.
  - intros -> fuel. unfold Parser.parse. rewrite parse_loop_at_brace by exact H. reflexivity.
Qed.

Lemma stray_closing_brace_hangs_parse_witness :
  Parser.parse 1000
    [ Lexer.mkToken Lexer.RIGHT_BRACE (u "}") 1 1; Lexer.mkToken Lexer.EOF [] 1 2 ]
  = Parser.Unfinished.
Proof.
  apply (stray_closing_brace_hangs_parse
           [ Lexer.mkToken Lexer.RIGHT_BRACE (u "}") 1 1; Lexer.mkToken Lexer.EOF [] 1 2 ]
           O); reflexivity.
Defined.

Section Termination.

Import Parser.

Variable tokens : list Lexer.Token.
Hypothesis Hend : well_ended tokens = true.

Local Abbreviation len := (length tokens).

Lemma token_in_range (cur : nat) : (cur < len)%nat -> exists t, tokens !! cur = Some t.
Proof. intros H. apply lookup_lt_is_Some in H. destruct H as [t H]. eauto. Qed.

Lemma next_in_range (cur : nat) (t : Lexer.Token) :
  tokens !! cur = Some t ->
  TokenType_beq (Lexer.type t) Lexer.EOF = false ->
  (S cur < len)%nat.
Proof.
  intros H He. pose proof (lookup_lt_Some _ _ _ H) as Hlt.
  unfold well_ended in Hend. rewrite last_lookup in Hend.
  destruct (decide (S cur = len)) as [E | E]; [ | lia].
  rewrite <- E in Hend. simpl in Hend. rewrite H, He in Hend. discriminate.
Qed.

Lemma match_cases (types : list Lexer.TokenType) (cur : nat) :
  (cur < len)%nat ->
  (match_ tokens types cur = (Done true, S cur) /\ (S cur < len)%nat)
  \/ match_ tokens types cur = (Done false, cur).
Proof.
  intros H. destruct (token_in_range cur H) as [t Ht]. rewrite (match_at _ _ _ _ Ht).
  destruct (TokenType_beq (Lexer.type t) Lexer.EOF) eqn:He; cbn [negb andb]; [auto | ].
  destruct (existsb _ types); [left | auto].
  split; [reflexivity | eapply next_in_range; eassumption].
Qed.

Lemma check_cases (ty : Lexer.TokenType) (cur : nat) :
  (cur < len)%nat ->
  (check tokens ty cur = (Done true, cur)
   /\ stands_at tokens ty cur = true /\ (S cur < len)%nat)
  \/ (check tokens ty cur = (Done false, cur)
      /\ (ty <> Lexer.EOF -> stands_at tokens ty cur = false)).
Proof.
  intros H. destruct (token_in_range cur H) as [t Ht]. rewrite (check_at _ _ _ _ Ht).
  unfold stands_at. rewrite Ht.
  destruct (TokenType_beq (Lexer.type t) Lexer.EOF) eqn:He; cbn [negb andb].
  - right. split; [reflexivity | ]. intros Hty.
    destruct (TokenType_beq (Lexer.type t) ty) eqn:Hb; [ | reflexivity].
    apply TokenType_beq_eq in He, Hb. congruence.
  - destruct (TokenType_beq (Lexer.type t) ty); [left | right; auto].
    repeat split. eapply next_in_range; eassumption.
Qed.

(** [check(TokenType.EOF)] is never true: at the end of input [check]
    answers [False] before it looks at the type. *)
Lemma check_EOF (cur : nat) :
  (cur < len)%nat -> check tokens Lexer.EOF cur = (Done false, cur).
Proof.
  intros H. destruct (token_in_range cur H) as [t Ht]. rewrite (check_at _ _ _ _ Ht).
  destruct (TokenType_beq (Lexer.type t) Lexer.EOF); reflexivity.
Qed.

Lemma is_at_end_cases (cur : nat) :
  (cur < len)%nat ->
  (is_at_end tokens cur = (Done true, cur) /\ stands_at tokens Lexer.EOF cur = true)
  \/ (is_at_end tokens cur = (Done false, cur)
      /\ stands_at tokens Lexer.EOF cur = false /\ (S cur < len)%nat).
Proof.
  intros H. destruct (token_in_range cur H) as [t Ht]. rewrite (is_at_end_at _ _ _ Ht).
  unfold stands_at. rewrite Ht.
  destruct (TokenType_beq (Lexer.type t) Lexer.EOF) eqn:He; [auto | right].
  repeat split. eapply next_in_range; eassumption.
Qed.

Lemma previous_cases (cur : nat) :
  (cur < len)%nat -> exists t, previous tokens cur = (Done t, cur).
Proof.
  intros H. unfold previous.
  assert (Hi : (match cur with O => (len - 1)%nat | S k => k end < len)%nat)
    by (destruct cur; lia).
  destruct (token_in_range _ Hi) as [t Ht]. rewrite Ht. eauto.
Qed.

Lemma peek_cases (cur : nat) :
  (cur < len)%nat -> exists t, peek tokens cur = (Done t, cur).
Proof.
  intros H. unfold peek. destruct (token_in_range _ H) as [t Ht]. rewrite Ht. eauto.
Qed.

Lemma consume_cases (ty : Lexer.TokenType) (message : pystr) (cur : nat) :
  (cur < len)%nat ->
  (exists t, consume tokens ty message cur = (Done t, S cur) /\ (S cur < len)%nat)
  \/ (exists msg, consume tokens ty message cur = (Raised (SyntaxError msg), cur)).
Proof.
  intros H. destruct (token_in_range cur H) as [t Ht].
  remember (consume tokens ty message cur) as r eqn:Hr.
  unfold consume in Hr.
  set (k := fun current_token : Lexer.Token => praise _) in Hr.
  assert (Hk : exists msg, pbind (peek tokens) k cur = (Raised (SyntaxError msg), cur)).
  { unfold pbind, peek. rewrite Ht. subst k. unfold praise. eexists. reflexivity. }
  clearbody k. destruct Hk as [msg Hk].
  unfold pbind at 1 in Hr. rewrite (check_at _ _ _ _ Ht) in Hr.
  destruct (TokenType_beq (Lexer.type t) Lexer.EOF) eqn:He; cbn [negb andb] in Hr.
  - right. exists msg. rewrite Hr. exact Hk.
  - destruct (TokenType_beq (Lexer.type t) ty).
    + left. exists t. rewrite Hr, (advance_at _ _ _ Ht He).
      split; [reflexivity | eapply next_in_range; eassumption].
    + right. exists msg. rewrite Hr. exact Hk.
Qed.

Lemma skip_newlines_cases (n : nat) :
  forall cur, (cur < len)%nat -> (len - cur <= n)%nat ->
    exists c', skip_newlines tokens n cur = (Done tt, c') /\ (cur <= c' < len)%nat.
Proof.
  induction n as [|n IH]; intros cur H Hn; [lia | ].
  cbn [skip_newlines]. unfold pbind.
  destruct (match_cases [Lexer.NEWLINE] cur H) as [[-> Hs] | ->].
  - destruct (IH (S cur) Hs ltac:(lia)) as (c' & -> & Hc). exists c'. split; [reflexivity | lia].
  - exists cur. split; [reflexivity | lia].
Qed.

Lemma fine_weaken {A : Type} (m : P A) (cur : nat) :
  fine tokens true m cur -> fine tokens false m cur.
Proof. unfold fine. destruct (m cur) as [[a | e | ] c']; auto. intros [? ?]. split; lia. Qed.

(** *** Expressions *)

Ltac on_match :=
  match goal with
  | |- context [match_ tokens ?types ?c] =>
    let E := fresh "E" in
    let R := fresh "R" in
    destruct (match_cases types c ltac:(lia)) as [[E R] | E]; rewrite E; cbv beta iota delta [pret praise]
  end.

Ltac on_previous :=
  match goal with
  | |- context [previous tokens ?c] =>
    let E := fresh "E" in
    let t := fresh "t" in
    destruct (previous_cases c ltac:(lia)) as [t E]; rewrite E; cbv beta iota delta [pret praise]
  end.

Ltac on_peek :=
  match goal with
  | |- context [peek tokens ?c] =>
    let E := fresh "E" in
    let t := fresh "t" in
    destruct (peek_cases c ltac:(lia)) as [t E]; rewrite E; cbv beta iota delta [pret praise]
  end.

Ltac on_consume :=
  match goal with
  | |- context [consume tokens ?ty ?msg ?c] =>
    let E := fresh "E" in
    let R := fresh "R" in
    let t := fresh "t" in
    let m := fresh "m" in
    destruct (consume_cases ty msg c ltac:(lia)) as [(t & E & R) | (m & E)];
    rewrite E; cbv beta iota delta [pret praise]
  end.

Ltac on_check :=
  match goal with
  | |- context [check tokens ?ty ?c] =>
    let E := fresh "E" in
    let R := fresh "R" in
    let Hst := fresh "Hst" in
    destruct (check_cases ty c ltac:(lia)) as [(E & Hst & R) | (E & Hst)];
    [ | try specialize (Hst ltac:(discriminate)) ];
    rewrite E; cbv beta iota delta [pret praise]
  end.

Ltac on_is_at_end :=
  match goal with
  | |- context [is_at_end tokens ?c] =>
    let E := fresh "E" in
    let R := fresh "R" in
    let Hst := fresh "Hst" in
    destruct (is_at_end_cases c ltac:(lia)) as [(E & Hst) | (E & Hst & R)];
    rewrite E; cbv beta iota delta [pret praise]
  end.

Ltac on_skip_newlines :=
  match goal with
  | |- context [skip_newlines tokens ?n ?c] =>
    let E := fresh "E" in
    let R := fresh "R" in
    let c' := fresh "c" in
    destruct (skip_newlines_cases n c ltac:(lia) ltac:(lia)) as (c' & E & R);
    rewrite E; cbv beta iota delta [pret praise]
  end.

(** A call of a method known to be fine. *)
Ltac on_call H m c :=
  let F := fresh "F" in
  let E := fresh "E" in
  let a := fresh "a" in
  let e := fresh "e" in
  let c' := fresh "c" in
  pose proof (H c) as F; unfold fine in F;
  destruct (m c) as [[a | e | ] c'] eqn:E;
  [ specialize (F ltac:(lia) ltac:(lia)) | try (apply F; lia) | try (apply F; lia) ].

Ltac done_fine := first [ discriminate | split; lia | lia ].

Section ExpressionLevels.

Variable fuel : nat.
Variable knot : P ASTNode.
Hypothesis Hknot : forall c, (c < len)%nat -> (len - c < fuel)%nat -> fine tokens true knot c.

Lemma primary_fine (c : nat) :
  (c < len)%nat -> (len - c <= fuel)%nat -> fine tokens true (primary tokens knot) c.
Proof.
  intros Hc Hf. unfold fine, primary, pbind.
  on_match; [done_fine | ].
  on_match; [done_fine | ].
  on_match; [done_fine | ].
  on_match.
  { on_previous. destruct (float_of_str (Lexer.value t)); cbv beta iota; done_fine. }
  on_match; [on_previous; done_fine | ].
  on_match; [on_previous; done_fine | ].
  on_match.
  { on_call Hknot knot (S c). on_consume; done_fine. }
  on_peek. done_fine.
Qed.

Lemma more_arguments_fine (n : nat) :
  forall (c : nat) (arguments : list ASTNode),
    (c < len)%nat -> (len - c <= n)%nat -> (n <= fuel)%nat ->
    fine tokens false (more_arguments tokens knot n arguments) c.
Proof.
  induction n as [|n IH]; intros c arguments Hc Hn Hf; [lia | ].
  unfold fine. cbn [more_arguments]. unfold pbind.
  on_match; [ | done_fine].
  on_call Hknot knot (S c).
  pose proof (IH c0 (arguments ++ [a]) ltac:(lia) ltac:(lia) ltac:(lia)) as G.
  unfold fine in G.
  destruct (more_arguments tokens knot n (arguments ++ [a]) c0) as [[r | e | ] c1];
    [split; lia | exact G | exact G].
Qed.

Lemma finish_call_fine (callee : ASTNode) (c : nat) :
  (0 < c)%nat -> (c < len)%nat -> (len - c < fuel)%nat ->
  fine tokens true (finish_call tokens fuel knot callee) c.
Proof.
  intros H0 Hc Hf. unfold fine, finish_call, pbind.
  on_check; cbv beta iota delta [pret praise negb].
  - on_consume; [ | done_fine]. destruct callee; done_fine.
  - on_call Hknot knot c.
    pose proof (more_arguments_fine fuel c0 [a] ltac:(lia) ltac:(lia) ltac:(lia)) as G.
    unfold fine in G.
    destruct (more_arguments tokens knot fuel [a] c0) as [[r | e | ] c1];
      [ | exact G | exact G].
    on_consume; [ | done_fine]. destruct callee; done_fine.
Qed.

Lemma call_loop_fine (n : nat) :
  forall (c : nat) (expr : ASTNode),
    (c < len)%nat -> (len - c <= n)%nat -> (n <= fuel)%nat ->
    fine tokens false (call_loop tokens fuel knot n expr) c.
Proof.
  induction n as [|n IH]; intros c expr Hc Hn Hf; [lia | ].
  unfold fine. cbn [call_loop]. unfold pbind.
  on_match; [ | done_fine].
  pose proof (finish_call_fine expr (S c) ltac:(lia) ltac:(lia) ltac:(lia)) as G.
  unfold fine in G.
  destruct (finish_call tokens fuel knot expr (S c)) as [[r | e | ] c1];
    [ | exact G | exact G].
  pose proof (IH c1 r ltac:(lia) ltac:(lia) ltac:(lia)) as G'.
  unfold fine in G'.
  destruct (call_loop tokens fuel knot n r c1) as [[r' | e | ] c2];
    [split; lia | exact G' | exact G'].
Qed.

Lemma call_fine (c : nat) :
  (c < len)%nat -> (len - c <= fuel)%nat -> fine tokens true (call tokens fuel knot) c.
Proof.
  intros Hc Hf. unfold fine, call, pbind.
  pose proof (primary_fine c Hc Hf) as G. unfold fine in G.
  destruct (primary tokens knot c) as [[r | e | ] c1]; [ | exact G | exact G].
  pose proof (call_loop_fine fuel c1 r ltac:(lia) ltac:(lia) ltac:(lia)) as G'.
  unfold fine in G'.
  destruct (call_loop tokens fuel knot fuel r c1) as [[r' | e | ] c2];
    [split; lia | exact G' | exact G'].
Qed.

Lemma unary_fine (n : nat) :
  forall c, (c < len)%nat -> (len - c <= n)%nat -> (n <= fuel)%nat ->
            fine tokens true (unary tokens fuel knot n) c.
Proof.
  induction n as [|n IH]; intros c Hc Hn Hf; [lia | ].
  unfold fine. cbn [unary]. unfold pbind.
  on_match.
  - on_previous.
    pose proof (IH (S c) ltac:(lia) ltac:(lia) ltac:(lia)) as G. unfold fine in G.
    destruct (unary tokens fuel knot n (S c)) as [[r | e | ] c1];
      [split; lia | exact G | exact G].
  - apply (call_fine c); lia.
Qed.

(** One of the six levels: an operand, then the loop. *)
Lemma binary_loop_fine (types : list Lexer.TokenType) (operand : P ASTNode) (lo : nat) :
  (forall c, (lo <= c)%nat -> (c < len)%nat -> fine tokens true operand c) ->
  forall (n c : nat) (expr : ASTNode),
    (lo <= c)%nat -> (c < len)%nat -> (len - c <= n)%nat ->
    fine tokens false (binary_loop tokens types operand n expr) c.
Proof.
  intros Hop. induction n as [|n IH]; intros c expr Hlo Hc Hn; [lia | ].
  unfold fine. cbn [binary_loop]. unfold pbind.
  on_match; [ | done_fine].
  on_previous.
  pose proof (Hop (S c) ltac:(lia) ltac:(lia)) as G. unfold fine in G.
  destruct (operand (S c)) as [[r | e | ] c1]; [ | exact G | exact G].
  pose proof (IH c1 (BinaryOp expr (Lexer.value t) r) ltac:(lia) ltac:(lia) ltac:(lia)) as G'.
  unfold fine in G'.
  destruct (binary_loop tokens types operand n (BinaryOp expr (Lexer.value t) r) c1)
    as [[r' | e | ] c2]; [split; lia | exact G' | exact G'].
Qed.

Lemma binary_level_fine (types : list Lexer.TokenType) (operand : P ASTNode) (lo : nat) :
  (forall c, (lo <= c)%nat -> (c < len)%nat -> fine tokens true operand c) ->
  forall c, (lo <= c)%nat -> (c < len)%nat -> (len - c <= fuel)%nat ->
    fine tokens true
         (let+ expr := operand in binary_loop tokens types operand fuel expr) c.
Proof.
  intros Hop c Hlo Hc Hf. unfold fine, pbind.
  pose proof (Hop c Hlo Hc) as G. unfold fine in G.
  destruct (operand c) as [[r | e | ] c1]; [ | exact G | exact G].
  pose proof (binary_loop_fine types operand lo Hop fuel c1 r
                               ltac:(lia) ltac:(lia) ltac:(lia)) as G'.
  unfold fine in G'.
  destruct (binary_loop tokens types operand fuel r c1) as [[r' | e | ] c2];
    [split; lia | exact G' | exact G'].
Qed.

Lemma logical_or_fine (lo : nat) :
  (len - lo <= fuel)%nat ->
  forall c, (lo <= c)%nat -> (c < len)%nat ->
            fine tokens true (logical_or tokens fuel knot) c.
Proof.
  intros Hf.
  assert (H1 : forall c, (lo <= c)%nat -> (c < len)%nat ->
                         fine tokens true (unary tokens fuel knot fuel) c).
  { intros c Hlo Hc. apply unary_fine; lia. }
  assert (H2 : forall c, (lo <= c)%nat -> (c < len)%nat ->
                         fine tokens true (factor tokens fuel knot) c).
  { intros c Hlo Hc. apply (binary_level_fine _ _ lo H1); lia. }
  assert (H3 : forall c, (lo <= c)%nat -> (c < len)%nat ->
                         fine tokens true (term tokens fuel knot) c).
  { intros c Hlo Hc. apply (binary_level_fine _ _ lo H2); lia. }
  assert (H4 : forall c, (lo <= c)%nat -> (c < len)%nat ->
                         fine tokens true (comparison tokens fuel knot) c).
  { intros c Hlo Hc. apply (binary_level_fine _ _ lo H3); lia. }
  assert (H5 : forall c, (lo <= c)%nat -> (c < len)%nat ->
                         fine tokens true (equality tokens fuel knot) c).
  { intros c Hlo Hc. apply (binary_level_fine _ _ lo H4); lia. }
  assert (H6 : forall c, (lo <= c)%nat -> (c < len)%nat ->
                         fine tokens true (logical_and tokens fuel knot) c).
  { intros c Hlo Hc. apply (binary_level_fine _ _ lo H5); lia. }
  intros c Hlo Hc. apply (binary_level_fine _ _ lo H6); lia.
Qed.

Lemma assignment_fine (n : nat) :
  forall c, (c < len)%nat -> (len - c <= n)%nat -> (n <= fuel)%nat ->
            fine tokens true (assignment tokens fuel knot n) c.
Proof.
  induction n as [|n IH]; intros c Hc Hn Hf; [lia | ].
  unfold fine. cbn [assignment]. unfold pbind.
  pose proof (logical_or_fine c ltac:(lia) c ltac:(lia) Hc) as G. unfold fine in G.
  destruct (logical_or tokens fuel knot c) as [[r | e | ] c1]; [ | exact G | exact G].
  on_match; [ | done_fine].
  pose proof (IH (S c1) ltac:(lia) ltac:(lia) ltac:(lia)) as G'. unfold fine in G'.
  destruct (assignment tokens fuel knot n (S c1)) as [[r' | e | ] c2];
    [ | exact G' | exact G'].
  destruct r; done_fine.
Qed.

End ExpressionLevels.

Lemma expression_fine (fuel : nat) :
  forall c, (c < len)%nat -> (len - c <= fuel)%nat ->
            fine tokens true (expression tokens (S fuel)) c.
Proof.
  induction fuel as [|fuel IH]; intros c Hc Hf; [lia | ].
  unfold fine. cbn [expression].
  apply (assignment_fine (S fuel) (expression tokens (S fuel))); try lia.
  intros c' Hc' Hf'. apply IH; lia.
Qed.

Lemma expression_fine_at (fuel : nat) (c : nat) :
  (c < len)%nat -> (len - c < fuel)%nat -> fine tokens true (expression tokens fuel) c.
Proof.
  intros Hc Hf. destruct fuel as [|fuel]; [lia | ]. apply expression_fine; lia.
Qed.

(** *** Statements *)

Ltac on_expression :=
  match goal with
  | |- context [expression tokens ?f ?c] =>
    let F := fresh "F" in
    let a := fresh "a" in
    let e := fresh "e" in
    let c' := fresh "c" in
    pose proof (expression_fine_at f c ltac:(lia) ltac:(lia)) as F; unfold fine in F;
    destruct (expression tokens f c) as [[a | e | ] c'];
    [ | exact F | exact F ]
  end.

Section StatementLevels.

Variable fuel : nat.
Variable knot : P (option ASTNode).
Variable lo : nat.
Hypothesis Hfuel : (len - lo < fuel)%nat.
Hypothesis Hknot :
  forall c, (lo < c)%nat -> (c < len)%nat ->
            fine tokens (negb (stands_at tokens Lexer.RIGHT_BRACE c)) knot c.

Lemma block_fine (n : nat) :
  forall (c : nat) (body : list ASTNode),
    (lo < c)%nat -> (c < len)%nat -> (len - c <= n)%nat ->
    fine tokens false (block tokens knot n body) c.
Proof.
  induction n as [|n IH]; intros c body Hlo Hc Hn; [lia | ].
  unfold fine. cbn [block]. unfold pbind.
  on_check; [done_fine | ].
  on_is_at_end; [done_fine | ].
  pose proof (Hknot c Hlo Hc) as G. unfold fine in G.
  rewrite Hst in G. cbn [negb] in G.
  destruct (knot c) as [[r | e | ] c1]; [ | exact G | exact G].
  pose proof (IH c1 (match r with Some s => body ++ [s] | None => body end)
                 ltac:(lia) ltac:(lia) ltac:(lia)) as G'.
  unfold fine in G'.
  destruct (block tokens knot n _ c1) as [[r' | e | ] c2];
    [split; lia | exact G' | exact G'].
Qed.

Ltac on_block :=
  match goal with
  | |- context [block tokens knot fuel [] ?c] =>
    let G := fresh "G" in
    let a := fresh "body" in
    let e := fresh "e" in
    let c' := fresh "c" in
    pose proof (block_fine fuel c [] ltac:(lia) ltac:(lia) ltac:(lia)) as G;
    unfold fine in G;
    destruct (block tokens knot fuel [] c) as [[a | e | ] c'];
    [ | exact G | exact G ]
  end.

Lemma if_statement_fine (c : nat) :
  (lo < c)%nat -> (c < len)%nat ->
  fine tokens true (if_statement tokens fuel knot) c.
Proof.
  intros Hlo Hc. unfold fine, if_statement, pbind.
  on_expression.
  on_skip_newlines. on_consume; [ | done_fine].
  on_skip_newlines. on_block.
  on_consume; [ | done_fine].
  on_match; [ | done_fine].
  on_skip_newlines. on_consume; [ | done_fine].
  on_skip_newlines. on_block.
  on_consume; done_fine.
Qed.

Lemma while_statement_fine (c : nat) :
  (lo < c)%nat -> (c < len)%nat ->
  fine tokens true (while_statement tokens fuel knot) c.
Proof.
  intros Hlo Hc. unfold fine, while_statement, pbind.
  on_expression.
  on_skip_newlines. on_consume; [ | done_fine].
  on_skip_newlines. on_block.
  on_consume; done_fine.
Qed.

Lemma return_statement_fine (c : nat) :
  (lo < c)%nat -> (c < len)%nat ->
  fine tokens false (return_statement tokens fuel) c.
Proof.
  intros Hlo Hc. unfold fine, return_statement, pbind.
  on_check; cbv beta iota delta [pret praise negb]; [done_fine | ].
  on_is_at_end; cbv beta iota delta [pret praise negb]; [done_fine | ].
  on_expression. done_fine.
Qed.

Lemma more_parameters_fine (n : nat) :
  forall (c : nat) (parameters : list pystr),
    (c < len)%nat -> (len - c <= n)%nat ->
    fine tokens false (more_parameters tokens n parameters) c.
Proof.
  induction n as [|n IH]; intros c parameters Hc Hn; [lia | ].
  unfold fine. cbn [more_parameters]. unfold pbind.
  on_match; [ | done_fine].
  on_consume; [ | done_fine].
  pose proof (IH (S (S c)) (parameters ++ [Lexer.value t]) ltac:(lia) ltac:(lia)) as G.
  unfold fine in G.
  destruct (more_parameters tokens n _ (S (S c))) as [[r | e | ] c1];
    [split; lia | exact G | exact G].
Qed.

Lemma function_declaration_fine (c : nat) :
  (lo < c)%nat -> (c < len)%nat ->
  fine tokens true (function_declaration tokens fuel knot) c.
Proof.
  intros Hlo Hc. unfold fine, function_declaration, pbind.
  on_consume; [ | done_fine].
  on_consume; [ | done_fine].
  on_check; cbv beta iota delta [pret praise negb].
  - on_consume; [ | done_fine].
    on_skip_newlines. on_consume; [ | done_fine].
    on_skip_newlines. on_block.
    on_consume; done_fine.
  - on_consume; [ | done_fine].
    pose proof (more_parameters_fine fuel (S (S (S c))) [Lexer.value t1]
                                     ltac:(lia) ltac:(lia)) as G.
    unfold fine in G.
    destruct (more_parameters tokens fuel _ (S (S (S c)))) as [[ps | e | ] c0];
      [ | exact G | exact G].
    on_consume; [ | done_fine].
    on_skip_newlines. on_consume; [ | done_fine].
    on_skip_newlines. on_block.
    on_consume; done_fine.
Qed.

Lemma statement_body_fine (c : nat) :
  (lo <= c)%nat -> (c < len)%nat ->
  fine tokens (negb (stands_at tokens Lexer.RIGHT_BRACE c))
       (statement_body tokens fuel knot) c.
Proof.
  intros Hlo Hc. unfold fine, statement_body, pbind.
  on_skip_newlines.
  assert (Hs : forall c', (c < c')%nat ->
                 if negb (stands_at tokens Lexer.RIGHT_BRACE c)
                 then (c < c')%nat else (c <= c')%nat).
  { intros c' H. destruct (negb _); lia. }
  on_match.
  { pose proof (if_statement_fine (S c0) ltac:(lia) ltac:(lia)) as G.
    unfold fine in G.
    destruct (if_statement tokens fuel knot (S c0)) as [[r | e | ] c1];
      [ | exact G | exact G].
    split; [apply Hs; lia | lia]. }
  on_match.
  { pose proof (while_statement_fine (S c0) ltac:(lia) ltac:(lia)) as G.
    unfold fine in G.
    destruct (while_statement tokens fuel knot (S c0)) as [[r | e | ] c1];
      [ | exact G | exact G].
    split; [apply Hs; lia | lia]. }
  on_match.
  { pose proof (return_statement_fine (S c0) ltac:(lia) ltac:(lia)) as G.
    unfold fine in G.
    destruct (return_statement tokens fuel (S c0)) as [[r | e | ] c1];
      [ | exact G | exact G].
    split; [apply Hs; lia | lia]. }
  on_match.
  { pose proof (function_declaration_fine (S c0) ltac:(lia) ltac:(lia)) as G.
    unfold fine in G.
    destruct (function_declaration tokens fuel knot (S c0)) as [[r | e | ] c1];
      [ | exact G | exact G].
    split; [apply Hs; lia | lia]. }
  on_check.
  { (* at a closing brace *)
    split; [ | lia].
    destruct (stands_at tokens Lexer.RIGHT_BRACE c) eqn:Hb; cbn [negb]; [lia | ].
    destruct (decide (c0 = c)) as [-> | Hne]; [congruence | lia]. }
  rewrite (check_EOF c0) by lia. cbv beta iota.
  unfold expression_statement, pbind.
  on_expression.
  split; [apply Hs; lia | lia].
Qed.

End StatementLevels.

Lemma statement_fine (fuel : nat) :
  forall c, (c < len)%nat -> (len - c < fuel)%nat ->
            fine tokens (negb (stands_at tokens Lexer.RIGHT_BRACE c))
                 (statement tokens (S fuel)) c.
Proof.
  induction fuel as [|fuel IH]; intros c Hc Hf; [lia | ].
  unfold fine. cbn [statement].
  apply (statement_body_fine (S fuel) (statement tokens (S fuel)) c); try lia.
  intros c' Hc' Hf'. apply IH; lia.
Qed.

Lemma parse_loop_fine (fuel : nat) :
  (len + 2 <= fuel)%nat ->
  forall (n c : nat) (statements : list ASTNode),
    (c < len)%nat -> (len - c <= n)%nat ->
    match parse_loop tokens fuel n statements c with
    | (Done _, c') => stands_at tokens Lexer.EOF c' = true
    | (Raised e, _) => e <> IndexError
    | (Unfinished, c') => stands_at tokens Lexer.RIGHT_BRACE c' = true
    end.
Proof.
  intros Hfuel. induction n as [|n IH]; intros c statements Hc Hn; [lia | ].
  cbn [parse_loop]. unfold pbind.
  on_is_at_end; [exact Hst | ].
  on_skip_newlines.
  on_is_at_end.
  { apply IH; [lia | ]. destruct (decide (c0 = c)) as [-> | Hne]; [congruence | lia]. }
  destruct (stands_at tokens Lexer.RIGHT_BRACE c0) eqn:Hb.
  - destruct (statement_at_brace tokens fuel c0 Hb) as [-> | ->]; [ | exact Hb].
    rewrite parse_loop_at_brace by exact Hb. exact Hb.
  - destruct fuel as [|f]; [lia | ].
    pose proof (statement_fine f c0 ltac:(lia) ltac:(lia)) as G. unfold fine in G.
    rewrite Hb in G. cbn [negb] in G.
    destruct (statement tokens (S f) c0) as [[r | e | ] c1]; [ | exact G | contradiction].
    apply IH; lia.
Qed.

End Termination.

Lemma tokenize_well_ended (source : list N) (tokens : list Lexer.Token) :
  Lexer.tokenize source = Some (inr tokens) -> well_ended tokens = true.
Proof.
  intros H. destruct (tokenize_shape _ _ H) as (body & ln & col & -> & _ & _).
  unfold well_ended. rewrite last_snoc. reflexivity.
Qed.

(** X26: parsing an expression always comes to an end.  On a token
    list that ends with the end-of-input token, [expression] called at any
    token, with more fuel than there are tokens, returns or raises: it does
    not run on, it never reads past the token list ([IndexError]), and
    when it returns it has consumed at least one token and stands at a
    token. *)
Theorem expression_always_ends
        (tokens : list Lexer.Token) (fuel cur : nat) :
  well_ended tokens = true ->
  (cur < length tokens)%nat ->
  (length tokens < fuel)%nat ->
  fine tokens true (Parser.expression tokens fuel) cur.
Proof.
  intros Hend Hc Hf. apply expression_fine_at; [exact Hend | exact Hc | lia].
Qed.

Lemma expression_always_ends_witness :
  fine [ Lexer.mkToken Lexer.NUMBER (u "1") 1 1; Lexer.mkToken Lexer.EOF [] 1 2 ]
       true
       (Parser.expression
          [ Lexer.mkToken Lexer.NUMBER (u "1") 1 1; Lexer.mkToken Lexer.EOF [] 1 2 ] 3)
       0.
Proof.
  apply expression_always_ends; [reflexivity | simpl; lia | simpl; lia].
Defined.

(** X27: parsing a statement always comes to an end, under the same
    conditions: [statement] returns or raises, never [IndexError]; when it
    returns it stands at a token, and it has consumed at least one token
    unless it was called at a closing brace. *)
Theorem statement_always_ends
        (tokens : list Lexer.Token) (fuel cur : nat) :
  well_ended tokens = true ->
  (cur < length tokens)%nat ->
  (length tokens + 1 < fuel)%nat ->
  fine tokens (negb (stands_at tokens Lexer.RIGHT_BRACE cur))
       (Parser.statement tokens fuel) cur.
Proof.
  intros Hend Hc Hf. destruct fuel as [|f]; [lia | ].
  apply statement_fine; [exact Hend | exact Hc | lia].
Qed.

Lemma statement_always_ends_witness :
  fine [ Lexer.mkToken Lexer.NUMBER (u "1") 1 1; Lexer.mkToken Lexer.EOF [] 1 2 ]
       (negb (stands_at
                [ Lexer.mkToken Lexer.NUMBER (u "1") 1 1; Lexer.mkToken Lexer.EOF [] 1 2 ]
                Lexer.RIGHT_BRACE 0))
       (Parser.statement
          [ Lexer.mkToken Lexer.NUMBER (u "1") 1 1; Lexer.mkToken Lexer.EOF [] 1 2 ] 4)
       0.
Proof.
  apply statement_always_ends; [reflexivity | simpl; lia | simpl; lia].
Defined.

(** X28: the parser on the scanner's output.  For every source the
    scanner accepts, [parse] with more fuel than there are tokens either
    returns, and then it has consumed the whole input; or raises a
    [SyntaxError] or the [ValueError] of a number, never [IndexError]; or
    does not finish, and then it stands at a closing brace (where the
    loop of [parse] stays for ever). *)
Theorem parse_of_scanned_source
        (source : list N) (tokens : list Lexer.Token) (fuel : nat) :
  Lexer.tokenize source = Some (inr tokens) ->
  (length tokens + 2 <= fuel)%nat ->
  match Parser.parse_loop tokens fuel fuel [] O with
  | (Parser.Done _, c) => stands_at tokens Lexer.EOF c = true
  | (Parser.Raised e, _) => e <> Parser.IndexError
  | (Parser.Unfinished, c) => stands_at tokens Lexer.RIGHT_BRACE c = true
  end.
Proof.
  intros Htok Hf. pose proof (tokenize_well_ended _ _ Htok) as Hend.
  apply parse_loop_fine; try assumption; try lia.
  destruct tokens; [discriminate | simpl; lia].
Qed.

Lemma parse_of_scanned_source_witness :
  match Parser.parse_loop
          [ Lexer.mkToken Lexer.IDENTIFIER (u "ա") 1 1; Lexer.mkToken Lexer.EOF [] 1 2 ]
          4 4 [] O with
  | (Parser.Done _, c) =>
    stands_at [ Lexer.mkToken Lexer.IDENTIFIER (u "ա") 1 1; Lexer.mkToken Lexer.EOF [] 1 2 ]
              Lexer.EOF c = true
  | (Parser.Raised e, _) => e <> Parser.IndexError
  | (Parser.Unfinished, c) =>
    stands_at [ Lexer.mkToken Lexer.IDENTIFIER (u "ա") 1 1; Lexer.mkToken Lexer.EOF [] 1 2 ]
              Lexer.RIGHT_BRACE c = true
  end.
Proof.
  apply (parse_of_scanned_source (u "ա")); [vm_compute; reflexivity | simpl; lia].
Defined.

Lemma pbind_raised {A B : Type} (c : Parser.P A) (k : A -> Parser.P B)
      (cur cur' : nat) (e : Parser.ParseError) :
  c cur = (Parser.Raised e, cur') -> Parser.pbind c k cur = (Parser.Raised e, cur').
Proof. intros H. unfold Parser.pbind. rewrite H. reflexivity. Qed.

Lemma match_miss (tokens : list Lexer.Token) (types : list Lexer.TokenType)
      (cur : nat) (t : Lexer.Token) :
  tokens !! cur = Some t ->
  existsb (TokenType_beq (Lexer.type t)) types = false ->
  Parser.match_ tokens types cur = (Parser.Done false, cur).
Proof.
  intros Ht H. rewrite (match_at _ _ _ _ Ht), H, andb_false_r. reflexivity.
Qed.

Lemma primary_needs_a_start
      (tokens : list Lexer.Token) (knot : Parser.P ASTNode) (cur : nat) (t : Lexer.Token) :
  tokens !! cur = Some t ->
  starts_expression (Lexer.type t) = false ->
  Parser.primary tokens knot cur
    = (Parser.Raised
         (Parser.SyntaxError
            (u "Unexpected token " ++ Parser.TokenType_str (Lexer.type t)
               ++ u " at line " ++ str_of_N (Lexer.line t))), cur).
Proof.
  intros Ht Hs. unfold starts_expression in Hs. cbn [existsb] in Hs.
  repeat match type of Hs with
         | (_ || _) = false =>
           let H := fresh "H" in
           apply orb_false_iff in Hs; destruct Hs as [H Hs]
         end.
  unfold Parser.primary.
  repeat (unfold Parser.pbind at 1;
          rewrite (match_miss _ _ _ _ Ht) by (cbn [existsb]; rewrite orb_false_r; assumption)).
  unfold Parser.pbind, Parser.peek. rewrite Ht. reflexivity.
Qed.

(** X29: an expression can only start with [չի], [-], a literal, an
    identifier or an opening parenthesis.  At any other token (a closing
    brace after [տուր], a binary operator, the end of input, ...)
    [expression] raises [SyntaxError] with
    [Unexpected token <type> at line <line>] and consumes nothing. *)
Theorem expression_needs_a_start
        (tokens : list Lexer.Token) (fuel cur : nat) (t : Lexer.Token) :
  tokens !! cur = Some t ->
  starts_expression (Lexer.type t) = false ->
  Parser.expression tokens (S (S fuel)) cur
    = (Parser.Raised
         (Parser.SyntaxError
            (u "Unexpected token " ++ Parser.TokenType_str (Lexer.type t)
               ++ u " at line " ++ str_of_N (Lexer.line t))), cur).
Proof.
  intros Ht Hs. cbn [Parser.expression Parser.assignment].
  apply pbind_raised. unfold Parser.logical_or.
  apply pbind_raised. unfold Parser.logical_and.
  apply pbind_raised. unfold Parser.equality.
  apply pbind_raised. unfold Parser.comparison.
  apply pbind_raised. unfold Parser.term.
  apply pbind_raised. unfold Parser.factor.
  apply pbind_raised. cbn [Parser.unary].
  unfold Parser.pbind at 1. rewrite (match_miss _ [Lexer.NOT; Lexer.MINUS] _ _ Ht).
  - unfold Parser.call. apply pbind_raised. apply primary_needs_a_start; assumption.
  - unfold starts_expression in Hs. cbn [existsb] in Hs |- *.
    apply orb_false_iff in Hs. destruct Hs as [H1 Hs].
    apply orb_false_iff in Hs. destruct Hs as [H2 Hs].
    rewrite H1, H2. reflexivity.
Qed.

Lemma expression_needs_a_start_witness :
  Parser.expression
    [ Lexer.mkToken Lexer.RIGHT_BRACE (u "}") 1 1; Lexer.mkToken Lexer.EOF [] 1 2 ] 2 0
  = (Parser.Raised
       (Parser.SyntaxError
          (u "Unexpected token " ++ Parser.TokenType_str Lexer.RIGHT_BRACE
             ++ u " at line " ++ str_of_N 1)), O).
Proof.
  apply (expression_needs_a_start
           [ Lexer.mkToken Lexer.RIGHT_BRACE (u "}") 1 1; Lexer.mkToken Lexer.EOF [] 1 2 ]
           0 0 (Lexer.mkToken Lexer.RIGHT_BRACE (u "}") 1 1)); reflexivity.
Defined.
